(** * PySEAD, [Truss_3D]: the direct stiffness solver for 3D pin-jointed trusses

    A shallow embedding of [src/Truss_3D.py].  Every method of the class
    [Truss_3D] is a definition of the same name below.

    - Python exceptions are values of [exn]; a method that can raise returns
      a [Result].
    - A [dict] is an association list in insertion order (the order a Python
      [for key in d] visits), with integer keys.
    - A numpy vector is a [list] of scalars, a matrix a list of rows;
      indexing follows numpy (a negative index counts from the end, an index
      outside [-n, n) raises [IndexError]).
    - The scalar arithmetic is an interface, [Scalar], with two instances:
      [float64] (binary64, what numpy computes with) and [exact] (the real
      numbers, the arithmetic the stiffness method is stated in). *)

From Stdlib Require Import ZArith List Bool Lia Permutation FinFun Sorted.
From Stdlib Require Import Floats Uint63.
From Stdlib Require Import Reals Lra.
Import ListNotations.

Set Implicit Arguments.

(** ** Exceptions and results *)

Inductive exn : Type :=
| KeyError          (* d[k] with k not a key of d *)
| IndexError        (* sequence or array index out of range *)
| LinAlgError       (* np.linalg.inv: singular matrix *)
| TypeError         (* iterating a scalar *)
| UnboundLocalError (* a local variable read before it was assigned *).

Inductive Result (A : Type) : Type :=
| Ok (a : A)
| Raise (e : exn).
Arguments Ok {A} a.
Arguments Raise {A} e.

Definition bind {A B : Type} (r : Result A) (f : A -> Result B) : Result B :=
  match r with
  | Ok a => f a
  | Raise e => Raise e
  end.

Declare Scope result_scope.
Delimit Scope result_scope with result.
Notation "x <- r ;; k" := (bind r (fun x => k))
  (at level 61, r at next level, right associativity) : result_scope.
Notation "' p <- r ;; k" := (bind r (fun x => match x with p => k end))
  (at level 61, p pattern, r at next level, right associativity) : result_scope.
Open Scope result_scope.
Open Scope Z_scope.

(** [[f(x) for x in xs]], stopping at the first exception. *)
Fixpoint mapM {A B : Type} (f : A -> Result B) (xs : list A) : Result (list B) :=
  match xs with
  | [] => Ok []
  | x :: xs' =>
      y <- f x ;;
      ys <- mapM f xs' ;;
      Ok (y :: ys)
  end.

(** [for x in xs: acc = f(acc, x)], stopping at the first exception. *)
Fixpoint foldM {A B : Type} (f : B -> A -> Result B) (xs : list A) (acc : B)
  : Result B :=
  match xs with
  | [] => Ok acc
  | x :: xs' =>
      acc' <- f acc x ;;
      foldM f xs' acc'
  end.

(** ** Python dictionaries and sequences *)

Definition dict (V : Type) : Type := list (Z * V).

Definition keys {V : Type} (d : dict V) : list Z := map fst d.

Fixpoint dict_find {V : Type} (d : dict V) (k : Z) : option V :=
  match d with
  | [] => None
  | (k', v) :: d' => if k' =? k then Some v else dict_find d' k
  end.

(** [d[k]] *)
Definition dict_get {V : Type} (d : dict V) (k : Z) : Result V :=
  match dict_find d k with
  | Some v => Ok v
  | None => Raise KeyError
  end.

(** The position a Python or numpy index [i] denotes in a sequence of
    length [n]. *)
Definition norm_index (n : nat) (i : Z) : Result nat :=
  if (0 <=? i) && (i <? Z.of_nat n) then Ok (Z.to_nat i)
  else if (- Z.of_nat n <=? i) && (i <? 0) then Ok (Z.to_nat (i + Z.of_nat n))
  else Raise IndexError.

(** [l[i]] *)
Definition py_index {A : Type} (l : list A) (i : Z) : Result A :=
  n <- norm_index (length l) i ;;
  match nth_error l n with
  | Some a => Ok a
  | None => Raise IndexError
  end.

Fixpoint list_set {A : Type} (l : list A) (n : nat) (v : A) : list A :=
  match l, n with
  | [], _ => []
  | _ :: l', O => v :: l'
  | a :: l', S n' => a :: list_set l' n' v
  end.

(** [l[i] = v] *)
Definition np_set {A : Type} (l : list A) (i : Z) (v : A) : Result (list A) :=
  n <- norm_index (length l) i ;;
  Ok (list_set l n v).

(** [for i, x in enumerate(xs)] *)
Definition enumerate {A : Type} (xs : list A) : list (Z * A) :=
  combine (map Z.of_nat (seq 0 (length xs))) xs.

(** [np.delete(l, obj)] along the one axis of [l]: every index of [obj] is
    checked against the length, then the positions named are dropped. *)
Definition np_delete {A : Type} (l : list A) (obj : list Z) : Result (list A) :=
  gone <- mapM (norm_index (length l)) obj ;;
  Ok (map snd
        (filter (fun p => negb (existsb (Nat.eqb (fst p)) gone))
                (combine (seq 0 (length l)) l))).

(** ** Scalars

    What the code asks of numpy's element type: the arithmetic operators,
    [np.sqrt], the comparisons [==] and [<], the conversion of a Python
    integer literal, and [np.rint] (round to the nearest integer, halves to
    even), from which [np.round] is built. *)

Class Scalar (F : Type) : Type := {
  of_Z : Z -> F;
  sadd : F -> F -> F;
  ssub : F -> F -> F;
  smul : F -> F -> F;
  sdiv : F -> F -> F;
  ssqrt : F -> F;
  seqb : F -> F -> bool;
  sltb : F -> F -> bool;
  srint : F -> F
}.

Declare Scope scalar_scope.
Delimit Scope scalar_scope with scalar.
Infix "+." := sadd (at level 50, left associativity) : scalar_scope.
Infix "-." := ssub (at level 50, left associativity) : scalar_scope.
Infix "*." := smul (at level 40, left associativity) : scalar_scope.
Infix "/." := sdiv (at level 40, left associativity) : scalar_scope.
Infix "==." := seqb (at level 70, no associativity) : scalar_scope.
Open Scope scalar_scope.

Section Numpy.
Context {F : Type} {SF : Scalar F}.

Definition vec : Type := list F.
Definition mat : Type := list (list F).

Definition s0 : F := of_Z 0.

(** [np.zeros(n)] and [np.zeros([n, m])] *)
Definition np_zeros (n : nat) : vec := repeat s0 n.
Definition np_zeros2 (n m : nat) : mat := repeat (np_zeros m) n.

(** [np.round(x)] and [np.round(x, 5)]: numpy scales by [10**5], rounds to
    the nearest integer and scales back. *)
Definition np_round (x : F) : F := srint x.
Definition np_round5 (x : F) : F := srint (x *. of_Z 100000) /. of_Z 100000.

(** The sum of products of a row and a column, accumulated from zero. *)
Definition dot_vec (a b : vec) : F :=
  fold_left (fun acc p => acc +. fst p *. snd p) (combine a b) s0.

Definition ncols (m : mat) : nat := length (hd [] m).

(** [np.transpose(m)] *)
Definition np_transpose (m : mat) : mat :=
  map (fun j => map (fun row => nth j row s0) m) (seq 0 (ncols m)).

(** [a.dot(b)] for two matrices, and for a matrix and a vector.  The shapes
    agree at every call of the source. *)
Definition mat_dot (a b : mat) : mat :=
  map (fun row => map (fun col => dot_vec row col) (np_transpose b)) a.
Definition mat_vec (a : mat) (v : vec) : vec :=
  map (fun row => dot_vec row v) a.

(** [c * m] for a scalar [c] and an array [m] *)
Definition scale (c : F) (m : mat) : mat := map (map (fun x => c *. x)) m.

(** *** [np.linalg.inv]

    numpy hands the matrix to LAPACK, which eliminates with partial
    pivoting and raises [LinAlgError] on an exactly zero pivot.  Modelled
    as Gauss-Jordan elimination with partial pivoting on the matrix
    augmented by the identity. *)

Definition sabs (x : F) : F := if sltb x s0 then s0 -. x else x.

Definition identity (n : nat) : mat :=
  map (fun i => map (fun j => if Nat.eqb i j then of_Z 1 else s0) (seq 0 n))
      (seq 0 n).

(** The row of [rows] whose entry in column [c] is largest in absolute
    value (the first such row), taken out of the list. *)
Fixpoint pick_pivot (c : nat) (rows : list vec) : option (vec * list vec) :=
  match rows with
  | [] => None
  | r :: rest =>
      match pick_pivot c rest with
      | None => Some (r, [])
      | Some (best, others) =>
          if sltb (sabs (nth c r s0)) (sabs (nth c best s0))
          then Some (best, r :: others)
          else Some (r, best :: others)
      end
  end.

Definition eliminate (c : nat) (p : vec) (r : vec) : vec :=
  let m := nth c r s0 in
  map (fun xy => fst xy -. m *. snd xy) (combine r p).

(** [done] holds the rows already reduced (in reverse), [todo] the rows
    still to be given a pivot; [c] is the current column. *)
Fixpoint gauss_jordan (fuel c : nat) (done todo : list vec)
  : Result (list vec) :=
  match fuel with
  | O => Ok (rev done)
  | S fuel' =>
      match pick_pivot c todo with
      | None => Ok (rev done)
      | Some (p, others) =>
          let a := nth c p s0 in
          if a ==. s0 then Raise LinAlgError
          else
            let p' := map (fun x => x /. a) p in
            gauss_jordan fuel' (S c)
              (p' :: map (eliminate c p') done)
              (map (eliminate c p') others)
      end
  end.

Definition linalg_inv (m : mat) : Result mat :=
  let n := length m in
  rows <- gauss_jordan n 0 [] (map (fun ri => fst ri ++ snd ri)
                                   (combine m (identity n))) ;;
  Ok (map (skipn n) rows).

End Numpy.

(** ** The class [Truss_3D] *)

Section Truss.
Context {F : Type} {SF : Scalar F}.

Definition point : Type := (F * F * F)%type.

(** The six constructor arguments, the five result fields [__init__] sets
    to an empty list, and [member_lengths_], an attribute only [Solve]
    assigns ([None]: the instance has no such attribute).  A node and a
    force are triples and an element is a pair of node identifiers; a
    support is the list of flags that the source indexes. *)
Record Truss_3D : Type := {
  nodes : dict point;
  elements : dict (Z * Z);
  supports : dict (list F);
  forces : dict point;
  elasticity : dict F;
  cross_area : dict F;
  K_global_ : @mat F;
  displacements_ : @vec F;
  reactions_ : @vec F;
  member_forces_ : dict F;
  member_stresses_ : dict F;
  member_lengths_ : option (dict F)
}.

Definition init (nodes : dict point) (elements : dict (Z * Z))
    (supports : dict (list F)) (forces : dict point)
    (elasticity cross_area : dict F) : Truss_3D :=
  {| nodes := nodes; elements := elements; supports := supports;
     forces := forces; elasticity := elasticity; cross_area := cross_area;
     K_global_ := []; displacements_ := []; reactions_ := [];
     member_forces_ := []; member_stresses_ := [];
     member_lengths_ := None |}.

(** The squares [d**2] of the source are the products [d*d].  Where the
    coordinates are Python floats and a product is infinite, the power of
    the source raises [OverflowError]; the product here is the infinite
    value. *)
Definition Direction_Cosines (element : Z) (nodes : dict point)
    (elements : dict (Z * Z)) : Result (F * F * F * F) :=
  '(from_node, to_node) <- dict_get elements element ;;
  '(x1, y1, z1) <- dict_get nodes from_node ;;
  '(x2, y2, z2) <- dict_get nodes to_node ;;
  let length := ssqrt ((x2 -. x1) *. (x2 -. x1) +. (y2 -. y1) *. (y2 -. y1)
                       +. (z2 -. z1) *. (z2 -. z1)) in
  let cx := (x2 -. x1) /. length in
  let cy := (y2 -. y1) /. length in
  let cz := (z2 -. z1) /. length in
  Ok (cx, cy, cz, length).

(** [np.array([[1, -1], [-1, 1]])] *)
Definition axial_pattern : @mat F :=
  [[of_Z 1; of_Z (-1)]; [of_Z (-1); of_Z 1]].

(** [np.array([[cx,cy,cz,0,0,0], [0,0,0,cx,cy,cz]])] *)
Definition transformation (cx cy cz : F) : @mat F :=
  [[cx; cy; cz; s0; s0; s0]; [s0; s0; s0; cx; cy; cz]].

Definition Assemble_Stiffness_Matrix (element : Z) (elasticity area : dict F)
    (nodes : dict point) (elements : dict (Z * Z)) : Result (@mat F) :=
  '(cx, cy, cz, L) <- Direction_Cosines element nodes elements ;;
  E <- dict_get elasticity element ;;
  A <- dict_get area element ;;
  let k := scale (E *. A /. L) axial_pattern in
  let T := transformation cx cy cz in
  let K := mat_dot (mat_dot (np_transpose T) k) T in
  Ok K.

(** *** [K[np.ix_(dofs, dofs)] += k]

    numpy reads the 6 by 6 block of [K] at the rows and columns [dofs]
    (checking every index), adds [k], and writes the sums back one entry
    after the other; where [dofs] repeats an index the later write
    stays. *)

Definition mat_get (K : @mat F) (r c : nat) : F := nth c (nth r K []) s0.

Definition mat_set (K : @mat F) (r c : nat) (v : F) : @mat F :=
  list_set K r (list_set (nth r K []) c v).

Definition block_positions : list (nat * nat) :=
  list_prod (seq 0 6) (seq 0 6).

Definition ix_add (K : @mat F) (dofs : list Z) (k : @mat F) : Result (@mat F) :=
  rows <- mapM (norm_index (length K)) dofs ;;
  cols <- mapM (norm_index (ncols K)) dofs ;;
  let sums := map (fun pq => (nth (fst pq) rows O, nth (snd pq) cols O,
                              mat_get K (nth (fst pq) rows O) (nth (snd pq) cols O)
                              +. mat_get k (fst pq) (snd pq)))
                  block_positions in
  Ok (fold_left (fun M w => mat_set M (fst (fst w)) (snd (fst w)) (snd w))
                sums K).

Definition Assemble_Global_Stiffness (K k : @mat F) (i j : Z) : Result (@mat F) :=
  let dofs := [3*i-3; 3*i-2; 3*i-1; 3*j-3; 3*j-2; 3*j-1] in
  ix_add K dofs k.

Definition Support_Vector (restrained_dofs : dict (list F)) (nodes : dict point)
  : Result (list Z) :=
  let dofs := np_zeros (3 * length nodes) in
  dofs <- foldM (fun dofs dof =>
                   flags <- dict_get restrained_dofs dof ;;
                   f0 <- py_index flags 0 ;;
                   dofs <- np_set dofs (dof * 3 - 3) f0 ;;
                   f1 <- py_index flags 1 ;;
                   dofs <- np_set dofs (dof * 3 - 2) f1 ;;
                   f1' <- py_index flags 1 ;;
                   np_set dofs (dof * 3 - 1) f1')
                (keys restrained_dofs) dofs ;;
  Ok (map (fun id => fst id + 1)
          (filter (fun id => snd id ==. of_Z 1) (enumerate dofs))).

Definition Apply_Boundary_Conditions (restrained_dofs : list Z) (K_global : @mat F)
  : Result (@mat F) :=
  let dofs := map (fun j => j - 1) restrained_dofs in
  k <- np_delete K_global dofs ;;
  mapM (fun row => np_delete row dofs) k.

Definition Assemble_Force_Vector (forces : dict point) (restrained_dofs : list Z)
    (nodes : dict point) : Result (@vec F) :=
  let f := np_zeros (3 * length nodes) in
  f <- foldM (fun f force =>
                '(fx, fy, fz) <- dict_get forces force ;;
                f <- np_set f (force * 3 - 3) fx ;;
                f <- np_set f (force * 3 - 2) fy ;;
                np_set f (force * 3 - 1) fz)
             (keys forces) f ;;
  let dofs := map (fun j => j - 1) restrained_dofs in
  np_delete f dofs.

Definition Truss_Global_Displacement (displacements : @vec F)
    (Support_Vector : list Z) (nodes : dict point) : Result (@vec F) :=
  let support_vector_new := map (fun x => x - 1) Support_Vector in
  let displacement_vector := np_zeros (3 * length nodes) in
  '(displacement_vector, _) <-
    foldM (fun st i_ =>
             let '(displacement_vector, j) := st in
             let i := fst i_ in
             if existsb (Z.eqb i) support_vector_new
             then dv <- np_set displacement_vector i s0 ;;
                  Ok (dv, j)
             else d <- py_index displacements j ;;
                  dv <- np_set displacement_vector i d ;;
                  Ok (dv, j + 1))
          (enumerate displacement_vector) (displacement_vector, 0) ;;
  Ok displacement_vector.

Definition Solve_Reactions (K_global : @mat F) (displacement_vector : @vec F)
  : @vec F :=
  map np_round (mat_vec K_global displacement_vector).

Definition Element_Displacement (element_number : Z)
    (global_displacement : @vec F) (elements : dict (Z * Z)) : Result (@vec F) :=
  '(fromNode, toNode) <- dict_get elements element_number ;;
  let u := [3 * fromNode - 2; 3 * fromNode - 1; 3 * fromNode;
            3 * toNode - 2; 3 * toNode - 1; 3 * toNode] in
  elem_displacements <-
    mapM (fun u_node => py_index global_displacement (u_node - 1)) u ;;
  Ok (map np_round5 elem_displacements).

Definition Solve_Member_Force (element : Z) (displacement_vector : list (@vec F))
    (area elasticity : dict F) (nodes : dict point) (elements : dict (Z * Z))
  : Result (@vec F) :=
  '(cx, cy, cz, L) <- Direction_Cosines element nodes elements ;;
  let T := transformation cx cy cz in
  d <- py_index displacement_vector (element - 1) ;;
  let u := mat_vec T d in
  E <- dict_get elasticity element ;;
  A <- dict_get area element ;;
  let k := scale (E *. A /. L) axial_pattern in
  let member_force := mat_vec k u in
  Ok member_force.

Definition Solve_Member_Stress (element : Z) (displacement_vector : list (@vec F))
    (elasticity : dict F) (nodes : dict point) (elements : dict (Z * Z))
  : Result (@vec F) :=
  '(cx, cy, cz, L) <- Direction_Cosines element nodes elements ;;
  let T := transformation cx cy cz in
  d <- py_index displacement_vector (element - 1) ;;
  let u := mat_vec T d in
  E <- dict_get elasticity element ;;
  let k := scale (E /. L) axial_pattern in
  let member_stress := mat_vec k u in
  Ok member_stress.

(** *** [Solve]

    The values [Solve] holds in local variables when it reaches the
    assignments to the result fields (steps 1 to 11 of the source). *)
Record solution : Type := {
  sol_member_lengths : @vec F;
  sol_K_global : @mat F;
  sol_displacements : @vec F;
  sol_reactions : @vec F;
  sol_member_forces : dict F;
  sol_member_stresses : dict F
}.

(** Step 3: the loop [for i, _ in enumerate(k_elems)]. *)
Definition assemble_all (elements : dict (Z * Z)) (k_elems : list (@mat F))
    (K_global : @mat F) : Result (@mat F) :=
  foldM (fun K_global i_ =>
           let i := fst i_ in
           k <- py_index k_elems i ;;
           '(a, _) <- dict_get elements (i + 1) ;;
           '(_, b) <- dict_get elements (i + 1) ;;
           Assemble_Global_Stiffness K_global k a b)
        (enumerate k_elems) K_global.

(** [{key: per_element[key-1][1] for key in elements}] *)
Definition second_of_each (elements : dict (Z * Z)) (per_element : list (@vec F))
  : Result (dict F) :=
  mapM (fun key =>
          pair_ <- py_index per_element (key - 1) ;;
          x <- py_index pair_ 1 ;;
          Ok (key, x))
       (keys elements).

Definition Solve_steps (self : Truss_3D) : Result solution :=
  let nodes := nodes self in
  let elements := elements self in
  let supports := supports self in
  let forces := forces self in
  let elasticity := elasticity self in
  let cross_area := cross_area self in
  (* Step 1 *)
  member_lengths <-
    mapM (fun element =>
            '(_, _, _, L) <- Direction_Cosines element nodes elements ;;
            Ok L)
         (keys elements) ;;
  (* Step 2 *)
  k_elems <-
    mapM (fun element =>
            Assemble_Stiffness_Matrix element elasticity cross_area nodes elements)
         (keys elements) ;;
  (* Step 3 *)
  let K_global := np_zeros2 (3 * length nodes) (3 * length nodes) in
  K_global <- assemble_all elements k_elems K_global ;;
  (* Step 4 *)
  Support_Vector <- Support_Vector supports nodes ;;
  K_new <- Apply_Boundary_Conditions Support_Vector K_global ;;
  (* Step 5 *)
  f_new <- Assemble_Force_Vector forces Support_Vector nodes ;;
  (* Step 6 *)
  K_inv <- linalg_inv K_new ;;
  let displacements := mat_vec K_inv f_new in
  (* Step 7 *)
  global_displacements <-
    Truss_Global_Displacement displacements Support_Vector nodes ;;
  (* Step 8 *)
  let reactions := Solve_Reactions K_global global_displacements in
  (* Step 9 *)
  element_displacements <-
    mapM (fun element => Element_Displacement element global_displacements elements)
         (keys elements) ;;
  (* Step 10 *)
  member_forces <-
    mapM (fun element =>
            Solve_Member_Force element element_displacements cross_area
                               elasticity nodes elements)
         (keys elements) ;;
  member_forces <- second_of_each elements member_forces ;;
  (* Step 11 *)
  member_stresses <-
    mapM (fun element =>
            Solve_Member_Stress element element_displacements elasticity
                                nodes elements)
         (keys elements) ;;
  member_stresses <- second_of_each elements member_stresses ;;
  Ok {| sol_member_lengths := member_lengths;
        sol_K_global := K_global;
        sol_displacements := global_displacements;
        sol_reactions := reactions;
        sol_member_forces := member_forces;
        sol_member_stresses := member_stresses |}.

(** The tail of [Solve]: the five assignments, then
    [for key, length in enumerate(L)].  [L] is the local that step 1's loop
    last bound, the length of the last element, a numpy scalar:
    enumerating it raises [TypeError]; with no element the loop never bound
    it, and reading it raises [UnboundLocalError].  The assignment to
    [member_lengths_] after the loop is never reached. *)
Definition Solve (self : Truss_3D) : Truss_3D * option exn :=
  match Solve_steps self with
  | Raise e => (self, Some e)
  | Ok s =>
      let self' :=
        {| nodes := nodes self; elements := elements self;
           supports := supports self; forces := forces self;
           elasticity := elasticity self; cross_area := cross_area self;
           displacements_ := sol_displacements s;
           reactions_ := sol_reactions s;
           member_forces_ := sol_member_forces s;
           member_stresses_ := sol_member_stresses s;
           K_global_ := sol_K_global s;
           member_lengths_ := member_lengths_ self |} in
      match sol_member_lengths s with
      | [] => (self', Some UnboundLocalError)
      | _ :: _ => (self', Some TypeError)
      end
  end.

End Truss.

(** ** The two arithmetics *)

(** *** binary64, numpy's [float64] *)

Definition float_of_Z (z : Z) : float :=
  match z with
  | Z0 => PrimFloat.zero
  | Zpos _ => PrimFloat.of_uint63 (Uint63.of_Z z)
  | Zneg p => PrimFloat.opp (PrimFloat.of_uint63 (Uint63.of_Z (Zpos p)))
  end.

(** [np.rint]: below [2**52] in absolute value, adding and subtracting
    [2**52] rounds to the nearest integer, halves to even; from [2**52] on
    every float is an integer.  A zero and a NaN are returned as they are,
    and the sign of the argument is kept. *)
Definition float_rint (x : float) : float :=
  let c := 0x1p52%float in
  if PrimFloat.ltb (PrimFloat.abs x) c then
    if PrimFloat.eqb x PrimFloat.zero then x
    else if PrimFloat.ltb PrimFloat.zero x
         then PrimFloat.sub (PrimFloat.add x c) c
         else PrimFloat.opp (PrimFloat.sub (PrimFloat.add (PrimFloat.opp x) c) c)
  else x.

#[export] Instance float64 : Scalar float := {
  of_Z := float_of_Z;
  sadd := PrimFloat.add;
  ssub := PrimFloat.sub;
  smul := PrimFloat.mul;
  sdiv := PrimFloat.div;
  ssqrt := PrimFloat.sqrt;
  seqb := PrimFloat.eqb;
  sltb := PrimFloat.ltb;
  srint := float_rint
}.

(** *** The real numbers *)

Definition Req_bool (x y : R) : bool := if Req_dec_T x y then true else false.
Definition Rlt_bool (x y : R) : bool := if Rlt_dec x y then true else false.

Definition Rrint (x : R) : R :=
  let f := Int_part x in
  let r := frac_part x in
  if Rlt_dec r (1 / 2) then IZR f
  else if Rlt_dec (1 / 2) r then IZR (f + 1)
  else IZR (if Z.even f then f else f + 1).

#[export] Instance exact : Scalar R := {
  of_Z := IZR;
  sadd := Rplus;
  ssub := Rminus;
  smul := Rmult;
  sdiv := Rdiv;
  ssqrt := sqrt;
  seqb := Req_bool;
  sltb := Rlt_bool;
  srint := Rrint
}.

(** ** Concrete trusses *)

Module Examples.
Open Scope float_scope.

(** Two nodes 10 apart along x, one bar, [E = 200], [A = 1], a load of
    [-50] along x at node 2. *)
Definition bar_nodes : dict (@point float) := [(1%Z, (0, 0, 0)); (2%Z, (10, 0, 0))].
Definition bar_elements : dict (Z * Z) := [(1%Z, (1%Z, 2%Z))].
Definition bar_forces : dict (@point float) := [(2%Z, (-50, 0, 0))].
Definition bar_E : dict float := [(1%Z, 200)].
Definition bar_A : dict float := [(1%Z, 1)].

(** Node 1 fixed, node 2 free in the three directions. *)
Definition bar_free : Truss_3D :=
  init bar_nodes bar_elements [(1%Z, [1; 1; 1])] bar_forces bar_E bar_A.

(** Node 1 fixed, node 2 held in y and z and free along the bar. *)
Definition bar_guided : Truss_3D :=
  init bar_nodes bar_elements [(1%Z, [1; 1; 1]); (2%Z, [0; 1; 1])]
       bar_forces bar_E bar_A.

(** [bar_guided] with its free node named 0 instead of 2. *)
Definition bar_guided_node0 : Truss_3D :=
  init [(1%Z, (0, 0, 0)); (0%Z, (10, 0, 0))] [(1%Z, (1%Z, 0%Z))]
       [(1%Z, [1; 1; 1]); (0%Z, [0; 1; 1])] [(0%Z, (-50, 0, 0))] bar_E bar_A.

(** One bar whose two end nodes are the same point. *)
Definition bar_degenerate : Truss_3D :=
  init [(1%Z, (0, 0, 0)); (2%Z, (0, 0, 0))] bar_elements
       [(1%Z, [1; 1; 1])] bar_forces bar_E bar_A.

(** A bar from the origin to (3, 4, 0). *)
Definition bar345_nodes : dict (@point float) := [(1%Z, (0, 0, 0)); (2%Z, (3, 4, 0))].

(** Three bars side by side between the two nodes, of moduli [E1], [E2]
    and [E3] in the order of their identifiers; node 2 is guided. *)
Definition three_bars (E1 E2 E3 : float) : Truss_3D :=
  init bar_nodes [(1%Z, (1%Z, 2%Z)); (2%Z, (1%Z, 2%Z)); (3%Z, (1%Z, 2%Z))]
       [(1%Z, [1; 1; 1]); (2%Z, [0; 1; 1])] bar_forces
       [(1%Z, E1); (2%Z, E2); (3%Z, E3)] [(1%Z, 1); (2%Z, 1); (3%Z, 1)].

(** The element stiffness of a bar along x with [E*A/L = kappa]. *)
Definition stiffness_along_x (kappa : float) : @mat float :=
  [[kappa; 0; 0; -kappa; 0; 0]; [0; 0; 0; 0; 0; 0]; [0; 0; 0; 0; 0; 0];
   [-kappa; 0; 0; kappa; 0; 0]; [0; 0; 0; 0; 0; 0]; [0; 0; 0; 0; 0; 0]].

End Examples.

(** ** Notions the properties are stated with *)

Section Notions.
Context {F : Type} {SF : Scalar F}.

(** The element blocks with their end nodes, added to [K] in the order of
    the list: step 3 of [Solve] with the look-ups done. *)
Definition assemble_in_order (blocks : list (@mat F * (Z * Z))) (K : @mat F)
  : Result (@mat F) :=
  foldM (fun K b => Assemble_Global_Stiffness K (fst b) (fst (snd b)) (snd (snd b)))
        blocks K.

(** The 0-based positions of a vector of length [n] that are not
    restrained by [Support_Vector] (which holds 1-based indices), in
    ascending order. *)
Definition free_positions (Support_Vector : list Z) (n : nat) : list nat :=
  filter (fun i => negb (existsb (Z.eqb (Z.of_nat i))
                                 (map (fun x => x - 1) Support_Vector)))
         (seq 0 n).

Definition symmetric (K : @mat F) : Prop := np_transpose K = K.

(** The product of a column and a row. *)
Definition outer (v w : @vec F) : @mat F :=
  map (fun x => map (fun y => x *. y) w) v.

Definition rank_at_most_one (K : @mat F) : Prop := exists v w, K = outer v w.

(** The first-order change of length of a bar with direction cosines
    [(cx, cy, cz)] whose ends move by [d = (from; to)]: the axial
    displacement of the far end minus that of the near end. *)
Definition elongation (cx cy cz : F) (d : @vec F) : F :=
  match mat_vec (transformation cx cy cz) d with
  | [u_from; u_to] => u_to -. u_from
  | _ => s0
  end.

Definition shape (n m : nat) (K : @mat F) : Prop :=
  length K = n /\ Forall (fun row => length row = m) K.

(** The six rows and columns of the global matrix that belong to the end
    nodes [i] and [j], as [__Assemble_Global_Stiffness] computes them. *)
Definition block_dofs (i j : Z) : list Z :=
  [3*i-3; 3*i-2; 3*i-1; 3*j-3; 3*j-2; 3*j-1].

(** One write of the loop that stores the sums of [ix_add], and what a
    write leaves at position [(r, c)]. *)
Definition write (M : @mat F) (w : nat * nat * F) : @mat F :=
  mat_set M (fst (fst w)) (snd (fst w)) (snd w).

Definition overwrite (r c : nat) (acc : F) (w : nat * nat * F) : F :=
  if (fst (fst w) =? r)%nat && (snd (fst w) =? c)%nat then snd w else acc.

Definition hits (idx : list nat) (r c : nat) (pq : nat * nat) : bool :=
  (nth (fst pq) idx O =? r)%nat && (nth (snd pq) idx O =? c)%nat.

(** The entry of the block [k] that stays at position [(r, c)] of the
    global matrix when the block is written at the positions [idx]. *)
Definition block_delta (idx : list nat) (k : @mat F) (r c : nat) : option F :=
  fold_left (fun acc pq => if hits idx r c pq
                           then Some (mat_get k (fst pq) (snd pq)) else acc)
            block_positions None.

Definition plus_delta (a : F) (d : option F) : F :=
  match d with
  | Some x => a +. x
  | None => a
  end.

(** The loop of [__Truss_Global_Displacement], told by position: whether
    position [i] is restrained, how many free positions come before it, and
    the value the loop stores there. *)
Definition restrained (Support_Vector : list Z) (i : nat) : bool :=
  existsb (Z.eqb (Z.of_nat i)) (map (fun x => x - 1) Support_Vector).

Definition rank (Support_Vector : list Z) (i : nat) : nat :=
  length (free_positions Support_Vector i).

Definition expanded_entry (Support_Vector : list Z) (displacements : @vec F)
    (i : nat) : F :=
  if restrained Support_Vector i then s0
  else nth (rank Support_Vector i) displacements s0.

(** The body of that loop. *)
Definition expansion_step (Support_Vector : list Z) (displacements : @vec F)
    (st : @vec F * Z) (i_ : Z * F) : Result (@vec F * Z) :=
  let '(displacement_vector, j) := st in
  let i := fst i_ in
  if existsb (Z.eqb i) (map (fun x => x - 1) Support_Vector)
  then dv <- np_set displacement_vector i s0 ;; Ok (dv, j)
  else d <- py_index displacements j ;;
       dv <- np_set displacement_vector i d ;; Ok (dv, j + 1).

End Notions.

(** The identifiers of [d] are 1, 2, ... in the order of insertion. *)
Definition numbered_from_one {V : Type} (d : dict V) : Prop :=
  keys d = map (fun i => Z.of_nat i + 1) (seq 0 (length d)).

(** The vector [(cx, cy, cz, -cx, -cy, -cz)]. *)
Definition axis6 (cx cy cz : R) : @vec R :=
  [cx; cy; cz; (- cx)%R; (- cy)%R; (- cz)%R].

(** Two blocks of real numbers, and the bar along x and the bar to
    (3, 4, 0) with real coordinates. *)
Definition ones6 : @mat R := repeat (repeat 1%R 6) 6.
Definition twos6 : @mat R := repeat (repeat 2%R 6) 6.
Definition real_bar_nodes : dict (@point R) :=
  [(1, (0, 0, 0)%R); (2, (10, 0, 0)%R)].
Definition real_bar345_nodes : dict (@point R) :=
  [(1, (0, 0, 0)%R); (2, (3, 4, 0)%R)].

Ltac entrywise :=
  repeat match goal with
         | |- _ :: _ = _ :: _ => apply f_equal2
         | |- @nil _ = @nil _ => reflexivity
         | |- @eq R _ _ => ring
         end.

(** ** Notions of the further properties *)

Section Positions.
Context {F : Type} {SF : Scalar F}.

(** The rows and columns [pos] of [K], in that order. *)
Definition submatrix (K : @mat F) (pos : list nat) : @mat F :=
  map (fun r => map (fun c => mat_get K r c) pos) pos.

(** [v] with zero at the restrained positions. *)
Definition zero_restrained (Support_Vector : list Z) (v : @vec F) : @vec F :=
  map (fun i => if restrained Support_Vector i then s0 else nth i v s0)
      (seq 0 (length v)).

(** Position [p] of a vector with three entries per node belongs to the
    node [p / 3 + 1] and to the direction [p mod 3]. *)
Definition node_of (p : nat) : Z := Z.of_nat (p / 3) + 1.

Definition component (t : @point F) (c : nat) : F :=
  match t, c with
  | (x, _, _), O => x
  | (_, y, _), S O => y
  | (_, _, z), _ => z
  end.

(** The load the loop of [__Assemble_Force_Vector] leaves at position [p]
    of the full force vector. *)
Definition load_at (forces : dict (@point F)) (p : nat) : F :=
  match dict_find forces (node_of p) with
  | Some t => component t (p mod 3)
  | None => s0
  end.

(** The flag the first loop of [__Support_Vector] leaves at position [p]:
    the x slot takes flag [0], the y slot and the z slot take flag [1]. *)
Definition flag_at (restrained_dofs : dict (list F)) (p : nat) : F :=
  match dict_find restrained_dofs (node_of p) with
  | Some flags => nth (Nat.min (p mod 3) 1) flags s0
  | None => s0
  end.

(** Three consecutive stores at the slots of node [k]. *)
Definition store3 (f : @vec F) (k : Z) (a b c : F) : @vec F :=
  list_set (list_set (list_set f (Z.to_nat (k * 3 - 3)) a)
                     (Z.to_nat (k * 3 - 2)) b)
           (Z.to_nat (k * 3 - 1)) c.

(** The list [elem_displacements] of [__Element_Displacement] before it is
    rounded: the entries of the global vector at the DOFs of the two end
    nodes. *)
Definition elem_displacements (element_number : Z)
    (global_displacement : @vec F) (elements : dict (Z * Z)) : Result (@vec F) :=
  '(fromNode, toNode) <- dict_get elements element_number ;;
  let u := [3 * fromNode - 2; 3 * fromNode - 1; 3 * fromNode;
            3 * toNode - 2; 3 * toNode - 1; 3 * toNode] in
  mapM (fun u_node => py_index global_displacement (u_node - 1)) u.

(** Entry-wise symmetry, for a matrix read with [mat_get]. *)
Definition symmetric_entries (K : @mat F) : Prop :=
  forall r c, mat_get K r c = mat_get K c r.

End Positions.

(** The last element of [l] that satisfies [h]. *)
Fixpoint last_where (h : nat -> bool) (l : list nat) : option nat :=
  match l with
  | [] => None
  | x :: t =>
      match last_where h t with
      | Some y => Some y
      | None => if h x then Some x else None
      end
  end.

Section Ends.
Context {F : Type} {SF : Scalar F}.

(** The 6 by 6 block [k] with its two ends exchanged: rows and columns
    3, 4, 5 come first. *)
Definition swap_ends (k : @mat F) : @mat F :=
  map (fun p => map (fun q => mat_get k ((p + 3) mod 6) ((q + 3) mod 6)) (seq 0 6))
      (seq 0 6).

End Ends.

(** A global displacement vector for the bar to (3, 4, 0): the far end
    moves by 6e-06 along x and by -4.9e-06 along y (the two binary64
    numbers nearest to them). *)
Definition small_displacements : @vec float :=
  [0; 0; 0; 0x1.92a737110e454p-18; -0x1.48d55be787633p-18; 0]%float.

(* ================================================================== *)
(** * Properties *)

(** ** Results and loops *)

Lemma bind_Ok {A B : Type} (r : Result A) (f : A -> Result B) (b : B) :
  bind r f = Ok b -> exists a, r = Ok a /\ f a = Ok b.
Proof.
  destruct r as [a|e]; simpl; intros H; [exists a; auto | discriminate].
Qed.

Lemma mapM_length {A B : Type} (f : A -> Result B) (xs : list A) (ys : list B) :
  mapM f xs = Ok ys -> length ys = length xs.
Proof.
  revert ys; induction xs as [|x xs IH]; simpl; intros ys H.
  - injection H as <-; reflexivity.
  - apply bind_Ok in H as (y & _ & H).
    apply bind_Ok in H as (ys' & Hys & H).
    injection H as <-; simpl; f_equal; auto.
Qed.

Lemma mapM_Forall {A B : Type} (f : A -> Result B) (xs : list A) (ys : list B) :
  mapM f xs = Ok ys -> Forall (fun x => exists y, f x = Ok y) xs.
Proof.
  revert ys; induction xs as [|x xs IH]; simpl; intros ys H; constructor.
  - apply bind_Ok in H as (y & Hy & _); eauto.
  - apply bind_Ok in H as (y & _ & H).
    apply bind_Ok in H as (ys' & Hys & _); eauto.
Qed.

(** ** Indexing *)

Lemma norm_index_nat (n k : nat) : (k < n)%nat -> norm_index n (Z.of_nat k) = Ok k.
Proof.
  intros H; unfold norm_index.
  replace (0 <=? Z.of_nat k) with true by (symmetry; apply Z.leb_le; lia).
  replace (Z.of_nat k <? Z.of_nat n) with true by (symmetry; apply Z.ltb_lt; lia).
  simpl; rewrite Nat2Z.id; reflexivity.
Qed.

Lemma norm_index_Ok (n : nat) (i : Z) (k : nat) :
  norm_index n i = Ok k ->
  (k < n)%nat /\ - Z.of_nat n <= i < Z.of_nat n /\
  (Z.of_nat k = i \/ Z.of_nat k = i + Z.of_nat n).
Proof.
  unfold norm_index.
  destruct ((0 <=? i) && (i <? Z.of_nat n)) eqn:E1.
  - apply andb_true_iff in E1 as [H1 H2].
    apply Z.leb_le in H1; apply Z.ltb_lt in H2.
    intros H; injection H as <-; lia.
  - destruct ((- Z.of_nat n <=? i) && (i <? 0)) eqn:E2; [|discriminate].
    apply andb_true_iff in E2 as [H1 H2].
    apply Z.leb_le in H1; apply Z.ltb_lt in H2.
    intros H; injection H as <-; lia.
Qed.

Lemma py_index_nat {A : Type} (l : list A) (k : nat) (d : A) :
  (k < length l)%nat -> py_index l (Z.of_nat k) = Ok (nth k l d).
Proof.
  intros H; unfold py_index; rewrite norm_index_nat by assumption; simpl.
  rewrite (nth_error_nth' l d H); reflexivity.
Qed.

Lemma list_set_length {A : Type} (l : list A) (n : nat) (v : A) :
  length (list_set l n v) = length l.
Proof.
  revert n; induction l as [|a l IH]; intros [|n]; simpl; auto.
Qed.

Lemma nth_list_set_same {A : Type} (l : list A) (n : nat) (v d : A) :
  (n < length l)%nat -> nth n (list_set l n v) d = v.
Proof.
  revert n; induction l as [|a l IH]; intros [|n]; simpl; intros H; try lia; auto.
  apply IH; lia.
Qed.

Lemma nth_list_set_other {A : Type} (l : list A) (n m : nat) (v d : A) :
  n <> m -> nth m (list_set l n v) d = nth m l d.
Proof.
  revert n m; induction l as [|a l IH]; intros [|n] [|m]; simpl; intros H;
    try reflexivity; try congruence.
  apply IH; congruence.
Qed.

(** ** The expansion loop *)

Section ExpansionFacts.
Context {F : Type} {SF : Scalar F}.
Variable SV : list Z.
Variable u : @vec F.

Lemma free_positions_S (i : nat) :
  free_positions SV (S i)
  = free_positions SV i ++ (if restrained SV i then [] else [i]).
Proof.
  unfold free_positions; rewrite seq_S, filter_app; simpl.
  fold (restrained SV i); destruct (restrained SV i); reflexivity.
Qed.

Lemma rank_S (i : nat) :
  rank SV (S i) = if restrained SV i then rank SV i else S (rank SV i).
Proof.
  unfold rank; rewrite free_positions_S, length_app.
  destruct (restrained SV i); simpl; lia.
Qed.

Lemma rank_mono (i j : nat) : (i <= j)%nat -> (rank SV i <= rank SV j)%nat.
Proof.
  induction 1 as [|j _ IH]; [lia|].
  rewrite rank_S; destruct (restrained SV j); lia.
Qed.

Lemma expansion_step_at (a : nat) (z : F) (dv : @vec F) :
  (a < length dv)%nat -> (rank SV (S a) <= length u)%nat ->
  expansion_step SV u (dv, Z.of_nat (rank SV a)) (Z.of_nat a, z)
  = Ok (list_set dv a (expanded_entry SV u a), Z.of_nat (rank SV (S a))).
Proof.
  intros Ha Hu. unfold expansion_step, expanded_entry, np_set; cbn [fst].
  fold (restrained SV a). rewrite rank_S in Hu |- * .
  destruct (restrained SV a) eqn:Er.
  - rewrite norm_index_nat by assumption. reflexivity.
  - rewrite (py_index_nat u s0) by lia. simpl.
    rewrite norm_index_nat by assumption. simpl.
    do 2 f_equal. lia.
Qed.

Lemma expansion_loop (m : nat) :
  forall (a : nat) (zs : @vec F) (dv : @vec F),
    length zs = m -> (a + m <= length dv)%nat -> (rank SV (a + m) <= length u)%nat ->
    exists dv',
      foldM (expansion_step SV u) (combine (map Z.of_nat (seq a m)) zs)
            (dv, Z.of_nat (rank SV a))
      = Ok (dv', Z.of_nat (rank SV (a + m))) /\
      length dv' = length dv /\
      (forall i, (a <= i < a + m)%nat -> nth i dv' s0 = expanded_entry SV u i) /\
      (forall i, (i < a \/ a + m <= i)%nat -> nth i dv' s0 = nth i dv s0).
Proof.
  induction m as [|m IH]; intros a zs dv Hzs Hlen Hu.
  - destruct zs; [|discriminate]. simpl. exists dv.
    rewrite Nat.add_0_r. repeat split; auto. intros i Hi; lia.
  - destruct zs as [|z zs]; [discriminate|]. simpl in Hzs.
    cbn [seq map combine foldM].
    rewrite expansion_step_at; [|lia|].
    2:{ etransitivity; [apply rank_mono|exact Hu]; lia. }
    cbn [bind].
    destruct (IH (S a) zs (list_set dv a (expanded_entry SV u a)))
      as (dv' & Hfold & Hl & Hin & Hout).
    + lia.
    + rewrite list_set_length; lia.
    + replace (S a + m)%nat with (a + S m)%nat by lia; assumption.
    + exists dv'. replace (a + S m)%nat with (S a + m)%nat by lia.
      split; [exact Hfold|]. split; [rewrite Hl; apply list_set_length|]. split.
      * intros i Hi. destruct (Nat.eq_dec i a) as [->|Hne].
        -- rewrite Hout by lia. apply nth_list_set_same; lia.
        -- apply Hin; lia.
      * intros i Hi. rewrite Hout by lia. apply nth_list_set_other; lia.
Qed.

End ExpansionFacts.

Lemma nth_filter_seq_rank (f : nat -> bool) (n k : nat) :
  (k < length (filter f (seq 0 n)))%nat ->
  (nth k (filter f (seq 0 n)) O < n)%nat /\
  f (nth k (filter f (seq 0 n)) O) = true /\
  length (filter f (seq 0 (nth k (filter f (seq 0 n)) O))) = k.
Proof.
  induction n as [|n IH]; [simpl; intros; lia|].
  rewrite seq_S, filter_app, length_app. cbn [Nat.add filter]. intros Hk.
  destruct (Nat.lt_ge_cases k (length (filter f (seq 0 n)))) as [Hlt|Hge].
  - rewrite app_nth1 by assumption. destruct (IH Hlt) as (H1 & H2 & H3). auto.
  - rewrite app_nth2 by assumption.
    destruct (f n) eqn:Ef; simpl in Hk; [|lia].
    replace (k - length (filter f (seq 0 n)))%nat with O by lia. simpl.
    repeat split; auto; lia.
Qed.

(** ** Matrices and the writes of [ix_add] *)

Lemma mapM_norm_index_Ok (n : nat) (l : list Z) (idx : list nat) :
  mapM (norm_index n) l = Ok idx ->
  length idx = length l /\ Forall (fun k => (k < n)%nat) idx.
Proof.
  revert idx; induction l as [|i l IH]; simpl; intros idx H.
  - injection H as <-; auto.
  - apply bind_Ok in H as (k & Hk & H).
    apply bind_Ok in H as (ks & Hks & H).
    injection H as <-. destruct (IH _ Hks) as [Hl Hf].
    apply norm_index_Ok in Hk as (Hk & _).
    simpl; split; [f_equal; auto|constructor; auto].
Qed.

Lemma mapM_norm_index_Raise (n : nat) (l : list Z) (e : exn) :
  mapM (norm_index n) l = Raise e -> e = IndexError.
Proof.
  induction l as [|i l IH]; simpl; [discriminate|].
  unfold norm_index at 1.
  destruct ((0 <=? i) && (i <? Z.of_nat n)); simpl.
  - destruct (mapM (norm_index n) l); simpl; [discriminate|].
    intros H; injection H as <-; auto.
  - destruct ((- Z.of_nat n <=? i) && (i <? 0)); simpl.
    + destruct (mapM (norm_index n) l); simpl; [discriminate|].
      intros H; injection H as <-; auto.
    + intros H; injection H as <-; reflexivity.
Qed.

Lemma list_set_overflow {A : Type} (l : list A) (n : nat) (v : A) :
  (length l <= n)%nat -> list_set l n v = l.
Proof.
  revert n; induction l as [|a l IH]; intros [|n]; simpl; intros H; auto; try lia.
  f_equal; apply IH; lia.
Qed.

Section Matrices.
Context {F : Type} {SF : Scalar F}.

Lemma shape_ncols (n : nat) (K : @mat F) : shape n n K -> ncols K = n.
Proof.
  intros [Hl Hr]. unfold ncols. destruct K as [|row K]; simpl in *; [auto|].
  inversion Hr; auto.
Qed.

Lemma shape_zeros (n m : nat) : shape n m (@np_zeros2 F SF n m).
Proof.
  split; [apply repeat_length|].
  apply Forall_forall. intros row Hin. apply repeat_spec in Hin as ->.
  apply repeat_length.
Qed.

Lemma shape_nth (n m : nat) (K : @mat F) (r : nat) :
  shape n m K -> (r < n)%nat -> length (nth r K []) = m.
Proof.
  intros [Hl Hr] H. rewrite Forall_forall in Hr. apply Hr, nth_In; lia.
Qed.

Lemma mat_set_shape (n m : nat) (K : @mat F) (r c : nat) (v : F) :
  shape n m K -> shape n m (mat_set K r c v).
Proof.
  intros [Hl Hr]. unfold mat_set. split; [rewrite list_set_length; auto|].
  destruct (Nat.lt_ge_cases r (length K)) as [Hlt|Hge].
  - apply Forall_forall. intros row Hin.
    apply (In_nth _ _ []) in Hin as (p & Hp & <-).
    rewrite list_set_length in Hp.
    rewrite Forall_forall in Hr.
    destruct (Nat.eq_dec r p) as [->|Hne].
    + rewrite nth_list_set_same by assumption.
      rewrite list_set_length. apply Hr, nth_In; auto.
    + rewrite nth_list_set_other by assumption. apply Hr, nth_In; auto.
  - rewrite list_set_overflow by assumption. exact Hr.
Qed.

Lemma mat_get_set (K : @mat F) (r c r' c' : nat) (v : F) :
  (r < length K)%nat -> (c < length (nth r K []))%nat ->
  mat_get (mat_set K r c v) r' c'
  = if (r =? r')%nat && (c =? c')%nat then v else mat_get K r' c'.
Proof.
  intros Hr Hc. unfold mat_get, mat_set.
  destruct (Nat.eqb_spec r r') as [<-|Hne]; simpl.
  - rewrite nth_list_set_same by assumption.
    destruct (Nat.eqb_spec c c') as [<-|Hnc].
    + apply nth_list_set_same; assumption.
    + apply nth_list_set_other; assumption.
  - rewrite nth_list_set_other by assumption. reflexivity.
Qed.

Lemma writes_spec (n m : nat) (ws : list (nat * nat * F)) :
  forall K : @mat F,
    shape n m K ->
    Forall (fun w => (fst (fst w) < n)%nat /\ (snd (fst w) < m)%nat) ws ->
    shape n m (fold_left write ws K) /\
    forall r c, mat_get (fold_left write ws K) r c
                = fold_left (overwrite r c) ws (mat_get K r c).
Proof.
  induction ws as [|w ws IH]; intros K HK Hws; simpl; [auto|].
  inversion Hws as [|? ? [Hr Hc] Hws']; subst.
  destruct (IH (write K w)) as [Hs Hg]; auto.
  { apply mat_set_shape; assumption. }
  split; [exact Hs|]. intros r c. rewrite Hg. f_equal.
  unfold write, overwrite. apply mat_get_set.
  - destruct HK; lia.
  - rewrite (shape_nth HK) by assumption. assumption.
Qed.

Lemma mat_ext (n m : nat) (K K' : @mat F) :
  shape n m K -> shape n m K' ->
  (forall r c, (r < n)%nat -> (c < m)%nat -> mat_get K r c = mat_get K' r c) ->
  K = K'.
Proof.
  intros HK HK' H. apply (nth_ext _ _ [] []).
  - destruct HK, HK'; congruence.
  - intros r Hr. destruct HK as [Hl ?]. rewrite Hl in Hr.
    apply (nth_ext _ _ s0 s0).
    + rewrite (@shape_nth n m K), (@shape_nth n m K'); auto. split; auto.
    + intros c Hc. rewrite (@shape_nth n m K) in Hc; auto; [|split; auto].
      apply H; auto.
Qed.

End Matrices.

(** ** Assembly *)

Section Assembly.
Context {F : Type} {SF : Scalar F}.

Lemma fold_left_map_compose {A B C : Type} (f : A -> B -> A) (g : C -> B)
    (l : list C) (a : A) :
  fold_left f (map g l) a = fold_left (fun a x => f a (g x)) l a.
Proof. revert a; induction l; simpl; auto. Qed.

Lemma last_hit (idx : list nat) (K k : @mat F) (r c : nat) (l : list (nat * nat)) :
  forall (d : option F),
    fold_left (fun acc pq =>
                 overwrite r c acc
                   (nth (fst pq) idx O, nth (snd pq) idx O,
                    mat_get K (nth (fst pq) idx O) (nth (snd pq) idx O)
                    +. mat_get k (fst pq) (snd pq)))
              l (plus_delta (mat_get K r c) d)
    = plus_delta (mat_get K r c)
        (fold_left (fun acc pq => if hits idx r c pq
                                  then Some (mat_get k (fst pq) (snd pq)) else acc)
                   l d).
Proof.
  induction l as [|pq l IH]; intros d; simpl; [reflexivity|].
  rewrite <- IH. f_equal. unfold overwrite, hits; simpl.
  destruct (Nat.eqb_spec (nth (fst pq) idx O) r) as [->|]; simpl; [|reflexivity].
  destruct (Nat.eqb_spec (nth (snd pq) idx O) c) as [->|]; simpl; reflexivity.
Qed.

Lemma block_positions_lt (pq : nat * nat) :
  In pq block_positions -> (fst pq < 6)%nat /\ (snd pq < 6)%nat.
Proof.
  unfold block_positions. destruct pq as [p q]. rewrite in_prod_iff, !in_seq.
  simpl; lia.
Qed.

Lemma Assemble_Global_Stiffness_spec (n : nat) (K k : @mat F) (i j : Z) :
  shape n n K ->
  match mapM (norm_index n) (block_dofs i j) with
  | Raise _ => Assemble_Global_Stiffness K k i j = Raise IndexError
  | Ok idx =>
      exists K', Assemble_Global_Stiffness K k i j = Ok K' /\
                 shape n n K' /\
                 forall r c, mat_get K' r c
                             = plus_delta (mat_get K r c) (block_delta idx k r c)
  end.
Proof.
  intros HK. unfold Assemble_Global_Stiffness, ix_add. fold (block_dofs i j).
  rewrite (shape_ncols HK). destruct HK as [Hl Hrows]. rewrite Hl.
  destruct (mapM (norm_index n) (block_dofs i j)) as [idx|e] eqn:Hidx.
  - cbn [bind].
    apply mapM_norm_index_Ok in Hidx as [Hlen Hlt]. simpl in Hlen.
    eexists; split; [reflexivity|].
    destruct (@writes_spec F SF n n
                (map (fun pq => (nth (fst pq) idx O, nth (snd pq) idx O,
                                 mat_get K (nth (fst pq) idx O) (nth (snd pq) idx O)
                                 +. mat_get k (fst pq) (snd pq))) block_positions) K)
      as [Hs Hg].
    + split; assumption.
    + apply Forall_forall. intros w Hw. apply in_map_iff in Hw as (pq & <- & Hpq).
      apply block_positions_lt in Hpq as [Hp Hq]. rewrite Forall_forall in Hlt.
      simpl; split; apply Hlt, nth_In; lia.
    + split; [exact Hs|]. intros r c.
      unfold write in Hg. rewrite Hg, fold_left_map_compose.
      apply (last_hit idx K k r c block_positions None).
  - cbn [bind]. f_equal. eapply mapM_norm_index_Raise; eauto.
Qed.

Hypothesis sadd_swap : forall a x y : F, (a +. x) +. y = (a +. y) +. x.

Lemma plus_delta_swap (a : F) (d e : option F) :
  plus_delta (plus_delta a d) e = plus_delta (plus_delta a e) d.
Proof. destruct d, e; simpl; auto. Qed.

Lemma assemble_swap (n : nat) (K : @mat F) (x y : @mat F * (Z * Z))
    (rest : @mat F -> Result (@mat F)) :
  shape n n K ->
  (K1 <- Assemble_Global_Stiffness K (fst x) (fst (snd x)) (snd (snd x)) ;;
   K2 <- Assemble_Global_Stiffness K1 (fst y) (fst (snd y)) (snd (snd y)) ;;
   rest K2)
  = (K1 <- Assemble_Global_Stiffness K (fst y) (fst (snd y)) (snd (snd y)) ;;
     K2 <- Assemble_Global_Stiffness K1 (fst x) (fst (snd x)) (snd (snd x)) ;;
     rest K2).
Proof.
  intros HK.
  destruct x as (kx & ix & jx), y as (ky & iy & jy); cbn [fst snd].
  pose proof (Assemble_Global_Stiffness_spec kx ix jx HK) as Hx.
  pose proof (Assemble_Global_Stiffness_spec ky iy jy HK) as Hy.
  destruct (mapM (norm_index n) (block_dofs ix jx)) as [idx|ex] eqn:Ex;
    destruct (mapM (norm_index n) (block_dofs iy jy)) as [idy|ey] eqn:Ey.
  - destruct Hx as (Kx & -> & HKx & Hgx), Hy as (Ky & -> & HKy & Hgy). cbn [bind].
    pose proof (Assemble_Global_Stiffness_spec ky iy jy HKx) as Hxy.
    pose proof (Assemble_Global_Stiffness_spec kx ix jx HKy) as Hyx.
    rewrite Ey in Hxy. rewrite Ex in Hyx.
    destruct Hxy as (Kxy & -> & HKxy & Hgxy), Hyx as (Kyx & -> & HKyx & Hgyx).
    cbn [bind]. f_equal. apply (mat_ext HKxy HKyx). intros r c _ _.
    rewrite Hgxy, Hgyx, Hgx, Hgy. apply plus_delta_swap.
  - destruct Hx as (Kx & -> & HKx & _). rewrite Hy. cbn [bind].
    pose proof (Assemble_Global_Stiffness_spec ky iy jy HKx) as Hxy.
    rewrite Ey in Hxy. rewrite Hxy. reflexivity.
  - destruct Hy as (Ky & -> & HKy & _). rewrite Hx. cbn [bind].
    pose proof (Assemble_Global_Stiffness_spec kx ix jx HKy) as Hyx.
    rewrite Ex in Hyx. rewrite Hyx. reflexivity.
  - rewrite Hx, Hy. reflexivity.
Qed.

Lemma assemble_in_order_permutation (n : nat)
    (blocks blocks' : list (@mat F * (Z * Z))) :
  Permutation blocks blocks' ->
  forall K, shape n n K -> assemble_in_order blocks K = assemble_in_order blocks' K.
Proof.
  induction 1 as [|x l l' _ IH|x y l|l l' l'' _ IH1 _ IH2]; intros K HK.
  - reflexivity.
  - unfold assemble_in_order; cbn [foldM].
    pose proof (Assemble_Global_Stiffness_spec (fst x) (fst (snd x)) (snd (snd x)) HK) as Hx.
    destruct (mapM (norm_index n) (block_dofs (fst (snd x)) (snd (snd x)))).
    + destruct Hx as (K1 & -> & HK1 & _). cbn [bind]. apply IH, HK1.
    + rewrite Hx. reflexivity.
  - unfold assemble_in_order; cbn [foldM].
    apply (assemble_swap y x (fun K2 => foldM _ l K2) HK).
  - rewrite IH1, IH2; auto.
Qed.

End Assembly.

Lemma foldM_map {A B C : Type} (f : B -> A -> Result B) (g : C -> A)
    (l : list C) (b : B) :
  foldM f (map g l) b = foldM (fun b x => f b (g x)) l b.
Proof.
  revert b; induction l as [|x l IH]; simpl; intros b; [reflexivity|].
  destruct (f b (g x)); simpl; auto.
Qed.

Lemma foldM_ext_in {A B : Type} (f g : B -> A -> Result B) (l : list A) (b : B) :
  (forall x, In x l -> forall b, f b x = g b x) -> foldM f l b = foldM g l b.
Proof.
  revert b; induction l as [|x l IH]; simpl; intros b H; [reflexivity|].
  rewrite (H x) by auto. destruct (g b x); simpl; auto.
Qed.

Lemma combine_nth_seq {A B : Type} (l : list A) (l' : list B) (a : A) (b : B) :
  length l = length l' ->
  combine l l' = map (fun i => (nth i l a, nth i l' b)) (seq 0 (length l)).
Proof.
  revert l'; induction l as [|x l IH]; intros [|y l']; simpl; intros H;
    try discriminate; [reflexivity|].
  f_equal. rewrite <- seq_shift, map_map. apply IH. lia.
Qed.

Lemma dict_find_numbered {V : Type} (d : dict V) (a : nat) :
  keys d = map (fun i => Z.of_nat i + 1) (seq a (length d)) ->
  forall i, (i < length d)%nat ->
            dict_find d (Z.of_nat (a + i) + 1) = nth_error (map snd d) i.
Proof.
  revert a; induction d as [|[k v] d IH]; simpl; intros a Hk i Hi; [lia|].
  injection Hk as -> Hk.
  destruct i as [|i]; simpl.
  - rewrite Nat.add_0_r, Z.eqb_refl. reflexivity.
  - destruct (Z.eqb_spec (Z.of_nat a + 1) (Z.of_nat (a + S i) + 1)); [lia|].
    replace (a + S i)%nat with (S a + i)%nat by lia.
    apply IH; [assumption|lia].
Qed.

Lemma assemble_all_in_order {F : Type} {SF : Scalar F}
    (elements : dict (Z * Z)) (k_elems : list (@mat F)) (K : @mat F) :
  numbered_from_one elements ->
  length k_elems = length elements ->
  assemble_all elements k_elems K
  = assemble_in_order (combine k_elems (map snd elements)) K.
Proof.
  intros Hnum Hlen. unfold assemble_all, assemble_in_order, enumerate.
  rewrite (combine_nth_seq (map Z.of_nat (seq 0 (length k_elems))) k_elems
             (Z.of_nat 0) [])
    by (rewrite length_map, length_seq; reflexivity).
  rewrite (combine_nth_seq k_elems (map snd elements) [] (0, 0))
    by (rewrite length_map; assumption).
  rewrite length_map, length_seq, !foldM_map.
  apply foldM_ext_in. intros i Hi M. apply in_seq in Hi. cbn [fst snd].
  rewrite (map_nth Z.of_nat (seq 0 (length k_elems)) O i).
  rewrite seq_nth by lia. cbn [Nat.add].
  rewrite (py_index_nat k_elems [] ) by lia. cbn [bind].
  unfold dict_get.
  pose proof (@dict_find_numbered _ elements O Hnum i ltac:(lia)) as Hfind.
  cbn [Nat.add] in Hfind. rewrite Hfind.
  rewrite (nth_error_nth' (map snd elements) (0, 0)) by (rewrite length_map; lia).
  cbn [bind]. destruct (nth i (map snd elements) (0, 0)); reflexivity.
Qed.

(** ** Identifiers *)

Lemma foldM_invariant {A B : Type} (f : B -> A -> Result B)
    (P : B -> Prop) (Q : A -> Prop) :
  (forall b a b', P b -> f b a = Ok b' -> P b' /\ Q a) ->
  forall xs b b', P b -> foldM f xs b = Ok b' -> P b' /\ Forall Q xs.
Proof.
  intros Hstep; induction xs as [|x xs IH]; simpl; intros b b' Hb H.
  - injection H as <-; auto.
  - apply bind_Ok in H as (b1 & H1 & H).
    destruct (Hstep _ _ _ Hb H1) as [Hb1 Hx].
    destruct (IH _ _ Hb1 H) as [Hb' Hxs]. auto.
Qed.

Lemma dict_find_In {V : Type} (d : dict V) (k : Z) (v : V) :
  dict_find d k = Some v -> In k (keys d).
Proof.
  induction d as [|[k' v'] d IH]; simpl; [discriminate|].
  destruct (Z.eqb_spec k' k); auto.
Qed.

Lemma dict_get_In {V : Type} (d : dict V) (k : Z) (v : V) :
  dict_get d k = Ok v -> In k (keys d).
Proof.
  unfold dict_get. destruct (dict_find d k) eqn:E; [|discriminate].
  intros _. eapply dict_find_In; eauto.
Qed.

Lemma combine_fst {A B : Type} (l : list A) (l' : list B) :
  length l = length l' -> map fst (combine l l') = l.
Proof.
  revert l'; induction l as [|a l IH]; intros [|b l']; simpl; intros H;
    try discriminate; auto.
  f_equal; auto.
Qed.

Lemma enumerate_fst {A : Type} (xs : list A) :
  map fst (enumerate xs) = map Z.of_nat (seq 0 (length xs)).
Proof.
  unfold enumerate. apply combine_fst.
  rewrite length_map, length_seq; reflexivity.
Qed.

Lemma np_set_length {A : Type} (l l' : list A) (i : Z) (v : A) :
  np_set l i v = Ok l' ->
  length l' = length l /\ - Z.of_nat (length l) <= i < Z.of_nat (length l).
Proof.
  unfold np_set. intros H. apply bind_Ok in H as (k & Hk & H).
  injection H as <-. rewrite list_set_length. split; [reflexivity|].
  apply norm_index_Ok in Hk. tauto.
Qed.

Section Identifiers.
Context {F : Type} {SF : Scalar F}.

Lemma block_dofs_valid (n : nat) (i j : Z) (idx : list nat) :
  mapM (norm_index (3 * n)) (block_dofs i j) = Ok idx ->
  1 - Z.of_nat n <= i <= Z.of_nat n /\ 1 - Z.of_nat n <= j <= Z.of_nat n.
Proof.
  intros H. apply mapM_Forall in H. rewrite Forall_forall in H.
  assert (Hv : forall d, In d (block_dofs i j) ->
                         - Z.of_nat (3 * n) <= d < Z.of_nat (3 * n)).
  { intros d Hd. destruct (H d Hd) as (k & Hk). apply norm_index_Ok in Hk. tauto. }
  pose proof (Hv (3*i-3) ltac:(simpl; tauto)).
  pose proof (Hv (3*i-1) ltac:(simpl; tauto)).
  pose proof (Hv (3*j-3) ltac:(simpl; tauto)).
  pose proof (Hv (3*j-1) ltac:(simpl; tauto)).
  lia.
Qed.

Lemma assemble_all_Ok (n : nat) (elements : dict (Z * Z))
    (k_elems : list (@mat F)) (K K' : @mat F) :
  shape (3 * n) (3 * n) K ->
  assemble_all elements k_elems K = Ok K' ->
  forall i, 0 <= i < Z.of_nat (length k_elems) ->
            exists a b, dict_get elements (i + 1) = Ok (a, b) /\
                        1 - Z.of_nat n <= a <= Z.of_nat n /\
                        1 - Z.of_nat n <= b <= Z.of_nat n.
Proof.
  intros HK H. unfold assemble_all in H.
  apply (@foldM_invariant _ _ _
           (shape (3 * n) (3 * n))
           (fun i_ : Z * @mat F =>
                   exists a b, dict_get elements (fst i_ + 1) = Ok (a, b) /\
                               1 - Z.of_nat n <= a <= Z.of_nat n /\
                               1 - Z.of_nat n <= b <= Z.of_nat n)) in H; auto.
  - destruct H as [_ HQ]. intros i Hi.
    rewrite Forall_forall in HQ.
    assert (Hin : In i (map fst (enumerate k_elems))).
    { rewrite enumerate_fst. apply in_map_iff. exists (Z.to_nat i).
      split; [lia|]. apply in_seq. lia. }
    apply in_map_iff in Hin as (i_ & <- & Hin). apply HQ, Hin.
  - clear. intros M i_ M' HM Hstep.
    apply bind_Ok in Hstep as (k & _ & Hstep).
    apply bind_Ok in Hstep as ([a b] & Ha & Hstep).
    apply bind_Ok in Hstep as ([a' b'] & Hb & Hstep).
    rewrite Ha in Hb. injection Hb as <- <-.
    pose proof (Assemble_Global_Stiffness_spec k a b HM) as Hspec.
    destruct (mapM (norm_index (3 * n)) (block_dofs a b)) as [idx|e] eqn:Hidx.
    + destruct Hspec as (M1 & HM1 & Hs & _).
      rewrite HM1 in Hstep. injection Hstep as <-.
      split; [exact Hs|]. exists a, b. split; [exact Ha|].
      eapply block_dofs_valid; eauto.
    + rewrite Hspec in Hstep. discriminate.
Qed.

Lemma keys_are_one_to_n {V : Type} (d : dict V) :
  (forall i, 0 <= i < Z.of_nat (length d) -> In (i + 1) (keys d)) ->
  forall k, In k (keys d) <-> 1 <= k <= Z.of_nat (length d).
Proof.
  intros H k. split.
  - intros Hk.
    assert (Hincl : incl (keys d) (map (fun i => Z.of_nat i + 1) (seq 0 (length d)))).
    { apply NoDup_length_incl.
      - apply Injective_map_NoDup; [|apply seq_NoDup].
        intros x y Hxy; lia.
      - unfold keys. rewrite !length_map, length_seq. lia.
      - intros x Hx. apply in_map_iff in Hx as (i & <- & Hi). apply in_seq in Hi.
        apply H. lia. }
    apply Hincl in Hk. apply in_map_iff in Hk as (i & <- & Hi). apply in_seq in Hi. lia.
  - intros Hk. replace k with ((k - 1) + 1) by lia. apply H. lia.
Qed.

Lemma Support_Vector_Ok (restrained_dofs : dict (list F)) (nodes : dict (@point F))
    (sv : list Z) :
  Support_Vector restrained_dofs nodes = Ok sv ->
  forall k, In k (keys restrained_dofs) ->
            1 - Z.of_nat (length nodes) <= k <= Z.of_nat (length nodes).
Proof.
  intros H. unfold Support_Vector in H. apply bind_Ok in H as (dofs & H & _).
  apply (@foldM_invariant _ _ _
           (fun dofs : @vec F => length dofs = (3 * length nodes)%nat)
           (fun k => 1 - Z.of_nat (length nodes) <= k
                          <= Z.of_nat (length nodes))) in H.
  - destruct H as [_ HQ]. rewrite Forall_forall in HQ. exact HQ.
  - clear. intros dofs dof dofs' Hlen Hstep.
    apply bind_Ok in Hstep as (flags & _ & Hstep).
    apply bind_Ok in Hstep as (f0 & _ & Hstep).
    apply bind_Ok in Hstep as (d1 & H1 & Hstep).
    apply bind_Ok in Hstep as (f1 & _ & Hstep).
    apply bind_Ok in Hstep as (d2 & H2 & Hstep).
    apply bind_Ok in Hstep as (f1' & _ & H3).
    apply np_set_length in H1 as [L1 R1], H2 as [L2 R2], H3 as [L3 R3].
    split; [congruence|]. rewrite L2, L1, Hlen in R3. rewrite Hlen in R1. lia.
  - apply repeat_length.
Qed.

Lemma Assemble_Force_Vector_Ok (forces : dict (@point F)) (restrained : list Z)
    (nodes : dict (@point F)) (f : @vec F) :
  Assemble_Force_Vector forces restrained nodes = Ok f ->
  forall k, In k (keys forces) ->
            1 - Z.of_nat (length nodes) <= k <= Z.of_nat (length nodes).
Proof.
  intros H. unfold Assemble_Force_Vector in H. apply bind_Ok in H as (f0 & H & _).
  apply (@foldM_invariant _ _ _
           (fun f : @vec F => length f = (3 * length nodes)%nat)
           (fun k => 1 - Z.of_nat (length nodes) <= k
                          <= Z.of_nat (length nodes))) in H.
  - destruct H as [_ HQ]. rewrite Forall_forall in HQ. exact HQ.
  - clear. intros f force f' Hlen Hstep.
    apply bind_Ok in Hstep as ([[fx fy] fz] & _ & Hstep).
    apply bind_Ok in Hstep as (d1 & H1 & Hstep).
    apply bind_Ok in Hstep as (d2 & H2 & H3).
    apply np_set_length in H1 as [L1 R1], H2 as [L2 R2], H3 as [L3 R3].
    split; [congruence|]. rewrite L2, L1, Hlen in R3. rewrite Hlen in R1. lia.
  - apply repeat_length.
Qed.

End Identifiers.

(** Negative indexing: a node identifier from 1-N to 0 names the rows and
    columns of the node N places further. *)

Lemma norm_index_wrap (n : nat) (i : Z) :
  - Z.of_nat n <= i < 0 -> norm_index n i = norm_index n (i + Z.of_nat n).
Proof.
  intros H. unfold norm_index.
  replace (0 <=? i) with false by (symmetry; apply Z.leb_gt; lia).
  replace (- Z.of_nat n <=? i) with true by (symmetry; apply Z.leb_le; lia).
  replace (i <? 0) with true by (symmetry; apply Z.ltb_lt; lia).
  replace (0 <=? i + Z.of_nat n) with true by (symmetry; apply Z.leb_le; lia).
  replace (i + Z.of_nat n <? Z.of_nat n) with true by (symmetry; apply Z.ltb_lt; lia).
  reflexivity.
Qed.

Lemma Assemble_Global_Stiffness_wrap {F : Type} {SF : Scalar F}
    (N : nat) (K k : @mat F) (i j : Z) :
  shape (3 * N) (3 * N) K ->
  (1 - Z.of_nat N <= i <= 0 ->
   Assemble_Global_Stiffness K k i j
   = Assemble_Global_Stiffness K k (i + Z.of_nat N) j) /\
  (1 - Z.of_nat N <= j <= 0 ->
   Assemble_Global_Stiffness K k i j
   = Assemble_Global_Stiffness K k i (j + Z.of_nat N)).
Proof.
  intros HK. unfold Assemble_Global_Stiffness, ix_add.
  rewrite (shape_ncols HK). destruct HK as [Hl _]. rewrite Hl.
  assert (Hw : forall a c, 1 - Z.of_nat N <= a <= 0 -> 1 <= c <= 3 ->
             norm_index (3 * N) (3 * a - c)
             = norm_index (3 * N) (3 * (a + Z.of_nat N) - c)).
  { intros a c Ha Hc. rewrite norm_index_wrap by lia. f_equal. lia. }
  split; intros H; cbn [mapM].
  - rewrite (Hw i 3), (Hw i 2), (Hw i 1) by lia. reflexivity.
  - rewrite (Hw j 3), (Hw j 2), (Hw j 1) by lia. reflexivity.
Qed.

(** ** The mappings of member forces and stresses *)

Lemma mapM_nth {A B : Type} (f : A -> Result B) (xs : list A) (ys : list B)
    (a : A) (b : B) :
  mapM f xs = Ok ys ->
  forall p, (p < length xs)%nat -> f (nth p xs a) = Ok (nth p ys b).
Proof.
  revert ys; induction xs as [|x xs IH]; simpl; intros ys H p Hp; [lia|].
  apply bind_Ok in H as (y & Hy & H).
  apply bind_Ok in H as (ys' & Hys & H).
  injection H as <-. destruct p as [|p]; simpl; [assumption|].
  apply IH; [assumption|lia].
Qed.

Lemma nth_map_lt {A B : Type} (f : A -> B) (l : list A) (b : B) (a : A) (p : nat) :
  (p < length l)%nat -> nth p (map f l) b = f (nth p l a).
Proof.
  revert p; induction l as [|x l IH]; simpl; intros [|p] Hp; try lia; auto.
  apply IH; lia.
Qed.

Lemma numbered_nth {V : Type} (d : dict V) (p : nat) :
  numbered_from_one d -> (p < length d)%nat -> nth p (keys d) 0 = Z.of_nat p + 1.
Proof.
  intros H Hp. rewrite H.
  rewrite (nth_map_lt _ _ 0 O) by (rewrite length_seq; assumption).
  rewrite seq_nth by assumption. reflexivity.
Qed.

Section MemberMapping.
Context {F : Type} {SF : Scalar F}.

Lemma second_of_each_get (elements : dict (Z * Z)) (per_element : list (@vec F))
    (mapping : dict F) :
  numbered_from_one elements ->
  length per_element = length elements ->
  second_of_each elements per_element = Ok mapping ->
  forall p, (p < length elements)%nat ->
            dict_get mapping (Z.of_nat p + 1)
            = py_index (nth p per_element []) 1.
Proof.
  intros Hnum Hlen H p Hp. unfold second_of_each in H.
  assert (Hl : length mapping = length elements).
  { apply mapM_length in H. unfold keys in H. rewrite length_map in H. exact H. }
  assert (Hkeys : keys mapping = keys elements).
  { apply (nth_ext _ _ 0 0).
    - unfold keys. rewrite !length_map. exact Hl.
    - intros q Hq. unfold keys in Hq. rewrite length_map, Hl in Hq.
      pose proof (@mapM_nth _ _ _ _ _ 0 (0, s0) H q) as Hn.
      unfold keys in Hn at 1. rewrite length_map in Hn. specialize (Hn Hq).
      apply bind_Ok in Hn as (pair_ & _ & Hn).
      apply bind_Ok in Hn as (x & _ & Hn).
      injection Hn as Hn.
      unfold keys.
      rewrite (nth_map_lt fst mapping 0 (0, s0)) by lia.
      rewrite (nth_map_lt fst elements 0 (0, (0, 0)))  by lia.
      rewrite <- Hn. cbn [fst]. unfold keys.
      apply (nth_map_lt fst elements 0 (0, (0, 0))). lia. }
  pose proof (@mapM_nth _ _ _ _ _ 0 (0, s0) H p) as Hn.
  unfold keys in Hn at 1. rewrite length_map in Hn. specialize (Hn Hp).
  rewrite (numbered_nth Hnum Hp) in Hn.
  replace (Z.of_nat p + 1 - 1) with (Z.of_nat p) in Hn by lia.
  rewrite (py_index_nat per_element []) in Hn by lia. cbn [bind] in Hn.
  assert (Hfind : dict_find mapping (Z.of_nat p + 1) = nth_error (map snd mapping) p).
  { apply (@dict_find_numbered _ mapping O); [|lia].
    rewrite Hkeys, Hl. exact Hnum. }
  unfold dict_get. rewrite Hfind.
  rewrite (nth_error_nth' (map snd mapping) s0) by (rewrite length_map; lia).
  rewrite (nth_map_lt snd mapping s0 (0, s0)) by lia.
  destruct (py_index (nth p per_element []) 1) as [x|e]; cbn [bind] in Hn.
  - injection Hn as Hn. rewrite <- Hn. reflexivity.
  - discriminate.
Qed.

End MemberMapping.

Lemma Solve_steps_member_mapping {F : Type} {SF : Scalar F}
    (self : @Truss_3D F) (s : @solution F) :
  numbered_from_one (elements self) ->
  Solve_steps self = Ok s ->
  exists element_displacements : list (@vec F),
    forall e, In e (keys (elements self)) ->
      exists fpair spair,
        py_index element_displacements (e - 1)
        = Element_Displacement e (sol_displacements s) (elements self) /\
        Solve_Member_Force e element_displacements (cross_area self)
                           (elasticity self) (nodes self) (elements self)
        = Ok fpair /\
        Solve_Member_Stress e element_displacements (elasticity self)
                            (nodes self) (elements self)
        = Ok spair /\
        dict_get (sol_member_forces s) e = py_index fpair 1 /\
        dict_get (sol_member_stresses s) e = py_index spair 1.
Proof.
  intros Hnum H. unfold Solve_steps in H.
  apply bind_Ok in H as (member_lengths & _ & H).
  apply bind_Ok in H as (k_elems & _ & H).
  apply bind_Ok in H as (K_global & _ & H).
  apply bind_Ok in H as (sv & _ & H).
  apply bind_Ok in H as (K_new & _ & H).
  apply bind_Ok in H as (f_new & _ & H).
  apply bind_Ok in H as (K_inv & _ & H).
  apply bind_Ok in H as (gd & _ & H).
  apply bind_Ok in H as (eds & Heds & H).
  apply bind_Ok in H as (mfs & Hmfs & H).
  apply bind_Ok in H as (mf_map & Hmf & H).
  apply bind_Ok in H as (mss & Hmss & H).
  apply bind_Ok in H as (ms_map & Hms & H).
  injection H as <-. cbn [sol_displacements sol_member_forces sol_member_stresses].
  assert (Hlk : length (keys (elements self)) = length (elements self))
    by (unfold keys; apply length_map).
  pose proof (mapM_length _ _ Heds) as Leds.
  pose proof (mapM_length _ _ Hmfs) as Lmfs.
  pose proof (mapM_length _ _ Hmss) as Lmss.
  rewrite Hlk in Leds, Lmfs, Lmss.
  exists eds. intros e He.
  assert (Hp : exists p, (p < length (elements self))%nat /\ e = Z.of_nat p + 1).
  { rewrite Hnum in He. apply in_map_iff in He as (p & <- & Hp).
    apply in_seq in Hp. exists p. split; [lia|reflexivity]. }
  destruct Hp as (p & Hp & ->).
  pose proof (@mapM_nth _ _ _ _ _ 0 [] Heds p ltac:(lia)) as E1.
  pose proof (@mapM_nth _ _ _ _ _ 0 [] Hmfs p ltac:(lia)) as E2.
  pose proof (@mapM_nth _ _ _ _ _ 0 [] Hmss p ltac:(lia)) as E3.
  rewrite (numbered_nth Hnum Hp) in E1, E2, E3.
  exists (nth p mfs []), (nth p mss []).
  replace (Z.of_nat p + 1 - 1) with (Z.of_nat p) by lia.
  rewrite (py_index_nat eds []) by lia.
  split; [symmetry; exact E1|]. split; [exact E2|]. split; [exact E3|].
  split; eapply second_of_each_get; eauto.
Qed.

(** ** binary64 *)

Lemma float_sub_diag (x : float) :
  PrimFloat.is_finite x = true -> PrimFloat.sub x x = PrimFloat.zero.
Proof.
  intros Hfin.
  rewrite <- (SF2Prim_Prim2SF (PrimFloat.sub x x)), FloatAxioms.sub_spec.
  destruct (Prim2SF x) as [s|s| |s m e] eqn:Ex.
  - destruct s; reflexivity.
  - rewrite <- (SF2Prim_Prim2SF x), Ex in Hfin. destruct s; vm_compute in Hfin; discriminate.
  - rewrite <- (SF2Prim_Prim2SF x), Ex in Hfin. vm_compute in Hfin; discriminate.
  - unfold SF64sub, SFsub.
    rewrite Z.sub_diag. reflexivity.
Qed.

(** ** The float64 runs *)

Section Float64Runs.
Import Examples.
Local Open Scope float_scope.

(** C1 (the code departs from it): [__Support_Vector] never reads the third
    flag of a support entry; the z DOF of a node follows the second flag.
    The third flag can be changed at will without changing the result; with
    flags [1, 0, 1] at the only node DOF 3 is left out, with flags [0, 1, 0]
    it is put in. *)
Theorem Support_Vector_third_flag_unread :
  (forall (i : Z) (fx fy fz fz' : float) (nodes : dict point),
    Support_Vector [(i, [fx; fy; fz])] nodes
    = Support_Vector [(i, [fx; fy; fz'])] nodes) /\
  Support_Vector [(1%Z, [1; 0; 1])] [(1%Z, (0, 0, 0))] = Ok [1%Z] /\
  Support_Vector [(1%Z, [0; 1; 0])] [(1%Z, (0, 0, 0))] = Ok [2%Z; 3%Z].
Proof.
  split; [|split; vm_compute; reflexivity].
  intros i fx fy fz fz' nodes.
  unfold Support_Vector, keys, dict_get; simpl.
  rewrite Z.eqb_refl; reflexivity.
Qed.

(** C2, as the spec states it, fails: with node 2 free in x, y and z the
    reduced stiffness matrix is singular, the inversion raises and [Solve]
    leaves the instance as it was. *)
Lemma bar_free_is_singular : Solve bar_free = (bar_free, Some LinAlgError).
Proof. vm_compute; reflexivity. Qed.

(** C2, amended: the bar of the scenario is a mechanism and [Solve] raises
    at the inversion; with node 2 also held in y and z, [Solve] assigns the
    x-displacement -2.5 at node 2, the reactions (50, 0, 0) at node 1, and
    the member force -50, the second entry of the local force pair
    (50, -50). *)
Theorem bar_guided_solution :
  Solve bar_free = (bar_free, Some LinAlgError) /\
  displacements_ (fst (Solve bar_guided)) = [0; 0; 0; -2.5; 0; 0] /\
  reactions_ (fst (Solve bar_guided)) = [50; 0; 0; -50; 0; 0] /\
  member_forces_ (fst (Solve bar_guided)) = [(1%Z, -50)] /\
  Solve_Member_Force 1 [[0; 0; 0; -2.5; 0; 0]] bar_A bar_E bar_nodes bar_elements
  = Ok [50; -50].
Proof. repeat split; vm_compute; reflexivity. Qed.

(** C3, as the spec states it, fails: the guided bar is pushed together (its
    far end moves by -2.5 along the axis, its near end stays), and the
    member force and the member stress [Solve] assigns are negative. *)
Lemma compressed_bar_has_negative_force :
  Direction_Cosines 1 bar_nodes bar_elements = Ok (1, 0, 0, 10) /\
  displacements_ (fst (Solve bar_guided)) = [0; 0; 0; -2.5; 0; 0] /\
  elongation 1 0 0 [0; 0; 0; -2.5; 0; 0] = -2.5 /\
  member_forces_ (fst (Solve bar_guided)) = [(1%Z, -50)] /\
  member_stresses_ (fst (Solve bar_guided)) = [(1%Z, -50)] /\
  PrimFloat.ltb (-50) 0 = true.
Proof. repeat split; vm_compute; reflexivity. Qed.

(** C5 (the code departs from it): an error raised in steps 1 to 11 leaves
    the instance as it was; but on the guided bar, whose steps all succeed,
    [Solve] raises [TypeError], and by then it has assigned the
    displacements, the reactions, the member forces, the member stresses
    and the global stiffness matrix. *)
Theorem Solve_raises_after_assigning :
  (forall (F : Type) (SF : Scalar F) (self : @Truss_3D F) (e : exn),
      Solve_steps self = Raise e -> Solve self = (self, Some e)) /\
  (exists s, Solve_steps bar_guided = Ok s) /\
  snd (Solve bar_guided) = Some TypeError /\
  displacements_ bar_guided = [] /\
  displacements_ (fst (Solve bar_guided)) = [0; 0; 0; -2.5; 0; 0] /\
  reactions_ (fst (Solve bar_guided)) = [50; 0; 0; -50; 0; 0] /\
  member_forces_ (fst (Solve bar_guided)) = [(1%Z, -50)] /\
  member_stresses_ (fst (Solve bar_guided)) = [(1%Z, -50)] /\
  K_global_ (fst (Solve bar_guided)) = stiffness_along_x 20 /\
  member_lengths_ (fst (Solve bar_guided)) = None.
Proof.
  split; [intros F SF self e H; unfold Solve; rewrite H; reflexivity|].
  split; [eexists; vm_compute; reflexivity|].
  repeat split; vm_compute; reflexivity.
Qed.

(** C6, as the spec states it, fails: for a bar whose end nodes coincide the
    kinematics returns a zero length and NaN direction cosines, the element
    stiffness is a matrix of NaN, and [Solve] goes on to assign NaN
    displacements before it raises [TypeError] at its last loop. *)
Lemma degenerate_bar_is_not_rejected :
  Direction_Cosines 1 (nodes bar_degenerate) bar_elements = Ok (nan, nan, nan, 0) /\
  Assemble_Stiffness_Matrix 1 bar_E bar_A (nodes bar_degenerate) bar_elements
  = Ok (repeat (repeat nan 6) 6) /\
  snd (Solve bar_degenerate) = Some TypeError /\
  displacements_ (fst (Solve bar_degenerate)) = [0; 0; 0; nan; nan; nan].
Proof. repeat split; vm_compute; reflexivity. Qed.

(** C9, as the spec states it, fails in binary64: for the bar from the
    origin to (3, 4, 0) with [E = 200] and [A = 1] the entries (0, 1) and
    (1, 0) of the element stiffness differ in the last bit.  (Each entry is
    one product of three factors, [(cx.k).cy] or [(cy.k).cx], to which zeros
    are added: the order of the additions plays no part.) *)
Lemma stiffness_345_not_symmetric :
  exists K, Assemble_Stiffness_Matrix 1 bar_E bar_A bar345_nodes bar_elements = Ok K /\
          PrimFloat.eqb (mat_get K 0 1) (mat_get K 1 0) = false /\
          ~ symmetric K.
Proof.
  eexists; split; [vm_compute; reflexivity|]; split; [vm_compute; reflexivity|].
  unfold symmetric; vm_compute; intros H; discriminate H.
Qed.

(** C8, as the spec states it, fails in binary64: three bars between the
    same two nodes, of stiffness 1/10, 2/10 and 3/10, give a different
    global matrix when they are taken in the opposite order, and so do the
    two trusses that number these bars one way and the other. *)
Lemma assembly_order_changes_rounding :
  let b1 := (stiffness_along_x (1 / 10), (1%Z, 2%Z)) in
  let b2 := (stiffness_along_x (2 / 10), (1%Z, 2%Z)) in
  let b3 := (stiffness_along_x (3 / 10), (1%Z, 2%Z)) in
  Assemble_Stiffness_Matrix 3 (elasticity (three_bars 1 2 3))
    (cross_area (three_bars 1 2 3)) bar_nodes (elements (three_bars 1 2 3))
  = Ok (stiffness_along_x (3 / 10)) /\
  Permutation [b1; b2; b3] [b3; b2; b1] /\
  assemble_in_order [b1; b2; b3] (np_zeros2 6 6)
  <> assemble_in_order [b3; b2; b1] (np_zeros2 6 6) /\
  K_global_ (fst (Solve (three_bars 1 2 3)))
  <> K_global_ (fst (Solve (three_bars 3 2 1))).
Proof.
  intros b1 b2 b3. split; [|split; [|split]].
  - vm_compute; reflexivity.
  - apply (Permutation_rev [b1; b2; b3]).
  - vm_compute; intros H; discriminate H.
  - vm_compute; intros H; discriminate H.
Qed.

(** C10, as the spec states it, fails: with the free node named 0 instead of
    2, every look-up of [Solve] succeeds, and the values it assigns are those
    of the bar whose nodes are named 1 and 2. *)
Lemma node_identifier_zero_wraps_around :
  keys (nodes bar_guided_node0) = [1%Z; 0%Z] /\
  (exists s, Solve_steps bar_guided_node0 = Ok s) /\
  Solve_steps bar_guided_node0 = Solve_steps bar_guided.
Proof.
  split; [reflexivity|]; split; [eexists|]; vm_compute; reflexivity.
Qed.

End Float64Runs.

(** C4 (the code departs from it): whatever the truss, [Solve] ends by
    raising, and it leaves [member_lengths_] as it found it: the mapping of
    member lengths is never assigned. *)
Theorem Solve_never_assigns_member_lengths :
  forall (F : Type) (SF : Scalar F) (self : @Truss_3D F),
    member_lengths_ (fst (Solve self)) = member_lengths_ self /\
    snd (Solve self) <> None.
Proof.
  intros F SF self; unfold Solve.
  destruct (Solve_steps self) as [s|e]; simpl.
  - destruct (sol_member_lengths s); simpl; split;
      [reflexivity|discriminate|reflexivity|discriminate].
  - split; [reflexivity|discriminate].
Qed.

(** C6, amended: the kinematics has no check of the length.  For an
    element whose two end nodes have the same finite coordinates,
    [__Direction_Cosines] raises nothing: it returns the length 0 and, for
    the three direction cosines, the NaN that 0/0 is in binary64. *)
Theorem coincident_ends_give_nan :
  forall (element a b : Z) (nodes : dict (@point float)) (elements : dict (Z * Z))
         (x y z : float),
    dict_get elements element = Ok (a, b) ->
    dict_get nodes a = Ok (x, y, z) ->
    dict_get nodes b = Ok (x, y, z) ->
    PrimFloat.is_finite x = true ->
    PrimFloat.is_finite y = true ->
    PrimFloat.is_finite z = true ->
    Direction_Cosines element nodes elements = Ok (nan, nan, nan, PrimFloat.zero).
Proof.
  intros element a b nodes elements x y z He Ha Hb Hx Hy Hz.
  unfold Direction_Cosines. rewrite He; cbn [bind]. rewrite Ha; cbn [bind].
  rewrite Hb; cbn [bind]. cbn [ssub float64].
  rewrite !float_sub_diag by assumption. reflexivity.
Qed.

Lemma coincident_ends_give_nan_witness :
  Direction_Cosines 1 (nodes Examples.bar_degenerate) Examples.bar_elements
  = Ok (nan, nan, nan, PrimFloat.zero).
Proof.
  apply (@coincident_ends_give_nan 1 1 2 (nodes Examples.bar_degenerate)
           Examples.bar_elements PrimFloat.zero PrimFloat.zero PrimFloat.zero);
    reflexivity.
Defined.

(** C7: displacement expansion.  For a reduced vector with an entry for
    every free position, [__Truss_Global_Displacement] returns a vector of
    length 3N that is 0 at every restrained DOF and whose k-th free
    position, in ascending order, holds the k-th entry of the reduced
    vector. *)
Theorem Truss_Global_Displacement_expands :
  forall (F : Type) (SF : Scalar F) (displacements : @vec F)
         (Support_Vector : list Z) (nodes : dict (@point F)),
    let n := (3 * length nodes)%nat in
    let free := free_positions Support_Vector n in
    (length free <= length displacements)%nat ->
    exists v,
      Truss_Global_Displacement displacements Support_Vector nodes = Ok v /\
      length v = n /\
      (forall i, In i Support_Vector -> 1 <= i <= Z.of_nat n ->
                 nth (Z.to_nat (i - 1)) v s0 = s0) /\
      (forall k, (k < length free)%nat ->
                 nth (nth k free O) v s0 = nth k displacements s0).
Proof.
  intros F SF u SV nodes n free Hu.
  destruct (@expansion_loop F SF SV u n O (np_zeros n) (np_zeros n))
    as (v & Hfold & Hlen & Hin & _).
  - apply repeat_length.
  - unfold np_zeros; rewrite repeat_length; lia.
  - exact Hu.
  - exists v. split; [|split; [|split]].
    + unfold Truss_Global_Displacement, enumerate.
      fold n. replace (length (np_zeros n)) with n by (symmetry; apply repeat_length).
      change (rank SV O) with O in Hfold.
      change (foldM _ (combine (map Z.of_nat (seq 0 n)) (np_zeros n)) (np_zeros n, 0))
        with (foldM (expansion_step SV u) (combine (map Z.of_nat (seq 0 n)) (np_zeros n))
                    (np_zeros n, Z.of_nat O)).
      rewrite Hfold. reflexivity.
    + rewrite Hlen. apply repeat_length.
    + intros i Hi Hr. rewrite Hin by lia.
      unfold expanded_entry.
      replace (restrained SV (Z.to_nat (i - 1))) with true; [reflexivity|].
      symmetry. apply existsb_exists. exists (i - 1). split.
      * apply in_map_iff. exists i; auto.
      * apply Z.eqb_eq. lia.
    + intros k Hk.
      destruct (nth_filter_seq_rank _ n Hk) as (Hp & Hf & Hr).
      fold (free_positions SV n) in Hp, Hf, Hr. fold free in Hp, Hf, Hr.
      rewrite Hin by lia. unfold expanded_entry, restrained.
      apply negb_true_iff in Hf. rewrite Hf.
      unfold rank, free_positions. rewrite Hr. reflexivity.
Qed.

Lemma Truss_Global_Displacement_expands_witness :
  exists v,
    Truss_Global_Displacement [(-2.5)%float] [1; 2; 3; 5; 6] Examples.bar_nodes
    = Ok v /\
    length v = 6%nat /\
    (forall i, In i [1; 2; 3; 5; 6] -> 1 <= i <= 6 ->
               nth (Z.to_nat (i - 1)) v s0 = s0) /\
    (forall k, (k < 1)%nat -> nth (nth k [3%nat] O) v s0 = nth k [(-2.5)%float] s0).
Proof.
  apply (@Truss_Global_Displacement_expands float float64 [(-2.5)%float]
           [1; 2; 3; 5; 6] Examples.bar_nodes).
  vm_compute. lia.
Defined.

(** C8, amended: when the addition of the scalars satisfies
    [(a + x) + y = (a + y) + x], as the addition of exact arithmetic does
    and the rounded addition of binary64 does not, adding the element
    blocks to the zero 3N by 3N matrix gives the same result (the same
    matrix, or [IndexError] in both cases) in every order. *)
Theorem assembly_order_independent_exactly :
  forall (F : Type) (SF : Scalar F) (N : nat),
    (forall a x y : F, (a +. x) +. y = (a +. y) +. x) ->
    (forall blocks blocks' : list (@mat F * (Z * Z)),
        Permutation blocks blocks' ->
        assemble_in_order blocks (np_zeros2 (3 * N) (3 * N))
        = assemble_in_order blocks' (np_zeros2 (3 * N) (3 * N))) /\
    (forall (elements elements' : dict (Z * Z)) (k_elems k_elems' : list (@mat F)),
        numbered_from_one elements -> numbered_from_one elements' ->
        length k_elems = length elements -> length k_elems' = length elements' ->
        Permutation (combine k_elems (map snd elements))
                    (combine k_elems' (map snd elements')) ->
        assemble_all elements k_elems (np_zeros2 (3 * N) (3 * N))
        = assemble_all elements' k_elems' (np_zeros2 (3 * N) (3 * N))).
Proof.
  intros F SF N Hswap.
  assert (Hperm : forall blocks blocks' : list (@mat F * (Z * Z)),
             Permutation blocks blocks' ->
             assemble_in_order blocks (np_zeros2 (3 * N) (3 * N))
             = assemble_in_order blocks' (np_zeros2 (3 * N) (3 * N))).
  { intros blocks blocks' Hp.
    apply (assemble_in_order_permutation Hswap Hp (n := (3 * N)%nat)).
    apply shape_zeros. }
  split; [exact Hperm|].
  intros elements elements' k_elems k_elems' Hn Hn' Hl Hl' Hp.
  rewrite !assemble_all_in_order by assumption.
  apply Hperm, Hp.
Qed.

Lemma assembly_order_independent_exactly_witness :
  assemble_in_order [(ones6, (1, 2)); (twos6, (2, 1))] (np_zeros2 6 6)
  = assemble_in_order [(twos6, (2, 1)); (ones6, (1, 2))] (np_zeros2 6 6) /\
  assemble_all [(1, (1, 2)); (2, (2, 1))] [ones6; twos6] (np_zeros2 6 6)
  = assemble_all [(1, (2, 1)); (2, (1, 2))] [twos6; ones6] (np_zeros2 6 6).
Proof.
  destruct (@assembly_order_independent_exactly R exact 2) as [Hblocks Hall].
  - intros a x y. simpl. ring.
  - split.
    + apply Hblocks, perm_swap.
    + apply Hall; try reflexivity. apply perm_swap.
Defined.

(** ** Rounding to five decimals *)

Lemma Element_Displacement_rounds {F : Type} {SF : Scalar F}
    (element_number : Z) (global_displacement : @vec F)
    (elements : dict (Z * Z)) (d : @vec F) :
  Element_Displacement element_number global_displacement elements = Ok d ->
  exists u1 u2 u3 u4 u5 u6,
    elem_displacements element_number global_displacement elements
    = Ok [u1; u2; u3; u4; u5; u6] /\
    d = map np_round5 [u1; u2; u3; u4; u5; u6].
Proof.
  unfold Element_Displacement, elem_displacements.
  destruct (dict_get elements element_number) as [[a b]|e]; cbn [bind];
    [|discriminate].
  intros H. apply bind_Ok in H as (u & Hu & H). injection H as <-.
  pose proof (mapM_length _ _ Hu) as Hlen. cbn [length] in Hlen.
  destruct u as [|u1 [|u2 [|u3 [|u4 [|u5 [|u6 [|u7 u]]]]]]]; try discriminate.
  exists u1, u2, u3, u4, u5, u6. split; [exact Hu|reflexivity].
Qed.

Section RoundingBounds.
Local Open Scope R_scope.

Lemma Rrint_near (x : R) : exists z : Z, Rrint x = IZR z /\ Rabs (IZR z - x) <= 1 / 2.
Proof.
  unfold Rrint.
  pose proof (Rplus_Int_part_frac_part x) as Hx.
  destruct (base_fp x) as [H0 H1].
  destruct (Rlt_dec (frac_part x) (1 / 2)) as [Hlt|Hge].
  - exists (Int_part x). split; [reflexivity|].
    apply Rabs_le. lra.
  - destruct (Rlt_dec (1 / 2) (frac_part x)) as [Hgt|Hle].
    + exists (Int_part x + 1)%Z. split; [reflexivity|].
      rewrite plus_IZR. apply Rabs_le. lra.
    + destruct (Z.even (Int_part x)).
      * exists (Int_part x). split; [reflexivity|]. apply Rabs_le. lra.
      * exists (Int_part x + 1)%Z. split; [reflexivity|].
        rewrite plus_IZR. apply Rabs_le. lra.
Qed.

Lemma np_round5_near (x : R) :
  - (1 / 200000) <= @np_round5 R exact x - x <= 1 / 200000.
Proof.
  unfold np_round5. cbn [smul sdiv srint of_Z exact].
  destruct (Rrint_near (x * 100000)) as (z & -> & Hz).
  assert (Hz' : - (1 / 2) <= IZR z - x * 100000 <= 1 / 2)
    by (unfold Rabs in Hz; destruct (Rcase_abs (IZR z - x * 100000)); lra).
  unfold Rdiv. lra.
Qed.

Lemma scaled_difference_bound (c a b h : R) :
  - h <= a <= h -> - h <= b <= h -> Rabs (c * (a - b)) <= Rabs c * (2 * h).
Proof.
  intros Ha Hb. rewrite Rabs_mult.
  apply Rmult_le_compat_l; [apply Rabs_pos|].
  apply Rabs_le. lra.
Qed.

Lemma elongation_close (cx cy cz h r1 r2 r3 r4 r5 r6 u1 u2 u3 u4 u5 u6 : R) :
  - h <= r1 - u1 <= h -> - h <= r2 - u2 <= h -> - h <= r3 - u3 <= h ->
  - h <= r4 - u4 <= h -> - h <= r5 - u5 <= h -> - h <= r6 - u6 <= h ->
  Rabs (elongation cx cy cz [r1; r2; r3; r4; r5; r6]
        - elongation cx cy cz [u1; u2; u3; u4; u5; u6])
  <= (Rabs cx + Rabs cy + Rabs cz) * (2 * h).
Proof.
  intros H1 H2 H3 H4 H5 H6. unfold elongation. cbn.
  replace (0 + 0 * r1 + 0 * r2 + 0 * r3 + cx * r4 + cy * r5 + cz * r6
           - (0 + cx * r1 + cy * r2 + cz * r3 + 0 * r4 + 0 * r5 + 0 * r6)
           - (0 + 0 * u1 + 0 * u2 + 0 * u3 + cx * u4 + cy * u5 + cz * u6
              - (0 + cx * u1 + cy * u2 + cz * u3 + 0 * u4 + 0 * u5 + 0 * u6)))
    with (cx * ((r4 - u4) - (r1 - u1)) + cy * ((r5 - u5) - (r2 - u2))
          + cz * ((r6 - u6) - (r3 - u3))) by ring.
  pose proof (@scaled_difference_bound cx (r4 - u4) (r1 - u1) h H4 H1) as Hx.
  pose proof (@scaled_difference_bound cy (r5 - u5) (r2 - u2) h H5 H2) as Hy.
  pose proof (@scaled_difference_bound cz (r6 - u6) (r3 - u3) h H6 H3) as Hz.
  eapply Rle_trans; [apply Rabs_triang|].
  eapply Rle_trans; [apply Rplus_le_compat_r, Rabs_triang|].
  lra.
Qed.

Lemma elongation_rounded (cx cy cz u1 u2 u3 u4 u5 u6 : R) :
  Rabs (elongation cx cy cz (map np_round5 [u1; u2; u3; u4; u5; u6])
        - elongation cx cy cz [u1; u2; u3; u4; u5; u6])
  <= (Rabs cx + Rabs cy + Rabs cz) / 100000.
Proof.
  cbn [map].
  replace ((Rabs cx + Rabs cy + Rabs cz) / 100000)
    with ((Rabs cx + Rabs cy + Rabs cz) * (2 * (1 / 200000))) by lra.
  apply elongation_close; apply np_round5_near.
Qed.

End RoundingBounds.

Section Exact.
Local Open Scope R_scope.

(** C9, amended: in exact arithmetic the element stiffness builder returns
    [Tt.k.T] with [k = (E.A/L).[[1,-1],[-1,1]]], which is the product of the
    column [(E.A/L).(cx,cy,cz,-cx,-cy,-cz)] and the row
    [(cx,cy,cz,-cx,-cy,-cz)]: a symmetric matrix of rank at most 1. *)
Theorem element_stiffness_exact :
  forall (element : Z) (elasticity area : dict R) (nodes : dict (@point R))
         (elements : dict (Z * Z)) (cx cy cz L E A : R),
    Direction_Cosines element nodes elements = Ok (cx, cy, cz, L) ->
    dict_get elasticity element = Ok E ->
    dict_get area element = Ok A ->
    exists K,
      Assemble_Stiffness_Matrix element elasticity area nodes elements = Ok K /\
      K = mat_dot (mat_dot (np_transpose (transformation cx cy cz))
                           [[E * A / L; - (E * A / L)]; [- (E * A / L); E * A / L]])
                  (transformation cx cy cz) /\
      K = outer (map (Rmult (E * A / L)) (axis6 cx cy cz)) (axis6 cx cy cz) /\
      symmetric K /\
      rank_at_most_one K.
Proof.
  intros element elasticity area nodes elements cx cy cz L E A Hdc HE HA.
  unfold Assemble_Stiffness_Matrix. rewrite Hdc, HE, HA. cbn [bind].
  set (kappa := E * A / L).
  assert (Hk : @scale R exact kappa axial_pattern
               = [[kappa; - kappa]; [- kappa; kappa]]).
  { unfold scale, axial_pattern; cbn. entrywise. }
  cbn [sadd smul sdiv exact]. fold kappa. rewrite Hk.
  assert (Hout : mat_dot (mat_dot (np_transpose (transformation cx cy cz))
                                  [[kappa; - kappa]; [- kappa; kappa]])
                         (transformation cx cy cz)
                 = outer (map (Rmult kappa) (axis6 cx cy cz)) (axis6 cx cy cz)).
  { unfold outer, axis6; cbn. entrywise. }
  eexists. split; [reflexivity|]. split; [reflexivity|]. split; [exact Hout|].
  rewrite Hout. split.
  - unfold symmetric, outer, axis6; cbn. entrywise.
  - eexists _, _; reflexivity.
Qed.

Lemma element_stiffness_exact_witness :
  exists K,
    Assemble_Stiffness_Matrix 1 [(1%Z, 200)] [(1%Z, 1)] real_bar345_nodes
                              [(1%Z, (1%Z, 2%Z))] = Ok K /\
    symmetric K /\ rank_at_most_one K.
Proof.
  edestruct (@element_stiffness_exact 1 [(1%Z, 200)] [(1%Z, 1)] real_bar345_nodes
               [(1%Z, (1%Z, 2%Z))]) as (K & HK & _ & _ & Hsym & Hrank);
    [reflexivity | reflexivity | reflexivity |].
  exists K. auto.
Defined.

(** C3, amended: the scalar [Solve] puts in the member-force mapping is the
    second entry of the local force pair computed from the displacements of
    the element as [__Element_Displacement] returns them, the solved
    displacements of its end nodes rounded to five decimals.  In exact
    arithmetic it is [(E.A/L)] times the elongation of the bar under these
    rounded displacements, and the first entry is its opposite; so, for
    [E.A/L > 0], it is negative when the rounded displacements shorten the
    bar and positive when they lengthen it.  The elongation under the
    rounded displacements is within [(|cx| + |cy| + |cz|).1e-5] of the
    elongation under the solved displacements: the scalar is negative when
    the solved displacements shorten the bar by more than that, positive
    when they lengthen it by more than that, and within this tolerance the
    rounding decides; in binary64, [small_displacements] shorten the bar
    to (3, 4, 0) and the scalar is positive.  The same holds of the member
    stress with [E/L]. *)
Theorem member_force_sign :
  (forall (F : Type) (SF : Scalar F) (self : @Truss_3D F) (s : @solution F),
      numbered_from_one (elements self) ->
      Solve_steps self = Ok s ->
      exists element_displacements : list (@vec F),
        forall e, In e (keys (elements self)) ->
          exists fpair spair,
            py_index element_displacements (e - 1)%Z
            = Element_Displacement e (sol_displacements s) (elements self) /\
            Solve_Member_Force e element_displacements (cross_area self)
                               (elasticity self) (nodes self) (elements self)
            = Ok fpair /\
            Solve_Member_Stress e element_displacements (elasticity self)
                                (nodes self) (elements self)
            = Ok spair /\
            dict_get (sol_member_forces s) e = py_index fpair 1 /\
            dict_get (sol_member_stresses s) e = py_index spair 1) /\
  (forall (element : Z) (displacement_vector : list (@vec R))
         (area elasticity : dict R) (nodes : dict (@point R))
         (elements : dict (Z * Z)) (cx cy cz L E A : R) (d : @vec R),
    Direction_Cosines element nodes elements = Ok (cx, cy, cz, L) ->
    py_index displacement_vector (element - 1) = Ok d ->
    dict_get elasticity element = Ok E ->
    dict_get area element = Ok A ->
    exists f_from f_to s_from s_to,
      Solve_Member_Force element displacement_vector area elasticity nodes elements
      = Ok [f_from; f_to] /\
      Solve_Member_Stress element displacement_vector elasticity nodes elements
      = Ok [s_from; s_to] /\
      py_index [f_from; f_to] 1 = Ok f_to /\
      py_index [s_from; s_to] 1 = Ok s_to /\
      f_to = E * A / L * elongation cx cy cz d /\
      s_to = E / L * elongation cx cy cz d /\
      f_from = - f_to /\ s_from = - s_to /\
      (0 < E * A / L -> (f_to < 0 <-> elongation cx cy cz d < 0) /\
                        (0 < f_to <-> 0 < elongation cx cy cz d)) /\
      (0 < E / L -> (s_to < 0 <-> elongation cx cy cz d < 0) /\
                    (0 < s_to <-> 0 < elongation cx cy cz d))) /\
  (forall (element : Z) (global_displacement : @vec R)
         (displacement_vector : list (@vec R))
         (area elasticity : dict R) (nodes : dict (@point R))
         (elements : dict (Z * Z)) (cx cy cz L E A : R) (d : @vec R),
    Direction_Cosines element nodes elements = Ok (cx, cy, cz, L) ->
    Element_Displacement element global_displacement elements = Ok d ->
    py_index displacement_vector (element - 1) = Ok d ->
    dict_get elasticity element = Ok E ->
    dict_get area element = Ok A ->
    exists u f_from f_to s_from s_to,
      elem_displacements element global_displacement elements = Ok u /\
      d = map np_round5 u /\
      Solve_Member_Force element displacement_vector area elasticity nodes elements
      = Ok [f_from; f_to] /\
      Solve_Member_Stress element displacement_vector elasticity nodes elements
      = Ok [s_from; s_to] /\
      Rabs (elongation cx cy cz d - elongation cx cy cz u)
      <= (Rabs cx + Rabs cy + Rabs cz) / 100000 /\
      (0 < E * A / L ->
       (elongation cx cy cz u < - ((Rabs cx + Rabs cy + Rabs cz) / 100000) ->
        f_to < 0) /\
       ((Rabs cx + Rabs cy + Rabs cz) / 100000 < elongation cx cy cz u ->
        0 < f_to)) /\
      (0 < E / L ->
       (elongation cx cy cz u < - ((Rabs cx + Rabs cy + Rabs cz) / 100000) ->
        s_to < 0) /\
       ((Rabs cx + Rabs cy + Rabs cz) / 100000 < elongation cx cy cz u ->
        0 < s_to))) /\
  (exists (u d : @vec float) (cx cy cz L f_from f_to : float),
      Direction_Cosines 1 Examples.bar345_nodes Examples.bar_elements
      = Ok (cx, cy, cz, L) /\
      elem_displacements 1 small_displacements Examples.bar_elements = Ok u /\
      Element_Displacement 1 small_displacements Examples.bar_elements = Ok d /\
      Solve_Member_Force 1 [d] Examples.bar_A Examples.bar_E
                         Examples.bar345_nodes Examples.bar_elements
      = Ok [f_from; f_to] /\
      PrimFloat.ltb (elongation cx cy cz u) 0%float = true /\
      PrimFloat.ltb 0%float f_to = true).
Proof.
  assert (Hsign :
    forall (element : Z) (displacement_vector : list (@vec R))
           (area elasticity : dict R) (nodes : dict (@point R))
           (elements : dict (Z * Z)) (cx cy cz L E A : R) (d : @vec R),
      Direction_Cosines element nodes elements = Ok (cx, cy, cz, L) ->
      py_index displacement_vector (element - 1) = Ok d ->
      dict_get elasticity element = Ok E ->
      dict_get area element = Ok A ->
      exists f_from f_to s_from s_to,
        Solve_Member_Force element displacement_vector area elasticity nodes elements
        = Ok [f_from; f_to] /\
        Solve_Member_Stress element displacement_vector elasticity nodes elements
        = Ok [s_from; s_to] /\
        py_index [f_from; f_to] 1 = Ok f_to /\
        py_index [s_from; s_to] 1 = Ok s_to /\
        f_to = E * A / L * elongation cx cy cz d /\
        s_to = E / L * elongation cx cy cz d /\
        f_from = - f_to /\ s_from = - s_to /\
        (0 < E * A / L -> (f_to < 0 <-> elongation cx cy cz d < 0) /\
                          (0 < f_to <-> 0 < elongation cx cy cz d)) /\
        (0 < E / L -> (s_to < 0 <-> elongation cx cy cz d < 0) /\
                      (0 < s_to <-> 0 < elongation cx cy cz d))).
  { intros element dv area elasticity nodes elements cx cy cz L E A d Hdc Hd HE HA.
    unfold Solve_Member_Force, Solve_Member_Stress.
    rewrite Hdc, Hd, HE, HA. cbn [bind].
    unfold elongation. cbn [mat_vec transformation map].
    remember (dot_vec [cx; cy; cz; s0; s0; s0] d) as u_from eqn:Hfrom.
    remember (dot_vec [s0; s0; s0; cx; cy; cz] d) as u_to eqn:Hto.
    clear Hfrom Hto. cbn.
    set (kf := E * A / L). set (ks := E / L).
    do 4 eexists.
    split; [reflexivity|]. split; [reflexivity|].
    split; [reflexivity|]. split; [reflexivity|].
    split; [ring|]. split; [ring|]. split; [ring|]. split; [ring|].
    assert (Hf : 0 + kf * -1 * u_from + kf * 1 * u_to = kf * (u_to - u_from)) by ring.
    assert (Hs : 0 + ks * -1 * u_from + ks * 1 * u_to = ks * (u_to - u_from)) by ring.
    rewrite Hf, Hs. split; intros Hpos; split; split; intros H; nra. }
  split; [intros F SF self s Hnum Hs; apply Solve_steps_member_mapping; assumption|].
  split; [exact Hsign|]. split.
  - intros element gd dv area elasticity nodes elements cx cy cz L E A d
           Hdc Hed Hd HE HA.
    destruct (Element_Displacement_rounds _ _ _ Hed)
      as (u1 & u2 & u3 & u4 & u5 & u6 & Hu & Hround).
    destruct (Hsign element dv area elasticity nodes elements cx cy cz L E A d
                    Hdc Hd HE HA)
      as (f_from & f_to & s_from & s_to & Hf & Hs & _ & _ & Hfv & Hsv & _ & _ & _ & _).
    exists [u1; u2; u3; u4; u5; u6], f_from, f_to, s_from, s_to.
    split; [exact Hu|]. split; [exact Hround|].
    split; [exact Hf|]. split; [exact Hs|].
    pose proof (elongation_rounded cx cy cz u1 u2 u3 u4 u5 u6) as Hnear.
    rewrite <- Hround in Hnear.
    split; [exact Hnear|].
    set (tol := (Rabs cx + Rabs cy + Rabs cz) / 100000) in Hnear |- * .
    assert (Hd' : - tol <= elongation cx cy cz d
                           - elongation cx cy cz [u1; u2; u3; u4; u5; u6] <= tol).
    { unfold Rabs in Hnear.
      destruct (Rcase_abs (elongation cx cy cz d
                           - elongation cx cy cz [u1; u2; u3; u4; u5; u6])); lra. }
    rewrite Hfv, Hsv.
    split; intros Hpos; split; intros H; nra.
  - do 8 eexists.
    split; [vm_compute; reflexivity|].
    split; [vm_compute; reflexivity|].
    split; [vm_compute; reflexivity|].
    split; [vm_compute; reflexivity|].
    split; vm_compute; reflexivity.
Qed.

Lemma member_force_sign_witness :
  (exists s element_displacements,
      Solve_steps Examples.bar_guided = Ok s /\
      forall e, In e (keys (elements Examples.bar_guided)) ->
        exists fpair,
          Solve_Member_Force e element_displacements
            (cross_area Examples.bar_guided) (elasticity Examples.bar_guided)
            (nodes Examples.bar_guided) (elements Examples.bar_guided)
          = Ok fpair /\
          dict_get (sol_member_forces s) e = py_index fpair 1) /\
  (exists f_from f_to,
      Solve_Member_Force 1 [[0; 0; 0; -5 / 2; 0; 0]] [(1%Z, 1)] [(1%Z, 200)]
                         real_bar_nodes [(1%Z, (1%Z, 2%Z))] = Ok [f_from; f_to] /\
      f_from = - f_to) /\
  (exists cx cy cz L d u,
      Direction_Cosines 1 real_bar_nodes [(1%Z, (1%Z, 2%Z))] = Ok (cx, cy, cz, L) /\
      Element_Displacement 1 [0; 0; 0; -5 / 2; 0; 0] [(1%Z, (1%Z, 2%Z))] = Ok d /\
      elem_displacements 1 [0; 0; 0; -5 / 2; 0; 0] [(1%Z, (1%Z, 2%Z))] = Ok u /\
      Rabs (elongation cx cy cz d - elongation cx cy cz u)
      <= (Rabs cx + Rabs cy + Rabs cz) / 100000).
Proof.
  destruct member_force_sign as (Hmap & Hsign & Hnear & _). split; [|split].
  - assert (Hs : exists s, Solve_steps Examples.bar_guided = Ok s)
      by (eexists; vm_compute; reflexivity).
    destruct Hs as (s & Hs).
    destruct (Hmap float float64 Examples.bar_guided s eq_refl Hs) as (eds & Heds).
    exists s, eds. split; [exact Hs|].
    intros e He. destruct (Heds e He) as (fpair & spair & _ & Hf & _ & Hm & _).
    exists fpair. auto.
  - edestruct (Hsign 1%Z [[0; 0; 0; -5 / 2; 0; 0]] [(1%Z, 1)] [(1%Z, 200)]
                 real_bar_nodes [(1%Z, (1%Z, 2%Z))])
      as (f_from & f_to & s_from & s_to & Hf & _ & _ & _ & _ & _ & Hopp & _);
      [reflexivity | reflexivity | reflexivity | reflexivity |].
    exists f_from, f_to. auto.
  - edestruct (Hnear 1%Z [0; 0; 0; -5 / 2; 0; 0]
                 [map (@np_round5 R exact) [0; 0; 0; -5 / 2; 0; 0]]
                 [(1%Z, 1)] [(1%Z, 200)] real_bar_nodes [(1%Z, (1%Z, 2%Z))])
      as (u & f_from & f_to & s_from & s_to & Hu & Hd & _ & _ & Hclose & _);
      [reflexivity | reflexivity | reflexivity | reflexivity | reflexivity |].
    do 4 eexists. exists (map (@np_round5 R exact) [0; 0; 0; -5 / 2; 0; 0]), u.
    split; [reflexivity|]. split; [reflexivity|]. split; [exact Hu|]. exact Hclose.
Defined.

End Exact.

(** C10, amended: when [Solve] reaches the assignments of its results, the
    element identifiers are exactly 1..n, and every node identifier an
    element, a support or a force names lies in [1-N, N].  An identifier
    from 1-N to 0 is not refused: the assembly adds its block at the rows
    and columns of the node N places further. *)
Theorem Solve_steps_identifier_ranges :
  forall (F : Type) (SF : Scalar F) (self : @Truss_3D F) (s : @solution F),
    Solve_steps self = Ok s ->
    let n := Z.of_nat (length (elements self)) in
    let N := Z.of_nat (length (nodes self)) in
    (forall k, In k (keys (elements self)) <-> 1 <= k <= n) /\
    (forall e a b, dict_get (elements self) e = Ok (a, b) ->
                   1 - N <= a <= N /\ 1 - N <= b <= N) /\
    (forall k, In k (keys (supports self)) -> 1 - N <= k <= N) /\
    (forall k, In k (keys (forces self)) -> 1 - N <= k <= N) /\
    (forall (K k : @mat F) (i j : Z),
        shape (3 * length (nodes self)) (3 * length (nodes self)) K ->
        (1 - N <= i <= 0 ->
         Assemble_Global_Stiffness K k i j
         = Assemble_Global_Stiffness K k (i + N) j) /\
        (1 - N <= j <= 0 ->
         Assemble_Global_Stiffness K k i j
         = Assemble_Global_Stiffness K k i (j + N))).
Proof.
  intros F SF self s H n N. unfold Solve_steps in H.
  apply bind_Ok in H as (member_lengths & _ & H).
  apply bind_Ok in H as (k_elems & Hk & H).
  apply bind_Ok in H as (K_global & HK & H).
  apply bind_Ok in H as (sv & Hsv & H).
  apply bind_Ok in H as (K_new & _ & H).
  apply bind_Ok in H as (f_new & Hf & _).
  apply mapM_length in Hk. unfold keys in Hk. rewrite length_map in Hk.
  pose proof (@assemble_all_Ok F SF (length (nodes self)) _ _ _ _
                (shape_zeros _ _) HK) as Hall.
  rewrite Hk in Hall. fold n N in Hall.
  assert (Hkeys : forall k, In k (keys (elements self)) <-> 1 <= k <= n).
  { apply keys_are_one_to_n. intros i Hi.
    destruct (Hall i Hi) as (a & b & Hab & _). eapply dict_get_In; eauto. }
  split; [exact Hkeys|]. split; [|split; [|split]].
  - intros e a b He.
    assert (Hr : 1 <= e <= n) by (apply Hkeys; eapply dict_get_In; eauto).
    destruct (Hall (e - 1) ltac:(lia)) as (a' & b' & Hab & Ha & Hb).
    replace (e - 1 + 1) with e in Hab by lia.
    rewrite He in Hab. injection Hab as <- <-. auto.
  - eapply Support_Vector_Ok; eauto.
  - eapply Assemble_Force_Vector_Ok; eauto.
  - intros K k i j HKs. apply Assemble_Global_Stiffness_wrap, HKs.
Qed.

Lemma Solve_steps_identifier_ranges_witness :
  (forall k, In k (keys (elements Examples.bar_guided_node0)) <-> 1 <= k <= 1) /\
  (forall e a b, dict_get (elements Examples.bar_guided_node0) e = Ok (a, b) ->
                 -1 <= a <= 2 /\ -1 <= b <= 2).
Proof.
  edestruct (@Solve_steps_identifier_ranges float float64 Examples.bar_guided_node0)
    as (Hk & He & _).
  - vm_compute. reflexivity.
  - split; [exact Hk | exact He].
Defined.

(* ================================================================== *)
(** * Further properties *)

(** ** Deleting and restoring positions *)

Lemma filter_combine_seq {A : Type} (g : nat -> bool) (l : list A) (d : A) :
  forall a,
    map snd (filter (fun p => g (fst p)) (combine (seq a (length l)) l))
    = map (fun p => nth (p - a) l d) (filter g (seq a (length l))).
Proof.
  induction l as [|x l IH]; intros a; [reflexivity|].
  cbn [length seq combine filter fst].
  destruct (g a) eqn:Eg.
  - cbn [map snd]. rewrite Nat.sub_diag. cbn [nth]. f_equal.
    rewrite IH. apply map_ext_in. intros p Hp.
    apply filter_In in Hp as [Hp _]. apply in_seq in Hp.
    replace (p - a)%nat with (S (p - S a)) by lia. reflexivity.
  - rewrite IH. apply map_ext_in. intros p Hp.
    apply filter_In in Hp as [Hp _]. apply in_seq in Hp.
    replace (p - a)%nat with (S (p - S a)) by lia. reflexivity.
Qed.

Lemma mapM_norm_index_valid (n : nat) (obj : list Z) :
  (forall i, In i obj -> 0 <= i < Z.of_nat n) ->
  mapM (norm_index n) obj = Ok (map Z.to_nat obj).
Proof.
  induction obj as [|i obj IH]; intros H; [reflexivity|].
  cbn [mapM map]. 
  replace i with (Z.of_nat (Z.to_nat i)) at 1 by (specialize (H i (or_introl eq_refl)); lia).
  rewrite norm_index_nat by (specialize (H i (or_introl eq_refl)); lia).
  cbn [bind]. rewrite IH by (intros j Hj; apply H; right; exact Hj). reflexivity.
Qed.

Lemma mapM_Raise_first {A B : Type} (f : A -> Result B) (xs : list A) (e : exn) :
  (forall x e', In x xs -> f x = Raise e' -> e' = e) ->
  (exists x, In x xs /\ exists e', f x = Raise e') ->
  mapM f xs = Raise e.
Proof.
  induction xs as [|x xs IH]; intros Hall (y & Hy & e' & He'); [destruct Hy|].
  cbn [mapM]. destruct (f x) as [b|e0] eqn:Ex.
  - cbn [bind]. destruct Hy as [->|Hy]; [congruence|].
    rewrite IH; [reflexivity| |eauto].
    intros z e1 Hz; apply Hall; right; exact Hz.
  - cbn [bind]. f_equal. apply (Hall x); [left; reflexivity|exact Ex].
Qed.

Lemma np_delete_keeps_free {A : Type} (l : list A) (SV : list Z) (d : A) :
  (forall i, In i SV -> 1 <= i <= Z.of_nat (length l)) ->
  np_delete l (map (fun j => j - 1) SV)
  = Ok (map (fun p => nth p l d) (free_positions SV (length l))).
Proof.
  intros H. unfold np_delete.
  rewrite mapM_norm_index_valid.
  2:{ intros i Hi. apply in_map_iff in Hi as (x & <- & Hx). specialize (H x Hx). lia. }
  cbn [bind]. f_equal.
  rewrite (@filter_combine_seq A
             (fun p => negb (existsb (Nat.eqb p)
                                     (map Z.to_nat (map (fun j => j - 1) SV)))) l d 0).
  unfold free_positions.
  rewrite (filter_ext
             (fun p => negb (existsb (Nat.eqb p) (map Z.to_nat (map (fun j => j - 1) SV))))
             (fun i => negb (existsb (Z.eqb (Z.of_nat i)) (map (fun x => x - 1) SV)))).
  - apply map_ext. intros p. rewrite Nat.sub_0_r. reflexivity.
  - intros p. f_equal.
    induction SV as [|x SV IH]; [reflexivity|]. cbn [map existsb].
    rewrite IH by (intros i Hi; apply H; right; exact Hi). f_equal.
    specialize (H x (or_introl eq_refl)).
    destruct (Nat.eqb_spec p (Z.to_nat (x - 1))), (Z.eqb_spec (Z.of_nat p) (x - 1));
      try reflexivity; lia.
Qed.

Lemma np_delete_out_of_range {A : Type} (l : list A) (obj : list Z) :
  (exists i, In i obj /\ ~ (- Z.of_nat (length l) <= i < Z.of_nat (length l))) ->
  np_delete l obj = Raise IndexError.
Proof.
  intros (i & Hi & Hr). unfold np_delete.
  rewrite (@mapM_Raise_first _ _ (norm_index (length l)) obj IndexError); [reflexivity| |].
  - intros x e' _ Hx. unfold norm_index in Hx.
    destruct ((0 <=? x) && (x <? Z.of_nat (length l))); [discriminate|].
    destruct ((- Z.of_nat (length l) <=? x) && (x <? 0)); [discriminate|].
    injection Hx as <-; reflexivity.
  - exists i. split; [exact Hi|]. exists IndexError. unfold norm_index.
    replace ((0 <=? i) && (i <? Z.of_nat (length l))) with false.
    + replace ((- Z.of_nat (length l) <=? i) && (i <? 0)) with false; [reflexivity|].
      symmetry. apply andb_false_iff.
      destruct (Z.leb_spec (- Z.of_nat (length l)) i); [right|left; reflexivity].
      apply Z.ltb_ge. lia.
    + symmetry. apply andb_false_iff.
      destruct (Z.leb_spec 0 i); [right|left; reflexivity].
      apply Z.ltb_ge. lia.
Qed.

Lemma free_positions_lt (SV : list Z) (n p : nat) :
  In p (free_positions SV n) -> (p < n)%nat.
Proof.
  unfold free_positions. intros H. apply filter_In in H as [H _].
  apply in_seq in H. lia.
Qed.

Section Reduction.
Context {F : Type} {SF : Scalar F}.

Lemma submatrix_shape (K : @mat F) (pos : list nat) :
  shape (length pos) (length pos) (submatrix K pos).
Proof.
  unfold submatrix. split; [apply length_map|].
  apply Forall_forall. intros row Hrow. apply in_map_iff in Hrow as (r & <- & _).
  apply length_map.
Qed.

Lemma Apply_Boundary_Conditions_free (n : nat) (K : @mat F) (SV : list Z) :
  shape n n K ->
  (forall i, In i SV -> 1 <= i <= Z.of_nat n) ->
  Apply_Boundary_Conditions SV K = Ok (submatrix K (free_positions SV n)).
Proof.
  intros HK HSV. unfold Apply_Boundary_Conditions, submatrix.
  set (free := free_positions SV n).
  destruct HK as [Hl Hrows].
  rewrite (np_delete_keeps_free K SV []) by (rewrite Hl; exact HSV).
  cbn [bind]. rewrite Hl. fold free.
  assert (Hgen : forall rows : list nat,
             (forall r, In r rows -> (r < n)%nat) ->
             mapM (fun row => np_delete row (map (fun j => j - 1) SV))
                  (map (fun p => nth p K []) rows)
             = Ok (map (fun r => map (fun c => mat_get K r c) free) rows)).
  { induction rows as [|r rows IH]; intros Hr; [reflexivity|].
    cbn [map mapM].
    assert (Hlen : length (nth r K []) = n).
    { rewrite Forall_forall in Hrows. apply Hrows, nth_In.
      rewrite Hl. apply Hr. left; reflexivity. }
    rewrite (np_delete_keeps_free (nth r K []) SV s0) by (rewrite Hlen; exact HSV).
    cbn [bind]. rewrite IH by (intros r' Hr'; apply Hr; right; exact Hr').
    cbn [bind]. rewrite Hlen. reflexivity. }
  apply Hgen. intros r Hr. eapply free_positions_lt; eauto.
Qed.

(** X1: for a square matrix and restrained indices within it,
    [__Apply_Boundary_Conditions] returns the rows and columns at the
    positions that are not restrained, in ascending order; what it returns
    is square, with one row and one column for each of these positions. *)
Theorem Apply_Boundary_Conditions_submatrix (n : nat) (K : @mat F) (SV : list Z) :
  shape n n K ->
  (forall i, In i SV -> 1 <= i <= Z.of_nat n) ->
  let free := free_positions SV n in
  Apply_Boundary_Conditions SV K = Ok (submatrix K free) /\
  shape (length free) (length free) (submatrix K free).
Proof.
  intros HK HSV free. split.
  - apply Apply_Boundary_Conditions_free; assumption.
  - apply submatrix_shape.
Qed.

End Reduction.

Lemma Apply_Boundary_Conditions_submatrix_witness :
  Apply_Boundary_Conditions [1; 2; 3; 5; 6] (Examples.stiffness_along_x 20%float)
  = Ok (submatrix (Examples.stiffness_along_x 20%float)
                  (free_positions [1; 2; 3; 5; 6] 6)) /\
  shape 1 1 (submatrix (Examples.stiffness_along_x 20%float)
                       (free_positions [1; 2; 3; 5; 6] 6)).
Proof.
  apply (@Apply_Boundary_Conditions_submatrix float float64 6
           (Examples.stiffness_along_x 20%float) [1; 2; 3; 5; 6]).
  - split; [reflexivity|repeat constructor].
  - intros i Hi. cbn [In] in Hi. cbn. lia.
Defined.


Section RoundTrip.
Context {F : Type} {SF : Scalar F}.

Lemma Truss_Global_Displacement_value (u : @vec F) (SV : list Z)
    (nodes : dict (@point F)) :
  (length (free_positions SV (3 * length nodes)) <= length u)%nat ->
  Truss_Global_Displacement u SV nodes
  = Ok (map (expanded_entry SV u) (seq 0 (3 * length nodes))).
Proof.
  intros Hu. set (n := (3 * length nodes)%nat) in Hu |- * .
  destruct (@expansion_loop F SF SV u n O (np_zeros n) (np_zeros n))
    as (v & Hfold & Hlen & Hin & _).
  - apply repeat_length.
  - unfold np_zeros; rewrite repeat_length; lia.
  - exact Hu.
  - unfold Truss_Global_Displacement, enumerate. fold n.
    replace (length (np_zeros n)) with n by (symmetry; apply repeat_length).
    change (rank SV O) with O in Hfold.
    change (foldM _ (combine (map Z.of_nat (seq 0 n)) (np_zeros n)) (np_zeros n, 0))
      with (foldM (expansion_step SV u) (combine (map Z.of_nat (seq 0 n)) (np_zeros n))
                  (np_zeros n, Z.of_nat O)).
    rewrite Hfold. cbn [bind]. f_equal.
    assert (Hl : length v = n) by (rewrite Hlen; apply repeat_length).
    apply (nth_ext _ _ s0 (expanded_entry SV u O)).
    + rewrite length_map, length_seq. exact Hl.
    + intros i Hi. rewrite Hl in Hi.
      rewrite (nth_map_lt (expanded_entry SV u) (seq 0 n) _ O)
        by (rewrite length_seq; exact Hi).
      rewrite seq_nth by exact Hi. apply Hin. lia.
Qed.

Lemma nth_rank_free (SV : list Z) (n i : nat) :
  (i < n)%nat -> restrained SV i = false ->
  nth (rank SV i) (free_positions SV n) O = i.
Proof.
  intros Hi Hfree. unfold rank, free_positions.
  replace n with (i + S (n - S i))%nat by lia.
  rewrite seq_app, filter_app. cbn [Nat.add seq filter].
  fold (restrained SV i). rewrite Hfree. cbn [negb].
  rewrite app_nth2 by lia. rewrite Nat.sub_diag. reflexivity.
Qed.

(** X2: reducing a full vector and expanding what is left gives the
    vector back with zero at the restrained positions: the expansion of
    [__Truss_Global_Displacement] undoes the [np.delete] of
    [__Assemble_Force_Vector] at every free position. *)
Theorem reduce_then_expand (v : @vec F) (SV : list Z) (nodes : dict (@point F)) :
  length v = (3 * length nodes)%nat ->
  (forall i, In i SV -> 1 <= i <= Z.of_nat (length v)) ->
  exists u,
    np_delete v (map (fun j => j - 1) SV) = Ok u /\
    Truss_Global_Displacement u SV nodes = Ok (zero_restrained SV v).
Proof.
  intros Hlen HSV.
  exists (map (fun p => nth p v s0) (free_positions SV (length v))).
  split; [apply np_delete_keeps_free; exact HSV|].
  rewrite Truss_Global_Displacement_value
    by (rewrite length_map, Hlen; apply Nat.le_refl).
  f_equal. unfold zero_restrained. rewrite <- Hlen.
  apply map_ext_in. intros i Hi. apply in_seq in Hi.
  unfold expanded_entry. destruct (restrained SV i) eqn:Er; [reflexivity|].
  assert (Hr : (rank SV i < length (free_positions SV (length v)))%nat).
  { assert (Hm : (rank SV (S i) <= rank SV (length v))%nat) by (apply rank_mono; lia).
    rewrite rank_S, Er in Hm. exact Hm. }
  rewrite (nth_map_lt (fun p => nth p v s0) _ _ O) by exact Hr.
  rewrite nth_rank_free by (try assumption; lia). reflexivity.
Qed.

(** X3: expanding a reduced vector that has one entry for each free
    position and deleting the restrained positions again gives the reduced
    vector back. *)
Theorem expand_then_reduce (u : @vec F) (SV : list Z) (nodes : dict (@point F)) :
  length u = length (free_positions SV (3 * length nodes)) ->
  (forall i, In i SV -> 1 <= i <= Z.of_nat (3 * length nodes)) ->
  exists v,
    Truss_Global_Displacement u SV nodes = Ok v /\
    length v = (3 * length nodes)%nat /\
    np_delete v (map (fun j => j - 1) SV) = Ok u.
Proof.
  intros Hlen HSV. set (n := (3 * length nodes)%nat) in Hlen, HSV |- * .
  exists (map (expanded_entry SV u) (seq 0 n)).
  assert (Hl : length (map (expanded_entry SV u) (seq 0 n)) = n)
    by (rewrite length_map, length_seq; reflexivity).
  split; [apply Truss_Global_Displacement_value; fold n; lia|].
  split; [exact Hl|].
  rewrite (np_delete_keeps_free _ SV s0) by (rewrite Hl; exact HSV).
  f_equal. rewrite Hl.
  apply (nth_ext _ _ s0 s0).
  - rewrite length_map. symmetry. exact Hlen.
  - intros k Hk. rewrite length_map in Hk.
    rewrite (nth_map_lt _ (free_positions SV n) _ O) by exact Hk.
    assert (H3 : (nth k (free_positions SV n) O < n)%nat /\
                 negb (restrained SV (nth k (free_positions SV n) O)) = true /\
                 rank SV (nth k (free_positions SV n) O) = k)
      by (apply nth_filter_seq_rank; exact Hk).
    destruct H3 as (Hp & Hf & Hr).
    rewrite (nth_map_lt (expanded_entry SV u) (seq 0 n) _ O)
      by (rewrite length_seq; exact Hp).
    rewrite seq_nth by exact Hp. cbn [Nat.add].
    unfold expanded_entry. apply negb_true_iff in Hf. rewrite Hf, Hr.
    reflexivity.
Qed.

End RoundTrip.

Lemma reduce_then_expand_witness :
  exists u,
    np_delete [1; 2; 3; 4; 5; 6]%float (map (fun j => j - 1) [1; 2; 3; 5; 6]) = Ok u /\
    Truss_Global_Displacement u [1; 2; 3; 5; 6] Examples.bar_nodes
    = Ok (zero_restrained [1; 2; 3; 5; 6] [1; 2; 3; 4; 5; 6]%float).
Proof.
  apply (@reduce_then_expand float float64 [1; 2; 3; 4; 5; 6]%float
           [1; 2; 3; 5; 6] Examples.bar_nodes).
  - reflexivity.
  - intros i Hi. cbn [In] in Hi. cbn. lia.
Defined.

Lemma expand_then_reduce_witness :
  exists v,
    Truss_Global_Displacement [(-2.5)%float] [1; 2; 3; 5; 6] Examples.bar_nodes = Ok v /\
    length v = 6%nat /\
    np_delete v (map (fun j => j - 1) [1; 2; 3; 5; 6]) = Ok [(-2.5)%float].
Proof.
  apply (@expand_then_reduce float float64 [(-2.5)%float]
           [1; 2; 3; 5; 6] Examples.bar_nodes).
  - reflexivity.
  - intros i Hi. cbn [In] in Hi. cbn. lia.
Defined.


(** ** The loops that fill the flag and the force vectors *)

Lemma dict_find_keys {V : Type} (d : dict V) (k : Z) :
  existsb (Z.eqb k) (keys d) = match dict_find d k with Some _ => true | None => false end.
Proof.
  induction d as [|[k' v] d IH]; simpl; [reflexivity|].
  rewrite (Z.eqb_sym k k'). destruct (k' =? k); simpl; auto.
Qed.

Lemma In_keys_find {V : Type} (d : dict V) (k : Z) :
  In k (keys d) -> exists v, dict_find d k = Some v.
Proof.
  induction d as [|[k' v] d IH]; simpl; [tauto|].
  intros [->|H].
  - rewrite Z.eqb_refl. eauto.
  - destruct (k' =? k); eauto.
Qed.

Lemma np_set_nat {A : Type} (l : list A) (i : Z) (v : A) :
  0 <= i < Z.of_nat (length l) -> np_set l i v = Ok (list_set l (Z.to_nat i) v).
Proof.
  intros H. unfold np_set.
  replace i with (Z.of_nat (Z.to_nat i)) at 1 by lia.
  rewrite norm_index_nat by lia. reflexivity.
Qed.

Lemma position_split (p : nat) :
  p = (3 * (p / 3) + p mod 3)%nat /\ (p mod 3 < 3)%nat.
Proof.
  split; [apply Nat.div_mod_eq | apply Nat.mod_upper_bound; discriminate].
Qed.

Section Scatter.
Context {F : Type} {SF : Scalar F}.

Lemma store3_length (f : @vec F) (k : Z) (a b c : F) :
  length (store3 f k a b c) = length f.
Proof. unfold store3. rewrite !list_set_length. reflexivity. Qed.

Lemma store3_nth (N : nat) (f : @vec F) (k : Z) (val : nat -> F) (p : nat) :
  length f = (3 * N)%nat -> 1 <= k <= Z.of_nat N -> (p < 3 * N)%nat ->
  nth p (store3 f k (val 0%nat) (val 1%nat) (val 2%nat)) s0
  = if node_of p =? k then val (p mod 3)%nat else nth p f s0.
Proof.
  intros Hf Hk Hp. unfold store3, node_of.
  destruct (position_split p) as [Hs Hm].
  destruct (Z.eqb_spec (Z.of_nat (p / 3) + 1) k) as [E|E].
  - destruct (p mod 3)%nat as [|[|[|m]]] eqn:Em; try lia.
    + rewrite !nth_list_set_other by lia.
      replace (Z.to_nat (k * 3 - 3)) with p by lia.
      apply nth_list_set_same. lia.
    + rewrite nth_list_set_other by lia.
      replace (Z.to_nat (k * 3 - 2)) with p by lia.
      apply nth_list_set_same. rewrite list_set_length. lia.
    + replace (Z.to_nat (k * 3 - 1)) with p by lia.
      apply nth_list_set_same. rewrite !list_set_length. lia.
  - rewrite !nth_list_set_other by lia. reflexivity.
Qed.

Lemma scatter_loop (N : nat) (val : Z -> nat -> F)
    (step : @vec F -> Z -> Result (@vec F)) (ks : list Z) :
  (forall k, In k ks -> 1 <= k <= Z.of_nat N) ->
  (forall k f, In k ks -> length f = (3 * N)%nat ->
               step f k = Ok (store3 f k (val k 0%nat) (val k 1%nat) (val k 2%nat))) ->
  forall f0, length f0 = (3 * N)%nat ->
    exists f', foldM step ks f0 = Ok f' /\ length f' = (3 * N)%nat /\
               forall p, (p < 3 * N)%nat ->
                 nth p f' s0 = if existsb (Z.eqb (node_of p)) ks
                               then val (node_of p) (p mod 3)%nat
                               else nth p f0 s0.
Proof.
  induction ks as [|k ks IH]; intros Hks Hstep f0 Hf0.
  - exists f0. simpl. auto.
  - destruct (IH (fun k' H => Hks k' (or_intror H))
                 (fun k' f H => Hstep k' f (or_intror H))
                 (store3 f0 k (val k 0%nat) (val k 1%nat) (val k 2%nat)))
      as (f' & Hfold & Hlen & Hnth).
    { rewrite store3_length. exact Hf0. }
    exists f'. split; [|split; [exact Hlen|]].
    + cbn [foldM]. rewrite (Hstep k f0 (or_introl eq_refl) Hf0). exact Hfold.
    + intros p Hp. rewrite (Hnth p Hp). cbn [existsb].
      destruct (existsb (Z.eqb (node_of p)) ks).
      * rewrite orb_true_r. reflexivity.
      * rewrite orb_false_r.
        rewrite (@store3_nth N f0 k (val k) p Hf0 (Hks k (or_introl eq_refl)) Hp).
        destruct (Z.eqb_spec (node_of p) k) as [E|E]; [rewrite E|]; reflexivity.
Qed.

(** The loop of [__Assemble_Force_Vector] over the loaded nodes. *)
Lemma force_loop (forces : dict (@point F)) (N : nat) :
  (forall k, In k (keys forces) -> 1 <= k <= Z.of_nat N) ->
  exists f,
    foldM (fun f force =>
             '(fx, fy, fz) <- dict_get forces force ;;
             f <- np_set f (force * 3 - 3) fx ;;
             f <- np_set f (force * 3 - 2) fy ;;
             np_set f (force * 3 - 1) fz)
          (keys forces) (np_zeros (3 * N)) = Ok f /\
    length f = (3 * N)%nat /\
    forall p, (p < 3 * N)%nat -> nth p f s0 = load_at forces p.
Proof.
  intros Hk.
  destruct (@scatter_loop N
              (fun k c => match dict_find forces k with
                          | Some t => component t c
                          | None => s0
                          end)
              (fun f force =>
                 '(fx, fy, fz) <- dict_get forces force ;;
                 f <- np_set f (force * 3 - 3) fx ;;
                 f <- np_set f (force * 3 - 2) fy ;;
                 np_set f (force * 3 - 1) fz)
              (keys forces) Hk) with (f0 := @np_zeros F SF (3 * N))
    as (f & Hfold & Hlen & Hnth).
  - intros k f Hin Hf. destruct (In_keys_find _ _ Hin) as ([[x y] z] & Hfind).
    unfold dict_get. rewrite Hfind. cbn [bind component].
    pose proof (Hk k Hin) as Hr.
    rewrite np_set_nat by lia. cbn [bind].
    rewrite np_set_nat by (rewrite list_set_length; lia). cbn [bind].
    rewrite np_set_nat by (rewrite !list_set_length; lia). reflexivity.
  - apply repeat_length.
  - exists f. split; [exact Hfold|]. split; [exact Hlen|].
    intros p Hp. rewrite (Hnth p Hp). unfold load_at.
    rewrite dict_find_keys. destruct (dict_find forces (node_of p)); [reflexivity|].
    unfold np_zeros. apply nth_repeat.
Qed.

(** The first loop of [__Support_Vector] over the supported nodes. *)
Lemma flag_loop (restrained_dofs : dict (list F)) (N : nat) :
  (forall k, In k (keys restrained_dofs) -> 1 <= k <= Z.of_nat N) ->
  (forall k flags, dict_find restrained_dofs k = Some flags ->
                   (2 <= length flags)%nat) ->
  exists dofs,
    foldM (fun dofs dof =>
             flags <- dict_get restrained_dofs dof ;;
             f0 <- py_index flags 0 ;;
             dofs <- np_set dofs (dof * 3 - 3) f0 ;;
             f1 <- py_index flags 1 ;;
             dofs <- np_set dofs (dof * 3 - 2) f1 ;;
             f1' <- py_index flags 1 ;;
             np_set dofs (dof * 3 - 1) f1')
          (keys restrained_dofs) (np_zeros (3 * N)) = Ok dofs /\
    length dofs = (3 * N)%nat /\
    forall p, (p < 3 * N)%nat -> nth p dofs s0 = flag_at restrained_dofs p.
Proof.
  intros Hk Hflags.
  destruct (@scatter_loop N
              (fun k c => match dict_find restrained_dofs k with
                          | Some flags => nth (Nat.min c 1) flags s0
                          | None => s0
                          end)
              (fun dofs dof =>
                 flags <- dict_get restrained_dofs dof ;;
                 f0 <- py_index flags 0 ;;
                 dofs <- np_set dofs (dof * 3 - 3) f0 ;;
                 f1 <- py_index flags 1 ;;
                 dofs <- np_set dofs (dof * 3 - 2) f1 ;;
                 f1' <- py_index flags 1 ;;
                 np_set dofs (dof * 3 - 1) f1')
              (keys restrained_dofs) Hk) with (f0 := @np_zeros F SF (3 * N))
    as (f & Hfold & Hlen & Hnth).
  - intros k f Hin Hf. destruct (In_keys_find _ _ Hin) as (flags & Hfind).
    unfold dict_get. rewrite Hfind. cbn [bind Nat.min].
    pose proof (Hk k Hin) as Hr. pose proof (Hflags k flags Hfind) as Hl.
    change (py_index flags 0) with (py_index flags (Z.of_nat 0)).
    change (py_index flags 1) with (py_index flags (Z.of_nat 1)).
    rewrite (py_index_nat flags (k:=0) s0) by lia. cbn [bind].
    rewrite np_set_nat by lia. cbn [bind].
    rewrite (py_index_nat flags (k:=1) s0) by lia. cbn [bind].
    rewrite np_set_nat by (rewrite list_set_length; lia). cbn [bind].
    rewrite np_set_nat by (rewrite !list_set_length; lia). reflexivity.
  - apply repeat_length.
  - exists f. split; [exact Hfold|]. split; [exact Hlen|].
    intros p Hp. rewrite (Hnth p Hp). unfold flag_at.
    rewrite dict_find_keys.
    destruct (dict_find restrained_dofs (node_of p)); [reflexivity|].
    unfold np_zeros. apply nth_repeat.
Qed.

Lemma enumerate_filter (dofs : @vec F) (g : F -> bool) :
  map (fun id => fst id + 1) (filter (fun id => g (snd id)) (enumerate dofs))
  = map (fun p => Z.of_nat p + 1)
        (filter (fun p => g (nth p dofs s0)) (seq 0 (length dofs))).
Proof.
  unfold enumerate.
  rewrite (combine_nth_seq (map Z.of_nat (seq 0 (length dofs))) dofs 0 s0)
    by (rewrite length_map, length_seq; reflexivity).
  rewrite length_map, length_seq.
  assert (H : forall l : list nat,
             (forall i, In i l -> (i < length dofs)%nat) ->
             map (fun id : Z * F => fst id + 1)
               (filter (fun id => g (snd id))
                  (map (fun i => (nth i (map Z.of_nat (seq 0 (length dofs))) 0,
                                  nth i dofs s0)) l))
             = map (fun p => Z.of_nat p + 1)
                   (filter (fun p => g (nth p dofs s0)) l)).
  { induction l as [|i l IH]; intros Hl; [reflexivity|].
    cbn [map filter snd].
    destruct (g (nth i dofs s0)); cbn [map fst].
    - rewrite IH by (intros; apply Hl; right; assumption).
      rewrite (nth_map_lt Z.of_nat (seq 0 (length dofs)) 0 O)
        by (rewrite length_seq; apply Hl; left; reflexivity).
      rewrite seq_nth by (apply Hl; left; reflexivity). reflexivity.
    - apply IH. intros; apply Hl; right; assumption. }
  apply H. intros i Hi. apply in_seq in Hi. lia.
Qed.

(** X4: when every supported node is one of 1..N and carries at least two
    flags, [__Support_Vector] returns, in ascending order, the 1-based
    positions whose flag equals 1, where the x slot of a node holds its
    flag [0] and both the y slot and the z slot hold its flag [1]; a node
    without support contributes nothing, and a third flag is never read. *)
Theorem Support_Vector_value (restrained_dofs : dict (list F))
    (nodes : dict (@point F)) :
  (forall k, In k (keys restrained_dofs) -> 1 <= k <= Z.of_nat (length nodes)) ->
  (forall k flags, dict_find restrained_dofs k = Some flags ->
                   (2 <= length flags)%nat) ->
  Support_Vector restrained_dofs nodes
  = Ok (map (fun p => Z.of_nat p + 1)
            (filter (fun p => flag_at restrained_dofs p ==. of_Z 1)
                    (seq 0 (3 * length nodes)))).
Proof.
  intros Hk Hflags.
  destruct (@flag_loop restrained_dofs (length nodes) Hk Hflags) as (dofs & Hfold & Hlen & Hnth).
  unfold Support_Vector. rewrite Hfold. cbn [bind]. f_equal.
  rewrite (enumerate_filter dofs (fun x => x ==. of_Z 1)), Hlen.
  f_equal. apply filter_ext_in. intros p Hp. apply in_seq in Hp.
  rewrite Hnth by lia. reflexivity.
Qed.

Lemma Assemble_Force_Vector_full (forces : dict (@point F))
    (nodes : dict (@point F)) :
  (forall k, In k (keys forces) -> 1 <= k <= Z.of_nat (length nodes)) ->
  exists f : @vec F,
    length f = (3 * length nodes)%nat /\
    (forall p, (p < 3 * length nodes)%nat -> nth p f s0 = load_at forces p) /\
    forall restrained_dofs,
      Assemble_Force_Vector forces restrained_dofs nodes
      = np_delete f (map (fun j => j - 1) restrained_dofs).
Proof.
  intros Hk.
  destruct (@force_loop forces (length nodes) Hk) as (f & Hfold & Hlen & Hnth).
  exists f. split; [exact Hlen|]. split; [exact Hnth|].
  intros restrained_dofs. unfold Assemble_Force_Vector. rewrite Hfold. reflexivity.
Qed.

(** X5: when every loaded node is one of 1..N and the restrained indices
    lie in 1..3N, [__Assemble_Force_Vector] returns the loads at the free
    positions in ascending order: the component of the load of the node
    the position belongs to, zero for a node without load. *)
Theorem Assemble_Force_Vector_value (forces : dict (@point F))
    (restrained_dofs : list Z) (nodes : dict (@point F)) :
  (forall k, In k (keys forces) -> 1 <= k <= Z.of_nat (length nodes)) ->
  (forall i, In i restrained_dofs -> 1 <= i <= Z.of_nat (3 * length nodes)) ->
  Assemble_Force_Vector forces restrained_dofs nodes
  = Ok (map (load_at forces) (free_positions restrained_dofs (3 * length nodes))).
Proof.
  intros Hk HSV.
  destruct (Assemble_Force_Vector_full forces nodes Hk) as (f & Hlen & Hnth & ->).
  rewrite (np_delete_keeps_free f restrained_dofs s0) by (rewrite Hlen; exact HSV).
  f_equal. rewrite Hlen. apply map_ext_in. intros p Hp.
  apply free_positions_lt in Hp. apply Hnth. exact Hp.
Qed.

End Scatter.

Lemma Support_Vector_value_witness :
  Support_Vector [(1, [1; 1]%float); (2, [0; 1]%float)] Examples.bar_nodes
  = Ok [1; 2; 3; 5; 6].
Proof.
  rewrite (@Support_Vector_value float float64
             [(1, [1; 1]%float); (2, [0; 1]%float)] Examples.bar_nodes).
  - reflexivity.
  - intros k Hk. cbn in Hk |- * . lia.
  - intros k flags. cbn [dict_find].
    destruct (1 =? k); [intros H; injection H as <-; cbn; lia|].
    destruct (2 =? k); [intros H; injection H as <-; cbn; lia|discriminate].
Defined.

Lemma Assemble_Force_Vector_value_witness :
  Assemble_Force_Vector Examples.bar_forces [1; 2; 3; 5; 6] Examples.bar_nodes
  = Ok [(-50)%float].
Proof.
  rewrite (@Assemble_Force_Vector_value float float64 Examples.bar_forces
             [1; 2; 3; 5; 6] Examples.bar_nodes).
  - reflexivity.
  - intros k Hk. cbn in Hk |- * . lia.
  - intros i Hi. cbn [In] in Hi. cbn. lia.
Defined.


(** ** What [Solve] holds when it reaches its assignments *)

Lemma filter_seq_sorted (g : nat -> bool) (n : nat) :
  forall a, StronglySorted Z.lt
              (map (fun p => Z.of_nat p + 1) (filter g (seq a n))) /\
            forall i, In i (map (fun p => Z.of_nat p + 1) (filter g (seq a n))) ->
                      Z.of_nat a + 1 <= i <= Z.of_nat (a + n).
Proof.
  induction n as [|n IH]; intros a.
  - simpl. split; [constructor | tauto].
  - destruct (IH (S a)) as [Hs Hr]. cbn [seq filter].
    destruct (g a); cbn [map].
    + split.
      * constructor; [exact Hs|]. apply Forall_forall. intros i Hi.
        apply Hr in Hi. lia.
      * intros i [<-|Hi]; [lia|]. apply Hr in Hi. lia.
    + split; [exact Hs|]. intros i Hi. apply Hr in Hi. lia.
Qed.

Section SolveFacts.
Context {F : Type} {SF : Scalar F}.

Lemma Support_Vector_dofs (restrained_dofs : dict (list F))
    (nodes : dict (@point F)) (sv : list Z) :
  Support_Vector restrained_dofs nodes = Ok sv ->
  exists dofs : @vec F,
    length dofs = (3 * length nodes)%nat /\
    sv = map (fun p => Z.of_nat p + 1)
             (filter (fun p => nth p dofs s0 ==. of_Z 1)
                     (seq 0 (3 * length nodes))).
Proof.
  intros H. unfold Support_Vector in H. apply bind_Ok in H as (dofs & H & Hsv).
  apply (@foldM_invariant _ _ _
           (fun dofs : @vec F => length dofs = (3 * length nodes)%nat)
           (fun _ => True)) in H.
  - destruct H as [Hlen _]. exists dofs. split; [exact Hlen|].
    injection Hsv as <-.
    rewrite (enumerate_filter dofs (fun x => x ==. of_Z 1)), Hlen. reflexivity.
  - clear. intros dofs dof dofs' Hlen Hstep.
    apply bind_Ok in Hstep as (flags & _ & Hstep).
    apply bind_Ok in Hstep as (f0 & _ & Hstep).
    apply bind_Ok in Hstep as (d1 & H1 & Hstep).
    apply bind_Ok in Hstep as (f1 & _ & Hstep).
    apply bind_Ok in Hstep as (d2 & H2 & Hstep).
    apply bind_Ok in Hstep as (f1' & _ & H3).
    apply np_set_length in H1 as [L1 R1], H2 as [L2 R2], H3 as [L3 R3].
    split; [congruence|exact I].
  - apply repeat_length.
Qed.

Lemma Support_Vector_range (restrained_dofs : dict (list F))
    (nodes : dict (@point F)) (sv : list Z) :
  Support_Vector restrained_dofs nodes = Ok sv ->
  forall i, In i sv -> 1 <= i <= Z.of_nat (3 * length nodes).
Proof.
  intros H. apply Support_Vector_dofs in H as (dofs & _ & ->).
  apply (filter_seq_sorted (fun p => nth p dofs s0 ==. of_Z 1)
                           (3 * length nodes) 0).
Qed.

(** X6: whatever the supports are, the list [__Support_Vector] returns is
    strictly ascending, hence without repetition, and its entries lie in
    1..3N. *)
Theorem Support_Vector_ascending (restrained_dofs : dict (list F))
    (nodes : dict (@point F)) (sv : list Z) :
  Support_Vector restrained_dofs nodes = Ok sv ->
  StronglySorted Z.lt sv /\
  forall i, In i sv -> 1 <= i <= Z.of_nat (3 * length nodes).
Proof.
  intros H. apply Support_Vector_dofs in H as (dofs & _ & ->).
  apply (filter_seq_sorted (fun p => nth p dofs s0 ==. of_Z 1)
                           (3 * length nodes) 0).
Qed.

Lemma expansion_needs (SV : list Z) (u : @vec F) (m : nat) :
  forall (a : nat) (zs dv : @vec F) st,
    length zs = m -> (a + m <= length dv)%nat -> (rank SV a <= length u)%nat ->
    foldM (expansion_step SV u) (combine (map Z.of_nat (seq a m)) zs)
          (dv, Z.of_nat (rank SV a)) = Ok st ->
    (rank SV (a + m) <= length u)%nat.
Proof.
  induction m as [|m IH]; intros a zs dv st Hzs Hlen Hu Hfold.
  - rewrite Nat.add_0_r. exact Hu.
  - destruct zs as [|z zs]; [discriminate|]. simpl in Hzs.
    cbn [seq map combine foldM] in Hfold.
    assert (Hr : (rank SV (S a) <= length u)%nat).
    { rewrite rank_S. destruct (restrained SV a) eqn:Er; [exact Hu|].
      apply bind_Ok in Hfold as (st1 & Hstep & _).
      unfold expansion_step in Hstep. cbn [fst] in Hstep.
      unfold restrained in Er. rewrite Er in Hstep.
      apply bind_Ok in Hstep as (d & Hd & _).
      unfold py_index in Hd. apply bind_Ok in Hd as (k & Hk & _).
      apply norm_index_Ok in Hk. lia. }
    rewrite expansion_step_at in Hfold by (try exact Hr; lia).
    cbn [bind] in Hfold.
    replace (a + S m)%nat with (S a + m)%nat by lia.
    eapply (IH (S a) zs); [lia| |exact Hr|exact Hfold].
    rewrite list_set_length. lia.
Qed.

Lemma Truss_Global_Displacement_Ok (u : @vec F) (SV : list Z)
    (nodes : dict (@point F)) (v : @vec F) :
  Truss_Global_Displacement u SV nodes = Ok v ->
  v = map (expanded_entry SV u) (seq 0 (3 * length nodes)).
Proof.
  intros H.
  assert (Hu : (length (free_positions SV (3 * length nodes)) <= length u)%nat).
  { unfold Truss_Global_Displacement in H.
    apply bind_Ok in H as ([dv j] & Hfold & _).
    unfold enumerate in Hfold.
    replace (length (np_zeros (3 * length nodes))) with (3 * length nodes)%nat
      in Hfold by (symmetry; apply repeat_length).
    apply (@expansion_needs SV u (3 * length nodes) 0
             (np_zeros (3 * length nodes)) (np_zeros (3 * length nodes)) (dv, j)).
    - apply repeat_length.
    - unfold np_zeros. rewrite repeat_length. lia.
    - cbn. lia.
    - exact Hfold. }
  rewrite (Truss_Global_Displacement_value u SV nodes Hu) in H.
  injection H as <-. reflexivity.
Qed.

Lemma assemble_all_shape (n : nat) (elements : dict (Z * Z))
    (k_elems : list (@mat F)) (K K' : @mat F) :
  shape n n K -> assemble_all elements k_elems K = Ok K' -> shape n n K'.
Proof.
  intros HK H. unfold assemble_all in H.
  apply (@foldM_invariant _ _ _ (shape n n) (fun _ => True)) in H; auto.
  - tauto.
  - clear. intros M i_ M' HM Hstep.
    apply bind_Ok in Hstep as (k & _ & Hstep).
    apply bind_Ok in Hstep as ([a b] & Ha & Hstep).
    apply bind_Ok in Hstep as ([a' b'] & Hb & Hstep).
    pose proof (Assemble_Global_Stiffness_spec k a b' HM) as Hspec.
    destruct (mapM (norm_index n) (block_dofs a b')) as [idx|e] eqn:Hidx.
    + destruct Hspec as (M1 & HM1 & Hs & _).
      rewrite HM1 in Hstep. injection Hstep as <-. split; [exact Hs|exact I].
    + rewrite Hspec in Hstep. discriminate.
Qed.

Lemma second_of_each_keys (elements : dict (Z * Z)) (per_element : list (@vec F))
    (mapping : dict F) :
  second_of_each elements per_element = Ok mapping ->
  keys mapping = keys elements.
Proof.
  unfold second_of_each. generalize (keys elements) as ks.
  intros ks; revert mapping.
  induction ks as [|k ks IH]; intros mapping H; simpl in H.
  - injection H as <-. reflexivity.
  - apply bind_Ok in H as ([k' x] & Hk & H).
    apply bind_Ok in H as (rest & Hrest & H). injection H as <-.
    apply bind_Ok in Hk as (pr & _ & Hk).
    apply bind_Ok in Hk as (y & _ & Hk). injection Hk as <- <-.
    cbn [keys map fst]. f_equal. apply IH. exact Hrest.
Qed.

(** X7: when [Solve] reaches its assignments, the global matrix is 3N by
    3N, the displacement and the reaction vectors have 3N entries, there
    is one length for each element, and the member-force and member-stress
    mappings have the keys of the elements, in their order. *)
Theorem Solve_steps_sizes (self : @Truss_3D F) (s : @solution F) :
  Solve_steps self = Ok s ->
  let n := (3 * length (nodes self))%nat in
  shape n n (sol_K_global s) /\
  length (sol_displacements s) = n /\
  length (sol_reactions s) = n /\
  length (sol_member_lengths s) = length (elements self) /\
  keys (sol_member_forces s) = keys (elements self) /\
  keys (sol_member_stresses s) = keys (elements self).
Proof.
  intros H n. unfold Solve_steps in H.
  apply bind_Ok in H as (member_lengths & Hml & H).
  apply bind_Ok in H as (k_elems & _ & H).
  apply bind_Ok in H as (K_global & HK & H).
  apply bind_Ok in H as (sv & _ & H).
  apply bind_Ok in H as (K_new & _ & H).
  apply bind_Ok in H as (f_new & _ & H).
  apply bind_Ok in H as (K_inv & _ & H).
  apply bind_Ok in H as (gd & Hgd & H).
  apply bind_Ok in H as (eds & _ & H).
  apply bind_Ok in H as (mfs & _ & H).
  apply bind_Ok in H as (mf_map & Hmf & H).
  apply bind_Ok in H as (mss & _ & H).
  apply bind_Ok in H as (ms_map & Hms & H).
  injection H as <-.
  cbn [sol_K_global sol_displacements sol_reactions sol_member_lengths
       sol_member_forces sol_member_stresses].
  assert (HKs : shape n n K_global).
  { eapply assemble_all_shape; [|exact HK]. apply shape_zeros. }
  split; [exact HKs|].
  apply Truss_Global_Displacement_Ok in Hgd.
  split; [rewrite Hgd, length_map, length_seq; reflexivity|].
  split.
  { unfold Solve_Reactions, mat_vec. rewrite !length_map. apply HKs. }
  split.
  { rewrite (mapM_length _ _ Hml). unfold keys. apply length_map. }
  split; eapply second_of_each_keys; eauto.
Qed.

(** X8: in the displacement vector [Solve] computes, every DOF that
    [__Support_Vector] reports as restrained holds zero. *)
Theorem Solve_steps_supports_hold (self : @Truss_3D F) (s : @solution F) :
  Solve_steps self = Ok s ->
  exists sv,
    Support_Vector (supports self) (nodes self) = Ok sv /\
    forall i, In i sv -> py_index (sol_displacements s) (i - 1) = Ok s0.
Proof.
  intros H. unfold Solve_steps in H.
  apply bind_Ok in H as (member_lengths & _ & H).
  apply bind_Ok in H as (k_elems & _ & H).
  apply bind_Ok in H as (K_global & _ & H).
  apply bind_Ok in H as (sv & Hsv & H).
  apply bind_Ok in H as (K_new & _ & H).
  apply bind_Ok in H as (f_new & _ & H).
  apply bind_Ok in H as (K_inv & _ & H).
  apply bind_Ok in H as (gd & Hgd & H).
  apply bind_Ok in H as (eds & _ & H).
  apply bind_Ok in H as (mfs & _ & H).
  apply bind_Ok in H as (mf_map & _ & H).
  apply bind_Ok in H as (mss & _ & H).
  apply bind_Ok in H as (ms_map & _ & H).
  injection H as <-. cbn [sol_displacements].
  exists sv. split; [exact Hsv|]. intros i Hi.
  pose proof (Support_Vector_range _ _ Hsv) as Hrange.
  pose proof (Hrange i Hi) as Hr.
  apply Truss_Global_Displacement_Ok in Hgd. subst gd.
  replace (i - 1) with (Z.of_nat (Z.to_nat (i - 1))) by lia.
  rewrite (py_index_nat _ s0) by (rewrite length_map, length_seq; lia).
  f_equal.
  rewrite (nth_map_lt (expanded_entry sv _) _ _ O) by (rewrite length_seq; lia).
  rewrite seq_nth by lia. cbn [Nat.add].
  unfold expanded_entry.
  replace (restrained sv (Z.to_nat (i - 1))) with true; [reflexivity|].
  symmetry. unfold restrained. apply existsb_exists.
  exists (i - 1). split; [apply in_map_iff; exists i; auto|].
  apply Z.eqb_eq. lia.
Qed.

End SolveFacts.

Lemma Support_Vector_ascending_witness :
  StronglySorted Z.lt [1; 2; 3; 5; 6] /\
  forall i, In i [1; 2; 3; 5; 6] -> 1 <= i <= Z.of_nat (3 * length Examples.bar_nodes).
Proof.
  apply (@Support_Vector_ascending float float64
           [(1, [1; 1]%float); (2, [0; 1]%float)] Examples.bar_nodes).
  reflexivity.
Defined.

Lemma Solve_steps_sizes_witness :
  exists s,
    Solve_steps Examples.bar_guided = Ok s /\
    shape 6 6 (sol_K_global s) /\
    length (sol_displacements s) = 6%nat /\
    length (sol_reactions s) = 6%nat /\
    keys (sol_member_forces s) = [1].
Proof.
  assert (Hs : exists s, Solve_steps Examples.bar_guided = Ok s)
    by (eexists; vm_compute; reflexivity).
  destruct Hs as (s & Hs). exists s. split; [exact Hs|].
  destruct (@Solve_steps_sizes float float64 Examples.bar_guided s Hs)
    as (HK & Hd & Hr & _ & Hf & _).
  auto.
Defined.

Lemma Solve_steps_supports_hold_witness :
  exists s sv,
    Solve_steps Examples.bar_guided = Ok s /\
    Support_Vector (supports Examples.bar_guided) (nodes Examples.bar_guided) = Ok sv /\
    forall i, In i sv -> py_index (sol_displacements s) (i - 1) = Ok (@s0 float float64).
Proof.
  assert (Hs : exists s, Solve_steps Examples.bar_guided = Ok s)
    by (eexists; vm_compute; reflexivity).
  destruct Hs as (s & Hs).
  destruct (@Solve_steps_supports_hold float float64 Examples.bar_guided s Hs)
    as (sv & Hsv & Hzero).
  exists s, sv. auto.
Defined.


(** ** The block an element adds *)

Lemma last_where_sat (h : nat -> bool) (l : list nat) (y : nat) :
  last_where h l = Some y -> In y l /\ h y = true.
Proof.
  revert y. induction l as [|z t IH]; [discriminate|].
  cbn [last_where]. intros y. destruct (last_where h t) as [w|].
  - intros E. injection E as E. subst y.
    destruct (IH w eq_refl). split; [right|]; auto.
  - destruct (h z) eqn:Ez; [|discriminate].
    intros E. injection E as E. subst y. split; [left|]; auto.
Qed.

Lemma last_where_unique (h : nat -> bool) (l : list nat) (p : nat) :
  In p l -> h p = true -> (forall x, In x l -> h x = true -> x = p) ->
  last_where h l = Some p.
Proof.
  induction l as [|x t IH]; [intros []|].
  intros Hin Hp Hu. cbn [last_where].
  destruct (last_where h t) as [y|] eqn:Ey.
  - apply last_where_sat in Ey as [Hy1 Hy2].
    f_equal. apply Hu; [right|]; assumption.
  - destruct Hin as [->|Hin].
    + rewrite Hp. reflexivity.
    + assert (E : @None nat = Some p); [|discriminate E].
      apply IH; try assumption. intros y Hy. apply Hu. right; exact Hy.
Qed.

Lemma last_where_none (h : nat -> bool) (l : list nat) :
  (forall x, In x l -> h x = false) -> last_where h l = None.
Proof.
  induction l as [|x t IH]; [reflexivity|]. intros H. cbn [last_where].
  rewrite IH by (intros; apply H; right; assumption).
  rewrite (H x (or_introl eq_refl)). reflexivity.
Qed.

Section Blocks.
Context {F : Type} {SF : Scalar F}.

Lemma fold_row (h1 h2 : nat -> bool) (g : nat -> nat -> F) (p : nat) (l2 : list nat) :
  forall d,
    fold_left (fun acc pq => if h1 (fst pq) && h2 (snd pq)
                             then Some (g (fst pq) (snd pq)) else acc)
              (map (fun y => (p, y)) l2) d
    = if h1 p then match last_where h2 l2 with
                   | Some q => Some (g p q)
                   | None => d
                   end
      else d.
Proof.
  induction l2 as [|x t IH]; intros d; cbn [map fold_left last_where fst snd].
  - destruct (h1 p); reflexivity.
  - rewrite IH. destruct (h1 p); cbn [andb]; [|reflexivity].
    destruct (last_where h2 t); [reflexivity|]. destruct (h2 x); reflexivity.
Qed.

Lemma fold_prod (h1 h2 : nat -> bool) (g : nat -> nat -> F) (l1 l2 : list nat) :
  forall d,
    fold_left (fun acc pq => if h1 (fst pq) && h2 (snd pq)
                             then Some (g (fst pq) (snd pq)) else acc)
              (list_prod l1 l2) d
    = match last_where h1 l1, last_where h2 l2 with
      | Some p, Some q => Some (g p q)
      | _, _ => d
      end.
Proof.
  induction l1 as [|x t IH]; intros d; cbn [list_prod fold_left last_where].
  - reflexivity.
  - rewrite fold_left_app, IH, fold_row.
    destruct (last_where h1 t); destruct (h1 x);
      destruct (last_where h2 l2); reflexivity.
Qed.

Lemma block_delta_last (idx : list nat) (k : @mat F) (r c : nat) :
  block_delta idx k r c
  = match last_where (fun p => (nth p idx O =? r)%nat) (seq 0 6),
          last_where (fun q => (nth q idx O =? c)%nat) (seq 0 6) with
    | Some p, Some q => Some (mat_get k p q)
    | _, _ => None
    end.
Proof.
  unfold block_delta, block_positions, hits.
  apply (fold_prod (fun p => (nth p idx O =? r)%nat)
                   (fun q => (nth q idx O =? c)%nat) (mat_get k)).
Qed.

Lemma block_delta_at (idx : list nat) (k : @mat F) (p q : nat) :
  NoDup idx -> length idx = 6%nat -> (p < 6)%nat -> (q < 6)%nat ->
  block_delta idx k (nth p idx O) (nth q idx O) = Some (mat_get k p q).
Proof.
  intros Hnd Hlen Hp Hq. rewrite block_delta_last.
  rewrite (@last_where_unique _ (seq 0 6) p), (@last_where_unique _ (seq 0 6) q);
    try reflexivity; try (apply in_seq; lia); try apply Nat.eqb_refl.
  - intros x Hx E. apply in_seq in Hx. apply Nat.eqb_eq in E.
    apply (proj1 (NoDup_nth idx O) Hnd); lia.
  - intros x Hx E. apply in_seq in Hx. apply Nat.eqb_eq in E.
    apply (proj1 (NoDup_nth idx O) Hnd); lia.
Qed.

Lemma block_delta_off (idx : list nat) (k : @mat F) (r c : nat) :
  length idx = 6%nat -> ~ In r idx \/ ~ In c idx -> block_delta idx k r c = None.
Proof.
  intros Hlen H. rewrite block_delta_last.
  destruct H as [H|H].
  - rewrite last_where_none; [reflexivity|].
    intros x Hx. apply in_seq in Hx. apply Nat.eqb_neq. intros E. apply H.
    rewrite <- E. apply nth_In. lia.
  - rewrite (@last_where_none (fun q => (nth q idx O =? c)%nat)).
    + destruct (last_where _ _); reflexivity.
    + intros x Hx. apply in_seq in Hx. apply Nat.eqb_neq. intros E. apply H.
      rewrite <- E. apply nth_In. lia.
Qed.

Lemma block_dofs_nat (N : nat) (i j : Z) :
  1 <= i <= Z.of_nat N -> 1 <= j <= Z.of_nat N ->
  mapM (norm_index (3 * N)) (block_dofs i j) = Ok (map Z.to_nat (block_dofs i j)).
Proof.
  intros Hi Hj. apply mapM_norm_index_valid. unfold block_dofs.
  intros x Hx. cbn [In] in Hx. lia.
Qed.

Lemma block_dofs_NoDup (i j : Z) :
  1 <= i -> 1 <= j -> i <> j -> NoDup (map Z.to_nat (block_dofs i j)).
Proof.
  intros Hi Hj Hne. unfold block_dofs. cbn [map].
  repeat (constructor; [cbn [In]; lia|]). constructor.
Qed.

Lemma Assemble_Global_Stiffness_at (N : nat) (K k : @mat F) (i j : Z) :
  shape (3 * N) (3 * N) K ->
  1 <= i <= Z.of_nat N -> 1 <= j <= Z.of_nat N ->
  exists K',
    Assemble_Global_Stiffness K k i j = Ok K' /\
    shape (3 * N) (3 * N) K' /\
    forall r c,
      mat_get K' r c
      = plus_delta (mat_get K r c)
                   (block_delta (map Z.to_nat (block_dofs i j)) k r c).
Proof.
  intros HK Hi Hj.
  pose proof (Assemble_Global_Stiffness_spec k i j HK) as Hspec.
  rewrite (@block_dofs_nat N i j Hi Hj) in Hspec. exact Hspec.
Qed.

(** X9: for two different nodes of 1..N, [__Assemble_Global_Stiffness]
    adds entry [(p, q)] of the block to the entry of the global matrix at
    row [dofs[p]] and column [dofs[q]], keeps the shape, and leaves every
    entry outside these six rows and six columns as it was. *)
Theorem Assemble_Global_Stiffness_adds_block (N : nat) (K k : @mat F) (i j : Z) :
  shape (3 * N) (3 * N) K ->
  1 <= i <= Z.of_nat N -> 1 <= j <= Z.of_nat N -> i <> j ->
  let dofs := map Z.to_nat (block_dofs i j) in
  exists K',
    Assemble_Global_Stiffness K k i j = Ok K' /\
    shape (3 * N) (3 * N) K' /\
    (forall p q, (p < 6)%nat -> (q < 6)%nat ->
       mat_get K' (nth p dofs O) (nth q dofs O)
       = mat_get K (nth p dofs O) (nth q dofs O) +. mat_get k p q) /\
    (forall r c, ~ In r dofs \/ ~ In c dofs -> mat_get K' r c = mat_get K r c).
Proof.
  intros HK Hi Hj Hne dofs.
  destruct (@Assemble_Global_Stiffness_at N K k i j HK Hi Hj)
    as (K' & HK' & Hs & Hget).
  fold dofs in Hget.
  exists K'. split; [exact HK'|]. split; [exact Hs|]. split.
  - intros p q Hp Hq. rewrite Hget.
    rewrite block_delta_at; try assumption; try reflexivity.
    apply block_dofs_NoDup; lia.
  - intros r c H. rewrite Hget, block_delta_off; [reflexivity|reflexivity|exact H].
Qed.

(** X10: an element from a node to itself.  The index list names every
    position of the node's 3 by 3 block four times; the sums are written
    one after the other and the last one stays, so the block of the far
    end alone is added, not the sum of the four blocks. *)
Theorem Assemble_Global_Stiffness_same_node (N : nat) (K k : @mat F) (i : Z) :
  shape (3 * N) (3 * N) K -> 1 <= i <= Z.of_nat N ->
  exists K',
    Assemble_Global_Stiffness K k i i = Ok K' /\
    forall a b, (a < 3)%nat -> (b < 3)%nat ->
      mat_get K' (Z.to_nat (3 * i - 3) + a) (Z.to_nat (3 * i - 3) + b)
      = mat_get K (Z.to_nat (3 * i - 3) + a) (Z.to_nat (3 * i - 3) + b)
        +. mat_get k (3 + a) (3 + b).
Proof.
  intros HK Hi.
  pose proof (Assemble_Global_Stiffness_spec k i i HK) as Hspec.
  rewrite (@block_dofs_nat N i i Hi Hi) in Hspec.
  destruct Hspec as (K' & HK' & Hs & Hget).
  exists K'. split; [exact HK'|].
  intros a b Ha Hb. rewrite Hget, block_delta_last.
  unfold block_dofs. cbn [map].
  set (m := Z.to_nat (3 * i - 3)).
  replace (Z.to_nat (3 * i - 2)) with (m + 1)%nat by lia.
  replace (Z.to_nat (3 * i - 1)) with (m + 2)%nat by lia.
  assert (L : forall x, (x < 3)%nat ->
            last_where (fun p => (nth p [m; m + 1; m + 2; m; m + 1; m + 2]%nat O
                                  =? m + x)%nat) (seq 0 6)
            = Some (3 + x)%nat).
  { intros x Hx. cbn [seq last_where nth].
    destruct x as [|[|[|x]]]; [| | |lia];
      repeat match goal with
             | |- context [(?u =? ?v)%nat] =>
                 destruct (Nat.eqb_spec u v); try lia
             end; reflexivity. }
  rewrite (L a Ha), (L b Hb). reflexivity.
Qed.

End Blocks.

Lemma Assemble_Global_Stiffness_adds_block_witness :
  exists K',
    Assemble_Global_Stiffness (@np_zeros2 float float64 6 6)
                              (Examples.stiffness_along_x 20%float) 1 2 = Ok K' /\
    mat_get K' 0 3
    = mat_get (@np_zeros2 float float64 6 6) 0 3
      +. mat_get (Examples.stiffness_along_x 20%float) 0 3.
Proof.
  destruct (@Assemble_Global_Stiffness_adds_block float float64 2
              (@np_zeros2 float float64 6 6)
              (Examples.stiffness_along_x 20%float) 1 2)
    as (K' & HK' & _ & Hin & _).
  - split; [reflexivity|repeat constructor].
  - cbn; lia.
  - cbn; lia.
  - lia.
  - exists K'. split; [exact HK'|]. apply (Hin 0%nat 3%nat); lia.
Defined.

Lemma Assemble_Global_Stiffness_same_node_witness :
  exists K',
    Assemble_Global_Stiffness (@np_zeros2 float float64 6 6)
                              (Examples.stiffness_along_x 20%float) 1 1 = Ok K' /\
    mat_get K' 0 0
    = mat_get (@np_zeros2 float float64 6 6) 0 0
      +. mat_get (Examples.stiffness_along_x 20%float) 3 3.
Proof.
  destruct (@Assemble_Global_Stiffness_same_node float float64 2
              (@np_zeros2 float float64 6 6)
              (Examples.stiffness_along_x 20%float) 1)
    as (K' & HK' & Hin).
  - split; [reflexivity|repeat constructor].
  - cbn; lia.
  - exists K'. split; [exact HK'|]. apply (Hin 0%nat 0%nat); lia.
Defined.


(** ** Symmetry, missing data and the displacements of an element *)

Lemma py_index_In {A : Type} (l : list A) (i : Z) (a : A) :
  py_index l i = Ok a -> In a l.
Proof.
  unfold py_index. intros H. apply bind_Ok in H as (n & _ & H).
  destruct (nth_error l n) eqn:E; [|discriminate].
  injection H as <-. eapply nth_error_In; eauto.
Qed.

Lemma mapM_results {A B : Type} (f : A -> Result B) (xs : list A) (ys : list B) :
  mapM f xs = Ok ys -> forall y, In y ys -> exists x, In x xs /\ f x = Ok y.
Proof.
  revert ys; induction xs as [|x xs IH]; simpl; intros ys H.
  - injection H as <-. intros y [].
  - apply bind_Ok in H as (y0 & Hy0 & H).
    apply bind_Ok in H as (ys' & Hys & H). injection H as <-.
    intros y [<-|Hy]; [eauto|].
    destruct (IH _ Hys y Hy) as (x' & Hx' & Hf). eauto.
Qed.

Section Symmetry.
Context {F : Type} {SF : Scalar F}.

Lemma zeros_symmetric (n m : nat) : symmetric_entries (@np_zeros2 F SF n m).
Proof.
  assert (Z0 : forall r c, mat_get (@np_zeros2 F SF n m) r c = s0).
  { intros r c. unfold mat_get, np_zeros2, np_zeros.
    destruct (Nat.lt_ge_cases r n) as [Hr|Hr].
    - rewrite nth_repeat_lt by exact Hr. apply nth_repeat.
    - rewrite (nth_overflow (repeat (repeat s0 m) n) [])
        by (rewrite repeat_length; exact Hr).
      destruct c; reflexivity. }
  intros r c. rewrite !Z0. reflexivity.
Qed.

Lemma block_delta_symmetric (idx : list nat) (k : @mat F) (r c : nat) :
  symmetric_entries k -> block_delta idx k r c = block_delta idx k c r.
Proof.
  intros Hsk. rewrite !block_delta_last.
  destruct (last_where (fun p => (nth p idx O =? r)%nat) (seq 0 6)) as [p|];
    destruct (last_where (fun q => (nth q idx O =? c)%nat) (seq 0 6)) as [q|];
    try reflexivity.
  f_equal. apply Hsk.
Qed.

Lemma symmetric_after_block (idx : list nat) (K k K' : @mat F) :
  symmetric_entries K -> symmetric_entries k ->
  (forall r c, mat_get K' r c
               = plus_delta (mat_get K r c) (block_delta idx k r c)) ->
  symmetric_entries K'.
Proof.
  intros HsK Hsk Hget r c.
  rewrite !Hget, (HsK r c), (@block_delta_symmetric idx k r c Hsk). reflexivity.
Qed.

(** X11: adding a symmetric block to a symmetric square matrix gives a
    symmetric matrix, whatever the two nodes are (equal, or named by a
    negative index). *)
Theorem Assemble_Global_Stiffness_symmetric (n : nat) (K k K' : @mat F) (i j : Z) :
  shape n n K -> symmetric_entries K -> symmetric_entries k ->
  Assemble_Global_Stiffness K k i j = Ok K' ->
  symmetric_entries K'.
Proof.
  intros HK HsK Hsk H.
  pose proof (Assemble_Global_Stiffness_spec k i j HK) as Hspec.
  destruct (mapM (norm_index n) (block_dofs i j)) as [idx|e].
  - destruct Hspec as (K1 & HK1 & _ & Hget).
    rewrite HK1 in H. injection H as <-.
    exact (@symmetric_after_block idx K k K1 HsK Hsk Hget).
  - rewrite Hspec in H. discriminate.
Qed.

Lemma assemble_all_symmetric (n : nat) (elements : dict (Z * Z))
    (k_elems : list (@mat F)) (K K' : @mat F) :
  shape n n K -> symmetric_entries K ->
  (forall k, In k k_elems -> symmetric_entries k) ->
  assemble_all elements k_elems K = Ok K' ->
  symmetric_entries K'.
Proof.
  intros HK HsK Hks H. unfold assemble_all in H.
  apply (@foldM_invariant _ _ _
           (fun M => shape n n M /\ symmetric_entries M) (fun _ => True)) in H.
  - tauto.
  - clear - Hks. intros M i_ M' [HM HsM] Hstep.
    apply bind_Ok in Hstep as (k & Hk & Hstep).
    apply bind_Ok in Hstep as ([a b] & Ha & Hstep).
    apply bind_Ok in Hstep as ([a' b'] & Hb & Hstep).
    split; [|exact I].
    pose proof (Assemble_Global_Stiffness_spec k a b' HM) as Hspec.
    destruct (mapM (norm_index n) (block_dofs a b')) as [idx|e].
    + destruct Hspec as (M1 & HM1 & Hs & Hget).
      rewrite HM1 in Hstep. injection Hstep as <-.
      split; [exact Hs|].
      apply (@symmetric_after_block idx M k M1 HsM); [|exact Hget].
      apply Hks. eapply py_index_In; eauto.
    + rewrite Hspec in Hstep. discriminate.
  - split; assumption.
Qed.

End Symmetry.

Lemma stiffness_along_x_symmetric (kappa : float) :
  symmetric_entries (Examples.stiffness_along_x kappa).
Proof.
  intros r c. unfold mat_get.
  do 7 (destruct r as [|r]; [do 7 (destruct c as [|c]; [reflexivity|]);
                             destruct c; reflexivity|]).
  do 7 (destruct c as [|c]; [destruct r; reflexivity|]).
  destruct r, c; reflexivity.
Qed.

Lemma Assemble_Global_Stiffness_symmetric_witness :
  exists K',
    Assemble_Global_Stiffness (@np_zeros2 float float64 6 6)
                              (Examples.stiffness_along_x 20%float) 1 2 = Ok K' /\
    symmetric_entries K'.
Proof.
  eexists. split; [reflexivity|].
  apply (@Assemble_Global_Stiffness_symmetric float float64 6
           (@np_zeros2 float float64 6 6) (Examples.stiffness_along_x 20%float) _ 1 2).
  - split; [reflexivity|repeat constructor].
  - apply zeros_symmetric.
  - apply stiffness_along_x_symmetric.
  - reflexivity.
Defined.


Section Errors.
Context {F : Type} {SF : Scalar F}.

Lemma Assemble_Stiffness_Matrix_missing (element a b : Z)
    (elasticity area : dict F) (nodes : dict (@point F))
    (elements : dict (Z * Z)) :
  dict_find elements element = Some (a, b) ->
  dict_find nodes a = None \/ dict_find nodes b = None \/
  dict_find elasticity element = None \/ dict_find area element = None ->
  exists e,
    Assemble_Stiffness_Matrix element elasticity area nodes elements = Raise e.
Proof.
  intros Hel. unfold Assemble_Stiffness_Matrix, Direction_Cosines, dict_get.
  rewrite Hel. cbn [bind].
  destruct (dict_find nodes a) as [[[x1 y1] z1]|]; cbn [bind]; [|eauto].
  destruct (dict_find nodes b) as [[[x2 y2] z2]|]; cbn [bind]; [|eauto].
  destruct (dict_find elasticity element); cbn [bind]; [|eauto].
  destruct (dict_find area element); cbn [bind]; [|eauto].
  intros [H|[H|[H|H]]]; discriminate.
Qed.

Lemma mapM_Raise_exists {A B : Type} (f : A -> Result B) (xs : list A) :
  (exists x, In x xs /\ exists e, f x = Raise e) ->
  exists e, mapM f xs = Raise e.
Proof.
  induction xs as [|x xs IH]; intros (y & Hy & e & He); [destruct Hy|].
  cbn [mapM]. destruct (f x) as [b|e0] eqn:Ex; cbn [bind]; [|eauto].
  destruct Hy as [->|Hy]; [congruence|].
  destruct IH as (e1 & ->); [eauto|]. cbn [bind]. eauto.
Qed.

(** X13: a truss with an element that names an unknown node, or that has
    no modulus or no area: [Solve] raises in its first two steps, before
    it assigns any result, and the instance is as it was. *)
Theorem Solve_missing_data (self : @Truss_3D F) (element a b : Z) :
  dict_find (elements self) element = Some (a, b) ->
  dict_find (nodes self) a = None \/ dict_find (nodes self) b = None \/
  dict_find (elasticity self) element = None \/
  dict_find (cross_area self) element = None ->
  exists e, Solve_steps self = Raise e /\ Solve self = (self, Some e).
Proof.
  intros Hel Hmiss.
  assert (Hsteps : exists e, Solve_steps self = Raise e).
  { unfold Solve_steps. cbv zeta.
    destruct (mapM (fun element =>
                      '(_, _, _, L) <- Direction_Cosines element (nodes self)
                                                         (elements self) ;;
                      Ok L) (keys (elements self))) as [ml|e] eqn:E1;
      cbn [bind]; [|eauto].
    destruct (@mapM_Raise_exists _ _
                (fun element => Assemble_Stiffness_Matrix element
                   (elasticity self) (cross_area self) (nodes self)
                   (elements self)) (keys (elements self))) as (e & ->);
      [|cbn [bind]; eauto].
    exists element. split; [eapply dict_find_In; eauto|].
    eapply Assemble_Stiffness_Matrix_missing; eauto. }
  destruct Hsteps as (e & Hsteps). exists e. split; [exact Hsteps|].
  unfold Solve. rewrite Hsteps. reflexivity.
Qed.

(** X14: [__Element_Displacement] reads the global vector at the six
    positions at which [__Assemble_Global_Stiffness] places the rows and
    columns of the element, negative indices included, and rounds what it
    reads to five decimals; an index out of range raises [IndexError]. *)
Theorem Element_Displacement_gathers (element_number a b : Z)
    (global_displacement : @vec F) (elements : dict (Z * Z)) :
  dict_find elements element_number = Some (a, b) ->
  match mapM (norm_index (length global_displacement)) (block_dofs a b) with
  | Ok idx =>
      Element_Displacement element_number global_displacement elements
      = Ok (map (fun p => np_round5 (nth p global_displacement s0)) idx)
  | Raise _ =>
      Element_Displacement element_number global_displacement elements
      = Raise IndexError
  end.
Proof.
  intros Hel. unfold Element_Displacement, dict_get. rewrite Hel. cbn [bind].
  replace [3 * a - 2; 3 * a - 1; 3 * a; 3 * b - 2; 3 * b - 1; 3 * b]
    with (map (fun x => x + 1) (block_dofs a b))
    by (unfold block_dofs; cbn [map]; repeat (f_equal; try lia)).
  generalize (block_dofs a b) as l. intros l.
  assert (H : forall l,
            mapM (fun u_node => py_index global_displacement (u_node - 1))
                 (map (fun x => x + 1) l)
            = match mapM (norm_index (length global_displacement)) l with
              | Ok idx => Ok (map (fun p => nth p global_displacement s0) idx)
              | Raise _ => Raise IndexError
              end).
  { clear. induction l as [|x l IH]; [reflexivity|].
    cbn [map mapM]. replace (x + 1 - 1) with x by lia. rewrite IH.
    unfold py_index.
    destruct (norm_index (length global_displacement) x) as [n|e] eqn:En;
      cbn [bind].
    - apply norm_index_Ok in En as (Hn & _).
      rewrite (nth_error_nth' _ s0 Hn). cbn [bind].
      destruct (mapM (norm_index (length global_displacement)) l); reflexivity.
    - unfold norm_index in En.
      destruct ((0 <=? x) && (x <? Z.of_nat (length global_displacement)));
        [discriminate|].
      destruct ((- Z.of_nat (length global_displacement) <=? x) && (x <? 0));
        [discriminate|].
      injection En as <-. reflexivity. }
  rewrite H. destruct (mapM (norm_index (length global_displacement)) l);
    cbn [bind]; [|reflexivity].
  rewrite map_map. reflexivity.
Qed.

End Errors.

Lemma Solve_missing_data_witness :
  exists e,
    Solve_steps (init Examples.bar_nodes [(1, (1, 3))] [(1, [1; 1; 1]%float)]
                      Examples.bar_forces Examples.bar_E Examples.bar_A)
    = Raise e /\
    Solve (init Examples.bar_nodes [(1, (1, 3))] [(1, [1; 1; 1]%float)]
                Examples.bar_forces Examples.bar_E Examples.bar_A)
    = (init Examples.bar_nodes [(1, (1, 3))] [(1, [1; 1; 1]%float)]
            Examples.bar_forces Examples.bar_E Examples.bar_A, Some e).
Proof.
  apply (@Solve_missing_data float float64 _ 1 1 3).
  - reflexivity.
  - right; left; reflexivity.
Defined.

Lemma Element_Displacement_gathers_witness :
  match mapM (norm_index (length [0; 0; 0; -2.5; 0; 0]%float)) (block_dofs 1 2) with
  | Ok idx =>
      Element_Displacement 1 [0; 0; 0; -2.5; 0; 0]%float Examples.bar_elements
      = Ok (map (fun p => np_round5 (nth p [0; 0; 0; -2.5; 0; 0]%float s0)) idx)
  | Raise _ =>
      Element_Displacement 1 [0; 0; 0; -2.5; 0; 0]%float Examples.bar_elements
      = Raise IndexError
  end.
Proof.
  apply (@Element_Displacement_gathers float float64 1 1 2). reflexivity.
Defined.


(** ** Exact arithmetic: kinematics, symmetry, rounding *)

Section ExactKinematics.
Local Open Scope R_scope.

(** X15: in exact arithmetic, for two distinct end points the length is
    positive, the direction cosines form a unit vector, and the far end is
    the near end moved by the length along them. *)
Theorem Direction_Cosines_unit (element a b : Z) (nodes : dict (@point R))
    (elements : dict (Z * Z)) (x1 y1 z1 x2 y2 z2 : R) :
  dict_find elements element = Some (a, b) ->
  dict_find nodes a = Some (x1, y1, z1) ->
  dict_find nodes b = Some (x2, y2, z2) ->
  (x1, y1, z1) <> (x2, y2, z2) ->
  exists cx cy cz L,
    Direction_Cosines element nodes elements = Ok (cx, cy, cz, L) /\
    0 < L /\
    L * L = (x2 - x1) * (x2 - x1) + (y2 - y1) * (y2 - y1) + (z2 - z1) * (z2 - z1) /\
    cx * cx + cy * cy + cz * cz = 1 /\
    x2 = x1 + L * cx /\ y2 = y1 + L * cy /\ z2 = z1 + L * cz.
Proof.
  intros Hel Ha Hb Hne.
  unfold Direction_Cosines, dict_get. rewrite Hel. cbn [bind].
  rewrite Ha. cbn [bind]. rewrite Hb. cbn [bind].
  cbn [sadd ssub smul sdiv ssqrt exact].
  set (q := (x2 - x1) * (x2 - x1) + (y2 - y1) * (y2 - y1) + (z2 - z1) * (z2 - z1)).
  assert (Hq : 0 < q).
  { pose proof (Rle_0_sqr (x2 - x1)) as Hx.
    pose proof (Rle_0_sqr (y2 - y1)) as Hy.
    pose proof (Rle_0_sqr (z2 - z1)) as Hz.
    assert (Hd : x2 - x1 <> 0 \/ y2 - y1 <> 0 \/ z2 - z1 <> 0).
    { destruct (Req_dec x1 x2) as [Ex|Ex]; [|left; lra].
      destruct (Req_dec y1 y2) as [Ey|Ey]; [|right; left; lra].
      destruct (Req_dec z1 z2) as [Ez|Ez]; [congruence|right; right; lra]. }
    destruct Hd as [Hd|[Hd|Hd]]; apply Rsqr_pos_lt in Hd;
      unfold Rsqr in Hx, Hy, Hz, Hd; unfold q; lra. }
  assert (HL : 0 < sqrt q) by (apply sqrt_lt_R0; exact Hq).
  assert (HLL : sqrt q * sqrt q = q) by (apply sqrt_sqrt; lra).
  set (L := sqrt q) in HL, HLL |- * . clearbody L. subst q.
  exists ((x2 - x1) / L), ((y2 - y1) / L), ((z2 - z1) / L), L.
  split; [reflexivity|]. split; [exact HL|]. split; [exact HLL|].
  split; [|repeat split; field; lra].
  replace ((x2 - x1) / L * ((x2 - x1) / L) + (y2 - y1) / L * ((y2 - y1) / L)
           + (z2 - z1) / L * ((z2 - z1) / L))
    with (((x2 - x1) * (x2 - x1) + (y2 - y1) * (y2 - y1) + (z2 - z1) * (z2 - z1))
          / (L * L)) by (field; lra).
  rewrite <- HLL. field. lra.
Qed.

(** X16: in exact arithmetic, naming the two end nodes of an element in
    the other order keeps the length and turns the three direction cosines
    into their opposites. *)
Theorem Direction_Cosines_reversed (element a b : Z) (nodes : dict (@point R))
    (elements elements' : dict (Z * Z)) (cx cy cz L : R) :
  dict_find elements element = Some (a, b) ->
  dict_find elements' element = Some (b, a) ->
  Direction_Cosines element nodes elements = Ok (cx, cy, cz, L) ->
  Direction_Cosines element nodes elements' = Ok (- cx, - cy, - cz, L).
Proof.
  intros Hel Hel'. unfold Direction_Cosines, dict_get. rewrite Hel, Hel'.
  cbn [bind].
  destruct (dict_find nodes a) as [[[x1 y1] z1]|]; cbn [bind]; [|discriminate].
  destruct (dict_find nodes b) as [[[x2 y2] z2]|]; cbn [bind]; [|discriminate].
  cbn [sadd ssub smul sdiv ssqrt exact].
  intros H. injection H as <- <- <- <-.
  replace ((x1 - x2) * (x1 - x2) + (y1 - y2) * (y1 - y2) + (z1 - z2) * (z1 - z2))
    with ((x2 - x1) * (x2 - x1) + (y2 - y1) * (y2 - y1) + (z2 - z1) * (z2 - z1))
    by ring.
  unfold Rdiv. repeat f_equal; ring.
Qed.

Lemma Assemble_Stiffness_Matrix_symmetric (element : Z) (elasticity area : dict R)
    (nodes : dict (@point R)) (elements : dict (Z * Z)) (K : @mat R) :
  Assemble_Stiffness_Matrix element elasticity area nodes elements = Ok K ->
  symmetric_entries K.
Proof.
  unfold Assemble_Stiffness_Matrix. intros H.
  apply bind_Ok in H as ([[[cx cy] cz] L] & _ & H).
  apply bind_Ok in H as (E & _ & H).
  apply bind_Ok in H as (A & _ & H).
  injection H as <-.
  cbn [sadd smul sdiv exact]. set (kappa := E * A / L).
  intros r c. unfold mat_get.
  do 7 (destruct r as [|r]; [do 7 (destruct c as [|c]; [cbn; try ring|]);
                             destruct c; cbn; ring|]).
  do 7 (destruct c as [|c]; [destruct r; cbn; ring|]).
  destruct r, c; cbn; ring.
Qed.

(** X17: in exact arithmetic, steps 2 and 3 of [Solve] give a symmetric
    global stiffness matrix: the element matrices accumulated into the
    zero matrix, whatever the elements and their end nodes are. *)
Theorem global_stiffness_symmetric (elasticity area : dict R)
    (nodes : dict (@point R)) (elements : dict (Z * Z))
    (k_elems : list (@mat R)) (K_global : @mat R) :
  mapM (fun element =>
          Assemble_Stiffness_Matrix element elasticity area nodes elements)
       (keys elements) = Ok k_elems ->
  assemble_all elements k_elems
               (np_zeros2 (3 * length nodes) (3 * length nodes)) = Ok K_global ->
  symmetric_entries K_global.
Proof.
  intros Hk HK.
  eapply (@assemble_all_symmetric R exact); [| | |exact HK].
  - apply shape_zeros.
  - apply zeros_symmetric.
  - intros k Hin. destruct (mapM_results _ _ Hk k Hin) as (e & _ & He).
    eapply Assemble_Stiffness_Matrix_symmetric; eauto.
Qed.

(** Hence the matrix [Solve] stores in [K_global_] is symmetric. *)
Corollary Solve_steps_K_symmetric (self : @Truss_3D R) (s : @solution R) :
  Solve_steps self = Ok s -> symmetric_entries (sol_K_global s).
Proof.
  intros H. unfold Solve_steps in H.
  apply bind_Ok in H as (member_lengths & _ & H).
  apply bind_Ok in H as (k_elems & Hk & H).
  apply bind_Ok in H as (K_global & HK & H).
  apply bind_Ok in H as (sv & _ & H).
  apply bind_Ok in H as (K_new & _ & H).
  apply bind_Ok in H as (f_new & _ & H).
  apply bind_Ok in H as (K_inv & _ & H).
  apply bind_Ok in H as (gd & _ & H).
  apply bind_Ok in H as (eds & _ & H).
  apply bind_Ok in H as (mfs & _ & H).
  apply bind_Ok in H as (mf_map & _ & H).
  apply bind_Ok in H as (mss & _ & H).
  apply bind_Ok in H as (ms_map & _ & H).
  injection H as <-. cbn [sol_K_global].
  eapply (@assemble_all_symmetric R exact); [| | |exact HK].
  - apply shape_zeros.
  - apply zeros_symmetric.
  - intros k Hin. destruct (mapM_results _ _ Hk k Hin) as (e & _ & He).
    eapply Assemble_Stiffness_Matrix_symmetric; eauto.
Qed.

(** X18: in exact arithmetic, the pair [__Solve_Member_Force] returns is
    the cross-sectional area of the element times the pair
    [__Solve_Member_Stress] returns for the same displacements. *)
Theorem member_force_is_area_times_stress (element : Z)
    (displacement_vector : list (@vec R)) (area elasticity : dict R)
    (nodes : dict (@point R)) (elements : dict (Z * Z)) (force : @vec R) :
  Solve_Member_Force element displacement_vector area elasticity nodes elements
  = Ok force ->
  exists A stress,
    dict_get area element = Ok A /\
    Solve_Member_Stress element displacement_vector elasticity nodes elements
    = Ok stress /\
    force = map (Rmult A) stress.
Proof.
  unfold Solve_Member_Force, Solve_Member_Stress. intros H.
  apply bind_Ok in H as ([[[cx cy] cz] L] & -> & H).
  apply bind_Ok in H as (d & -> & H).
  apply bind_Ok in H as (E & -> & H).
  apply bind_Ok in H as (A & -> & H).
  injection H as <-. cbn [bind].
  exists A, (mat_vec (scale (E / L) axial_pattern)
                     (mat_vec (transformation cx cy cz) d)).
  split; [reflexivity|]. split; [reflexivity|].
  cbn [mat_vec transformation map]. change (@s0 R exact) with 0.
  generalize (dot_vec [cx; cy; cz; 0; 0; 0] d) as u_from.
  generalize (dot_vec [0; 0; 0; cx; cy; cz] d) as u_to.
  intros u_to u_from. cbn. unfold Rdiv. entrywise.
Qed.

(** X19: [__Solve_Reactions] rounds to no decimals: in exact arithmetic
    every reaction it returns is a whole number, at most one half away
    from the entry of [K_global . u] it rounds, and there is one for each
    row of [K_global]. *)
Theorem Solve_Reactions_whole (K_global : @mat R) (displacement_vector : @vec R) :
  length (Solve_Reactions K_global displacement_vector) = length K_global /\
  forall i, (i < length K_global)%nat ->
    exists z : Z,
      nth i (Solve_Reactions K_global displacement_vector) 0 = IZR z /\
      Rabs (IZR z - dot_vec (nth i K_global []) displacement_vector) <= 1 / 2.
Proof.
  unfold Solve_Reactions, mat_vec. split; [rewrite !length_map; reflexivity|].
  intros i Hi. rewrite map_map.
  rewrite (nth_map_lt (fun row => np_round (dot_vec row displacement_vector))
                      K_global 0 []) by exact Hi.
  apply Rrint_near.
Qed.

Lemma Direction_Cosines_unit_witness :
  exists cx cy cz L,
    Direction_Cosines 1 real_bar345_nodes [(1%Z, (1%Z, 2%Z))] = Ok (cx, cy, cz, L) /\
    0 < L /\
    L * L = (3 - 0) * (3 - 0) + (4 - 0) * (4 - 0) + (0 - 0) * (0 - 0) /\
    cx * cx + cy * cy + cz * cz = 1 /\
    3 = 0 + L * cx /\ 4 = 0 + L * cy /\ 0 = 0 + L * cz.
Proof.
  apply (@Direction_Cosines_unit 1 1 2 real_bar345_nodes [(1%Z, (1%Z, 2%Z))]
           0 0 0 3 4 0); try reflexivity.
  intros H. injection H; intros; lra.
Defined.

Lemma Direction_Cosines_reversed_witness :
  exists cx cy cz L,
    Direction_Cosines 1 real_bar_nodes [(1%Z, (1%Z, 2%Z))] = Ok (cx, cy, cz, L) /\
    Direction_Cosines 1 real_bar_nodes [(1%Z, (2%Z, 1%Z))]
    = Ok (- cx, - cy, - cz, L).
Proof.
  do 4 eexists. split; [reflexivity|].
  apply (@Direction_Cosines_reversed 1 1 2 real_bar_nodes
           [(1%Z, (1%Z, 2%Z))] [(1%Z, (2%Z, 1%Z))]); reflexivity.
Defined.

Lemma global_stiffness_symmetric_witness :
  exists k_elems K_global,
    mapM (fun element =>
            Assemble_Stiffness_Matrix element [(1%Z, 200)] [(1%Z, 1)]
                                      real_bar345_nodes [(1%Z, (1%Z, 2%Z))])
         (keys [(1%Z, (1%Z, 2%Z))]) = Ok k_elems /\
    assemble_all [(1%Z, (1%Z, 2%Z))] k_elems
                 (np_zeros2 (3 * length real_bar345_nodes)
                            (3 * length real_bar345_nodes)) = Ok K_global /\
    symmetric_entries K_global.
Proof.
  eexists. eexists. split; [reflexivity|]. split; [reflexivity|].
  apply (@global_stiffness_symmetric [(1%Z, 200)] [(1%Z, 1)] real_bar345_nodes
           [(1%Z, (1%Z, 2%Z))] _ _ eq_refl eq_refl).
Defined.

Lemma member_force_is_area_times_stress_witness :
  exists force A stress,
    Solve_Member_Force 1 [[0; 0; 0; -5 / 2; 0; 0]] [(1%Z, 2)] [(1%Z, 200)]
                       real_bar_nodes [(1%Z, (1%Z, 2%Z))] = Ok force /\
    dict_get [(1%Z, 2)] 1 = Ok A /\
    Solve_Member_Stress 1 [[0; 0; 0; -5 / 2; 0; 0]] [(1%Z, 200)]
                        real_bar_nodes [(1%Z, (1%Z, 2%Z))] = Ok stress /\
    force = map (Rmult A) stress.
Proof.
  eexists. 
  destruct (@member_force_is_area_times_stress 1 [[0; 0; 0; -5 / 2; 0; 0]]
              [(1%Z, 2)] [(1%Z, 200)] real_bar_nodes [(1%Z, (1%Z, 2%Z))] _ eq_refl)
    as (A & stress & HA & Hs & Hf).
  exists A, stress. split; [reflexivity|]. auto.
Defined.

End ExactKinematics.

(** ** The reduced system *)

Lemma foldM_Raise {A B : Type} (f : B -> A -> Result B) (e : exn) :
  (forall b a e', f b a = Raise e' -> e' = e) ->
  forall xs b e', foldM f xs b = Raise e' -> e' = e.
Proof.
  intros Hf. induction xs as [|x xs IH]; intros b e' H; [discriminate|].
  cbn [foldM] in H. destruct (f b x) as [b'|e0] eqn:E; cbn [bind] in H.
  - eapply IH; eauto.
  - injection H as <-. eapply Hf; eauto.
Qed.

Lemma norm_index_Raise (n : nat) (i : Z) (e : exn) :
  norm_index n i = Raise e -> e = IndexError.
Proof.
  unfold norm_index.
  destruct ((0 <=? i) && (i <? Z.of_nat n)); [discriminate|].
  destruct ((- Z.of_nat n <=? i) && (i <? 0)); [discriminate|].
  intros H; injection H as <-; reflexivity.
Qed.

Lemma py_index_Raise {A : Type} (l : list A) (i : Z) (e : exn) :
  py_index l i = Raise e -> e = IndexError.
Proof.
  unfold py_index. destruct (norm_index (length l) i) as [n|e0] eqn:E; cbn [bind].
  - destruct (nth_error l n); [discriminate|].
    intros H; injection H as <-; reflexivity.
  - intros H; injection H as <-. eapply norm_index_Raise; eauto.
Qed.

Lemma np_set_Raise {A : Type} (l : list A) (i : Z) (v : A) (e : exn) :
  np_set l i v = Raise e -> e = IndexError.
Proof.
  unfold np_set. destruct (norm_index (length l) i) as [n|e0] eqn:E; cbn [bind];
    [discriminate|].
  intros H; injection H as <-. eapply norm_index_Raise; eauto.
Qed.

Section Sizes.
Context {F : Type} {SF : Scalar F}.

(** X20: a restrained index [i] whose position [i - 1] is outside the
    matrix, negative indices counted, makes [__Apply_Boundary_Conditions]
    raise [IndexError]. *)
Theorem Apply_Boundary_Conditions_out_of_range (K_global : @mat F)
    (restrained_dofs : list Z) (i : Z) :
  In i restrained_dofs ->
  ~ (1 - Z.of_nat (length K_global) <= i <= Z.of_nat (length K_global)) ->
  Apply_Boundary_Conditions restrained_dofs K_global = Raise IndexError.
Proof.
  intros Hin Hr. unfold Apply_Boundary_Conditions.
  rewrite np_delete_out_of_range; [reflexivity|].
  exists (i - 1). split; [apply in_map_iff; exists i; auto|]. lia.
Qed.

(** X21: [__Truss_Global_Displacement] raises [IndexError] when the
    reduced vector has fewer entries than there are free positions. *)
Theorem Truss_Global_Displacement_too_short (displacements : @vec F)
    (Support_Vector : list Z) (nodes : dict (@point F)) :
  (length displacements
   < length (free_positions Support_Vector (3 * length nodes)))%nat ->
  Truss_Global_Displacement displacements Support_Vector nodes = Raise IndexError.
Proof.
  intros Hshort.
  destruct (Truss_Global_Displacement displacements Support_Vector nodes)
    as [v|e] eqn:E.
  - exfalso. unfold Truss_Global_Displacement in E.
    apply bind_Ok in E as ([dv j] & Hfold & _).
    unfold enumerate in Hfold.
    replace (length (np_zeros (3 * length nodes))) with (3 * length nodes)%nat
      in Hfold by (symmetry; apply repeat_length).
    apply (@expansion_needs F SF Support_Vector displacements (3 * length nodes) 0
             (np_zeros (3 * length nodes)) (np_zeros (3 * length nodes)) (dv, j))
      in Hfold.
    + unfold rank in Hfold. cbn [Nat.add] in Hfold. lia.
    + apply repeat_length.
    + unfold np_zeros. rewrite repeat_length. lia.
    + cbn. lia.
  - f_equal. unfold Truss_Global_Displacement in E.
    match type of E with
    | bind ?r _ = _ => destruct r as [[dv j]|e0] eqn:Hfold
    end; cbn [bind] in E; [discriminate|].
    injection E as <-.
    eapply foldM_Raise; [|exact Hfold].
    clear. intros [dv j] [i z] e'. cbn [fst].
    destruct (existsb (Z.eqb i) (map (fun x => x - 1) Support_Vector)).
    + destruct (np_set dv i s0) as [dv'|e0] eqn:E1; cbn [bind]; [discriminate|].
      intros H; injection H as <-. eapply np_set_Raise; eauto.
    + destruct (py_index displacements j) as [d|e0] eqn:E0; cbn [bind].
      * destruct (np_set dv i d) as [dv'|e1] eqn:E1; cbn [bind]; [discriminate|].
        intros H; injection H as <-. eapply np_set_Raise; eauto.
      * intros H; injection H as <-. eapply py_index_Raise; eauto.
Qed.

Lemma restrained_by_dofs (dofs : @vec F) (n p : nat) :
  (p < n)%nat ->
  restrained (map (fun p => Z.of_nat p + 1)
                  (filter (fun p => nth p dofs s0 ==. of_Z 1) (seq 0 n))) p
  = (nth p dofs s0 ==. of_Z 1).
Proof.
  intros Hp. unfold restrained. rewrite map_map.
  destruct (nth p dofs s0 ==. of_Z 1) eqn:E.
  - apply existsb_exists. exists (Z.of_nat p). split; [|apply Z.eqb_refl].
    apply in_map_iff. exists p. split; [lia|].
    apply filter_In. split; [apply in_seq; lia|exact E].
  - apply not_true_is_false. intros H. apply existsb_exists in H as (x & Hx & Hpx).
    apply in_map_iff in Hx as (q & <- & Hq). apply filter_In in Hq as [_ Hq].
    apply Z.eqb_eq in Hpx. replace q with p in Hq by lia. congruence.
Qed.

Lemma Support_Vector_free_count (restrained_dofs : dict (list F))
    (nodes : dict (@point F)) (sv : list Z) :
  Support_Vector restrained_dofs nodes = Ok sv ->
  (length (free_positions sv (3 * length nodes)) + length sv
   = 3 * length nodes)%nat.
Proof.
  intros H. apply Support_Vector_dofs in H as (dofs & _ & ->).
  set (n := (3 * length nodes)%nat).
  set (g := fun p => nth p dofs s0 ==. of_Z 1).
  rewrite length_map.
  assert (E : free_positions (map (fun p => Z.of_nat p + 1) (filter g (seq 0 n))) n
              = filter (fun p => negb (g p)) (seq 0 n)).
  { unfold free_positions. apply filter_ext_in. intros p Hp. apply in_seq in Hp.
    f_equal. apply (restrained_by_dofs dofs). lia. }
  rewrite E, Nat.add_comm.
  rewrite (filter_length g (seq 0 n)). apply length_seq.
Qed.

(** X22: the reduced system of [Solve].  With the restrained DOFs that
    [__Support_Vector] returns, the reduction of a 3N by 3N matrix and the
    reduction of the force vector succeed, and the reduced matrix is
    square with as many rows as the reduced force vector has entries: 3N
    less the number of restrained DOFs. *)
Theorem reduced_system_is_square (restrained_dofs : dict (list F))
    (forces : dict (@point F)) (nodes : dict (@point F)) (K_global : @mat F)
    (sv : list Z) :
  Support_Vector restrained_dofs nodes = Ok sv ->
  shape (3 * length nodes) (3 * length nodes) K_global ->
  (forall k, In k (keys forces) -> 1 <= k <= Z.of_nat (length nodes)) ->
  let m := (3 * length nodes - length sv)%nat in
  exists K_new f_new,
    Apply_Boundary_Conditions sv K_global = Ok K_new /\
    Assemble_Force_Vector forces sv nodes = Ok f_new /\
    shape m m K_new /\ length f_new = m.
Proof.
  intros Hsv HK Hf m.
  pose proof (Support_Vector_range _ _ Hsv) as Hrange.
  pose proof (Support_Vector_free_count _ _ Hsv) as Hcount.
  pose proof (@Apply_Boundary_Conditions_free F SF _ K_global sv HK Hrange) as HA.
  pose proof (submatrix_shape K_global (free_positions sv (3 * length nodes)))
    as Hshape.
  assert (Hm : length (free_positions sv (3 * length nodes)) = m) by (unfold m; lia).
  rewrite Hm in Hshape.
  destruct (Assemble_Force_Vector_full forces nodes Hf) as (f & Hlen & _ & Hred).
  specialize (Hred sv).
  rewrite (np_delete_keeps_free f sv s0) in Hred by (rewrite Hlen; exact Hrange).
  eexists. eexists. split; [exact HA|].
  split; [apply Hred|].
  split; [exact Hshape|]. rewrite length_map, Hlen. exact Hm.
Qed.

(** A load at a restrained DOF does not reach the reduced force vector. *)
Lemma Assemble_Force_Vector_free_loads (forces forces' : dict (@point F))
    (restrained_dofs : list Z) (nodes : dict (@point F)) :
  (forall k, In k (keys forces) -> 1 <= k <= Z.of_nat (length nodes)) ->
  (forall k, In k (keys forces') -> 1 <= k <= Z.of_nat (length nodes)) ->
  (forall i, In i restrained_dofs -> 1 <= i <= Z.of_nat (3 * length nodes)) ->
  (forall p, In p (free_positions restrained_dofs (3 * length nodes)) ->
             load_at forces p = load_at forces' p) ->
  Assemble_Force_Vector forces restrained_dofs nodes
  = Assemble_Force_Vector forces' restrained_dofs nodes.
Proof.
  intros Hk Hk' HSV Hsame.
  destruct (Assemble_Force_Vector_full forces nodes Hk) as (f & Hlen & Hnth & ->).
  destruct (Assemble_Force_Vector_full forces' nodes Hk')
    as (f' & Hlen' & Hnth' & ->).
  rewrite (np_delete_keeps_free f restrained_dofs s0) by (rewrite Hlen; exact HSV).
  rewrite (np_delete_keeps_free f' restrained_dofs s0)
    by (rewrite Hlen'; exact HSV).
  f_equal. rewrite Hlen, Hlen'. apply map_ext_in. intros p Hp.
  pose proof (free_positions_lt _ _ _ Hp) as Hlt.
  rewrite Hnth, Hnth' by exact Hlt. apply Hsame. exact Hp.
Qed.

(** X23: two trusses that differ only in their loads, and only at
    restrained DOFs: [Solve] computes the same values for both, reactions
    included, or fails in the same way. *)
Theorem Solve_steps_ignores_loads_at_supports (self self' : @Truss_3D F)
    (sv : list Z) :
  nodes self' = nodes self -> elements self' = elements self ->
  supports self' = supports self -> elasticity self' = elasticity self ->
  cross_area self' = cross_area self ->
  (forall k, In k (keys (forces self)) -> 1 <= k <= Z.of_nat (length (nodes self))) ->
  (forall k, In k (keys (forces self')) -> 1 <= k <= Z.of_nat (length (nodes self))) ->
  Support_Vector (supports self) (nodes self) = Ok sv ->
  (forall p, In p (free_positions sv (3 * length (nodes self))) ->
             load_at (forces self) p = load_at (forces self') p) ->
  Solve_steps self' = Solve_steps self.
Proof.
  intros Hn He Hs HE HA Hk Hk' Hsv Hsame.
  pose proof (Support_Vector_range _ _ Hsv) as Hrange.
  assert (Hforces : Assemble_Force_Vector (forces self') sv (nodes self)
                    = Assemble_Force_Vector (forces self) sv (nodes self)).
  { apply Assemble_Force_Vector_free_loads; try assumption.
    intros p Hp. symmetry. apply Hsame. exact Hp. }
  unfold Solve_steps. cbv zeta. rewrite Hn, He, Hs, HE, HA, Hsv.
  do 3 (match goal with
        | |- bind ?r _ = bind ?r _ => destruct r; cbn [bind]; [|reflexivity]
        end).
  match goal with
  | |- bind ?r _ = bind ?r _ => destruct r; cbn [bind]; [|reflexivity]
  end.
  rewrite Hforces. reflexivity.
Qed.

End Sizes.

Lemma Apply_Boundary_Conditions_out_of_range_witness :
  Apply_Boundary_Conditions [7] (Examples.stiffness_along_x 20%float)
  = Raise IndexError.
Proof.
  apply (@Apply_Boundary_Conditions_out_of_range float
           (Examples.stiffness_along_x 20%float) [7] 7).
  - left; reflexivity.
  - cbn. lia.
Defined.

Lemma Truss_Global_Displacement_too_short_witness :
  Truss_Global_Displacement (@nil float) [1; 2; 3; 5; 6] Examples.bar_nodes
  = Raise IndexError.
Proof.
  apply (@Truss_Global_Displacement_too_short float float64).
  cbn. lia.
Defined.

Lemma reduced_system_is_square_witness :
  exists K_new f_new,
    Apply_Boundary_Conditions [1; 2; 3; 5; 6] (Examples.stiffness_along_x 20%float)
    = Ok K_new /\
    Assemble_Force_Vector Examples.bar_forces [1; 2; 3; 5; 6] Examples.bar_nodes
    = Ok f_new /\
    shape 1 1 K_new /\ length f_new = 1%nat.
Proof.
  apply (@reduced_system_is_square float float64
           [(1, [1; 1]%float); (2, [0; 1]%float)] Examples.bar_forces
           Examples.bar_nodes (Examples.stiffness_along_x 20%float) [1; 2; 3; 5; 6]).
  - reflexivity.
  - split; [reflexivity|repeat constructor].
  - intros k Hk. cbn in Hk |- * . lia.
Defined.

Lemma Solve_steps_ignores_loads_at_supports_witness :
  Solve_steps (init Examples.bar_nodes Examples.bar_elements
                    [(1, [1; 1; 1]%float); (2, [0; 1; 1]%float)]
                    [(2, (-50, 0, 0)%float); (1, (7, 8, 9)%float)]
                    Examples.bar_E Examples.bar_A)
  = Solve_steps Examples.bar_guided.
Proof.
  apply (@Solve_steps_ignores_loads_at_supports float float64
           Examples.bar_guided _ [1; 2; 3; 5; 6]); try reflexivity.
  - intros k Hk. cbn in Hk |- * . lia.
  - intros k Hk. cbn in Hk |- * . lia.
  - intros p Hp. cbn in Hp. destruct Hp as [<-|[]]. reflexivity.
Defined.


(** ** The orientation of an element *)

Section Orientation.
Context {F : Type} {SF : Scalar F}.

Lemma swap_ends_get (k : @mat F) (p q : nat) :
  (p < 6)%nat -> (q < 6)%nat ->
  mat_get (swap_ends k) p q = mat_get k ((p + 3) mod 6) ((q + 3) mod 6).
Proof.
  intros Hp Hq. unfold swap_ends, mat_get at 1.
  rewrite (nth_map_lt _ (seq 0 6) [] O) by (rewrite length_seq; exact Hp).
  rewrite (nth_map_lt _ (seq 0 6) s0 O) by (rewrite length_seq; exact Hq).
  rewrite !seq_nth by assumption. reflexivity.
Qed.

Lemma block_dofs_swapped (i j : Z) (p : nat) :
  (p < 6)%nat ->
  nth ((p + 3) mod 6) (map Z.to_nat (block_dofs j i)) O
  = nth p (map Z.to_nat (block_dofs i j)) O.
Proof.
  intros Hp. do 6 (destruct p as [|p]; [reflexivity|]). lia.
Qed.

Lemma block_dofs_same_set (i j : Z) (r : nat) :
  In r (map Z.to_nat (block_dofs j i)) <-> In r (map Z.to_nat (block_dofs i j)).
Proof. unfold block_dofs. cbn [map In]. tauto. Qed.

Lemma block_delta_swap (k : @mat F) (i j : Z) (r c : nat) :
  1 <= i -> 1 <= j -> i <> j ->
  block_delta (map Z.to_nat (block_dofs j i)) k r c
  = block_delta (map Z.to_nat (block_dofs i j)) (swap_ends k) r c.
Proof.
  intros Hi Hj Hne.
  set (dofs := map Z.to_nat (block_dofs i j)).
  destruct (in_dec Nat.eq_dec r dofs) as [Hr|Hr];
    [destruct (in_dec Nat.eq_dec c dofs) as [Hc|Hc]|].
  - apply (In_nth _ _ O) in Hr as (p & Hp & <-).
    apply (In_nth _ _ O) in Hc as (q & Hq & <-).
    change (length dofs) with 6%nat in Hp, Hq.
    rewrite (@block_delta_at F SF dofs (swap_ends k) p q);
      [|apply block_dofs_NoDup; lia|reflexivity|exact Hp|exact Hq].
    rewrite (swap_ends_get k Hp Hq).
    unfold dofs.
    rewrite <- (block_dofs_swapped i j Hp), <- (block_dofs_swapped i j Hq).
    apply block_delta_at;
      [apply block_dofs_NoDup; lia|reflexivity| |];
      apply Nat.mod_upper_bound; discriminate.
  - rewrite !block_delta_off; [reflexivity|reflexivity|right; exact Hc|reflexivity|].
    right. intros H. apply Hc. apply block_dofs_same_set. exact H.
  - rewrite !block_delta_off; [reflexivity|reflexivity|left; exact Hr|reflexivity|].
    left. intros H. apply Hr. apply block_dofs_same_set. exact H.
Qed.

(** X24: for two different nodes of 1..N, naming them in the other order
    places the block with its two ends exchanged. *)
Theorem Assemble_Global_Stiffness_reversed (N : nat) (K k : @mat F) (i j : Z) :
  shape (3 * N) (3 * N) K ->
  1 <= i <= Z.of_nat N -> 1 <= j <= Z.of_nat N -> i <> j ->
  Assemble_Global_Stiffness K k j i
  = Assemble_Global_Stiffness K (swap_ends k) i j.
Proof.
  intros HK Hi Hj Hne.
  destruct (@Assemble_Global_Stiffness_at F SF N K k j i HK Hj Hi)
    as (K1 & -> & Hs1 & Hget1).
  destruct (@Assemble_Global_Stiffness_at F SF N K (swap_ends k) i j HK Hi Hj)
    as (K2 & -> & Hs2 & Hget2).
  f_equal. apply (mat_ext Hs1 Hs2). intros r c _ _.
  rewrite Hget1, Hget2, block_delta_swap by lia. reflexivity.
Qed.

End Orientation.

Lemma Assemble_Global_Stiffness_reversed_witness :
  Assemble_Global_Stiffness (@np_zeros2 float float64 6 6)
                            (Examples.stiffness_along_x 20%float) 2 1
  = Assemble_Global_Stiffness (@np_zeros2 float float64 6 6)
                              (swap_ends (Examples.stiffness_along_x 20%float)) 1 2.
Proof.
  apply (@Assemble_Global_Stiffness_reversed float float64 2).
  - split; [reflexivity|repeat constructor].
  - cbn; lia.
  - cbn; lia.
  - lia.
Defined.


Section ExactOrientation.
Local Open Scope R_scope.

(** X25: in exact arithmetic the orientation of an element does not
    matter: with its end nodes named in the other order the element has
    the same stiffness matrix and adds the same terms to the global
    matrix. *)
Theorem element_orientation_irrelevant (N : nat) (element a b : Z)
    (elasticity area : dict R) (nodes : dict (@point R))
    (elements elements' : dict (Z * Z)) (K k : @mat R) :
  dict_find elements element = Some (a, b) ->
  dict_find elements' element = Some (b, a) ->
  Assemble_Stiffness_Matrix element elasticity area nodes elements = Ok k ->
  shape (3 * N) (3 * N) K ->
  (1 <= a <= Z.of_nat N)%Z -> (1 <= b <= Z.of_nat N)%Z ->
  Assemble_Stiffness_Matrix element elasticity area nodes elements' = Ok k /\
  Assemble_Global_Stiffness K k b a = Assemble_Global_Stiffness K k a b.
Proof.
  intros Hel Hel' Hk HK Ha Hb.
  unfold Assemble_Stiffness_Matrix, Direction_Cosines, dict_get in Hk |- * .
  rewrite Hel in Hk. rewrite Hel'. cbn [bind] in Hk |- * .
  destruct (dict_find nodes a) as [[[x1 y1] z1]|]; cbn [bind] in Hk |- * ;
    [|destruct (dict_find nodes b) as [[[x2 y2] z2]|]; discriminate].
  destruct (dict_find nodes b) as [[[x2 y2] z2]|]; cbn [bind] in Hk |- * ;
    [|discriminate].
  destruct (dict_find elasticity element) as [E|]; cbn [bind] in Hk |- * ;
    [|discriminate].
  destruct (dict_find area element) as [A|]; cbn [bind] in Hk |- * ;
    [|discriminate].
  injection Hk as <-.
  cbn [sadd ssub smul sdiv ssqrt exact].
  replace ((x1 - x2) * (x1 - x2) + (y1 - y2) * (y1 - y2) + (z1 - z2) * (z1 - z2))
    with ((x2 - x1) * (x2 - x1) + (y2 - y1) * (y2 - y1) + (z2 - z1) * (z2 - z1))
    by ring.
  set (L := sqrt ((x2 - x1) * (x2 - x1) + (y2 - y1) * (y2 - y1)
                  + (z2 - z1) * (z2 - z1))).
  split.
  - f_equal. cbn. unfold Rdiv. entrywise.
  - destruct (Z.eq_dec a b) as [->|Hne]; [reflexivity|].
    match goal with
    | |- Assemble_Global_Stiffness K ?k0 b a = _ =>
        destruct (@Assemble_Global_Stiffness_at R exact N K k0 b a HK Hb Ha)
          as (K1 & -> & Hs1 & Hget1);
        destruct (@Assemble_Global_Stiffness_at R exact N K k0 a b HK Ha Hb)
          as (K2 & -> & Hs2 & Hget2);
        assert (Hswap : swap_ends k0 = k0)
          by (unfold swap_ends, mat_get; cbn; unfold Rdiv; entrywise)
    end.
    f_equal. apply (mat_ext Hs1 Hs2). intros r c _ _.
    rewrite Hget1, Hget2, block_delta_swap by lia.
    rewrite Hswap. reflexivity.
Qed.

Lemma element_orientation_irrelevant_witness :
  exists k,
    Assemble_Stiffness_Matrix 1 [(1%Z, 200)] [(1%Z, 1)] real_bar345_nodes
                              [(1%Z, (1%Z, 2%Z))] = Ok k /\
    Assemble_Stiffness_Matrix 1 [(1%Z, 200)] [(1%Z, 1)] real_bar345_nodes
                              [(1%Z, (2%Z, 1%Z))] = Ok k /\
    Assemble_Global_Stiffness (@np_zeros2 R exact 6 6) k 2 1
    = Assemble_Global_Stiffness (@np_zeros2 R exact 6 6) k 1 2.
Proof.
  eexists. split; [reflexivity|].
  apply (@element_orientation_irrelevant 2 1 1 2 [(1%Z, 200)] [(1%Z, 1)]
           real_bar345_nodes [(1%Z, (1%Z, 2%Z))] [(1%Z, (2%Z, 1%Z))]
           (@np_zeros2 R exact 6 6)); try reflexivity.
  - split; [reflexivity|repeat constructor].
  - cbn; lia.
  - cbn; lia.
Defined.

End ExactOrientation.

(** ** Exact arithmetic: small displacements and rigid translations *)

Section ExactRounding.
Local Open Scope R_scope.

Lemma Rrint_small (x : R) : Rabs x < 1 / 2 -> Rrint x = 0.
Proof.
  intros Hx. destruct (Rrint_near x) as (z & -> & Hz).
  apply Rabs_def2 in Hx.
  assert (Hz' : - (1 / 2) <= IZR z - x <= 1 / 2)
    by (unfold Rabs in Hz; destruct (Rcase_abs (IZR z - x)); lra).
  assert (Hlo : IZR (-1) < IZR z) by (simpl; lra).
  assert (Hhi : IZR z < IZR 1) by (simpl; lra).
  apply lt_IZR in Hlo, Hhi. f_equal. lia.
Qed.

Lemma np_round5_small (x : R) : Rabs x < 1 / 200000 -> @np_round5 R exact x = 0.
Proof.
  intros Hx. unfold np_round5. cbn [smul sdiv srint of_Z exact].
  rewrite Rrint_small; [unfold Rdiv; ring|].
  rewrite Rabs_mult, (Rabs_right 100000) by lra. lra.
Qed.

(** X26: in exact arithmetic, when every entry of the global displacement
    vector is below 5e-6 in absolute value, the rounding to five decimals
    of [__Element_Displacement] reports the displacements of an element as
    zero. *)
Theorem Element_Displacement_small (N : nat) (element_number a b : Z)
    (global_displacement : @vec R) (elements : dict (Z * Z)) :
  dict_find elements element_number = Some (a, b) ->
  (1 <= a <= Z.of_nat N)%Z -> (1 <= b <= Z.of_nat N)%Z ->
  length global_displacement = (3 * N)%nat ->
  (forall x, In x global_displacement -> Rabs x < 1 / 200000) ->
  Element_Displacement element_number global_displacement elements
  = Ok [0; 0; 0; 0; 0; 0].
Proof.
  intros Hel Ha Hb Hlen Hsmall.
  unfold Element_Displacement, dict_get. rewrite Hel. cbn [bind].
  assert (Hread : forall i : Z,
             (0 <= i < Z.of_nat (3 * N))%Z ->
             exists x, py_index global_displacement i = Ok x /\
                       @np_round5 R exact x = 0).
  { intros i Hi. exists (nth (Z.to_nat i) global_displacement 0). split.
    - replace i with (Z.of_nat (Z.to_nat i)) at 1 by lia.
      apply py_index_nat. lia.
    - apply np_round5_small, Hsmall, nth_In. lia. }
  cbn [mapM].
  destruct (Hread (3 * a - 2 - 1)%Z ltac:(lia)) as (x1 & -> & E1).
  destruct (Hread (3 * a - 1 - 1)%Z ltac:(lia)) as (x2 & -> & E2).
  destruct (Hread (3 * a - 1)%Z ltac:(lia)) as (x3 & -> & E3).
  destruct (Hread (3 * b - 2 - 1)%Z ltac:(lia)) as (x4 & -> & E4).
  destruct (Hread (3 * b - 1 - 1)%Z ltac:(lia)) as (x5 & -> & E5).
  destruct (Hread (3 * b - 1)%Z ltac:(lia)) as (x6 & -> & E6).
  cbn [bind map]. rewrite E1, E2, E3, E4, E5, E6. reflexivity.
Qed.

(** X27: in exact arithmetic the element stiffness matrix sends a
    translation of the whole element, the same vector at both ends, to
    zero. *)
Theorem element_stiffness_rigid_translation (element : Z)
    (elasticity area : dict R) (nodes : dict (@point R))
    (elements : dict (Z * Z)) (k : @mat R) (tx ty tz : R) :
  Assemble_Stiffness_Matrix element elasticity area nodes elements = Ok k ->
  mat_vec k [tx; ty; tz; tx; ty; tz] = [0; 0; 0; 0; 0; 0].
Proof.
  unfold Assemble_Stiffness_Matrix. intros H.
  apply bind_Ok in H as ([[[cx cy] cz] L] & _ & H).
  apply bind_Ok in H as (E & _ & H).
  apply bind_Ok in H as (A & _ & H).
  injection H as <-.
  cbn [sadd smul sdiv exact]. set (kappa := E * A / L).
  cbn. entrywise.
Qed.

(** X28: in exact arithmetic an element whose two ends move by the same
    vector carries no force and no stress. *)
Theorem member_force_rigid_translation (element : Z)
    (displacement_vector : list (@vec R)) (area elasticity : dict R)
    (nodes : dict (@point R)) (elements : dict (Z * Z)) (tx ty tz : R)
    (force : @vec R) :
  py_index displacement_vector (element - 1) = Ok [tx; ty; tz; tx; ty; tz] ->
  Solve_Member_Force element displacement_vector area elasticity nodes elements
  = Ok force ->
  force = [0; 0] /\
  Solve_Member_Stress element displacement_vector elasticity nodes elements
  = Ok [0; 0].
Proof.
  intros Hd. unfold Solve_Member_Force, Solve_Member_Stress. intros H.
  apply bind_Ok in H as ([[[cx cy] cz] L] & -> & H).
  rewrite Hd in H |- * . cbn [bind] in H |- * .
  apply bind_Ok in H as (E & -> & H).
  apply bind_Ok in H as (A & _ & H).
  injection H as <-. cbn [bind]. split.
  - cbn. unfold Rdiv. entrywise.
  - f_equal. cbn. unfold Rdiv. entrywise.
Qed.

Lemma Element_Displacement_small_witness :
  Element_Displacement 1 [0; 0; 0; 1 / 1000000; 0; 0] [(1%Z, (1%Z, 2%Z))]
  = Ok [0; 0; 0; 0; 0; 0].
Proof.
  apply (@Element_Displacement_small 2 1 1 2); try reflexivity; try lia.
  intros x Hx. cbn [In] in Hx.
  assert (H0 : Rabs 0 < 1 / 200000) by (rewrite Rabs_R0; lra).
  assert (H1 : Rabs (1 / 1000000) < 1 / 200000) by (rewrite Rabs_right; lra).
  destruct Hx as [<-|[<-|[<-|[<-|[<-|[<-|[]]]]]]]; assumption.
Defined.

Lemma element_stiffness_rigid_translation_witness :
  exists k,
    Assemble_Stiffness_Matrix 1 [(1%Z, 200)] [(1%Z, 1)] real_bar345_nodes
                              [(1%Z, (1%Z, 2%Z))] = Ok k /\
    mat_vec k [1; 2; 3; 1; 2; 3] = [0; 0; 0; 0; 0; 0].
Proof.
  eexists. split; [reflexivity|].
  apply (@element_stiffness_rigid_translation 1 [(1%Z, 200)] [(1%Z, 1)]
           real_bar345_nodes [(1%Z, (1%Z, 2%Z))]).
  reflexivity.
Defined.

Lemma member_force_rigid_translation_witness :
  exists force,
    Solve_Member_Force 1 [[1; 2; 3; 1; 2; 3]] [(1%Z, 1)] [(1%Z, 200)]
                       real_bar345_nodes [(1%Z, (1%Z, 2%Z))] = Ok force /\
    force = [0; 0] /\
    Solve_Member_Stress 1 [[1; 2; 3; 1; 2; 3]] [(1%Z, 200)]
                        real_bar345_nodes [(1%Z, (1%Z, 2%Z))] = Ok [0; 0].
Proof.
  eexists. split; [reflexivity|].
  apply (@member_force_rigid_translation 1 [[1; 2; 3; 1; 2; 3]] [(1%Z, 1)]
           [(1%Z, 200)] real_bar345_nodes [(1%Z, (1%Z, 2%Z))] 1 2 3);
    reflexivity.
Defined.

End ExactRounding.
